(** * Scene synchronisation of the city builder

    A shallow embedding of [src/scripts/assetManager.ts] (class
    [AssetManager]) and of the scene manager that follows it in the same
    source file (class [SceneManager]): template loading and the ready
    barrier, mesh cloning with per-instance materials, the per-tile diff
    of [applyChanges], and the hover / active highlight.

    JavaScript objects that are shared by reference (scene objects and
    materials) live in stores indexed by allocation order; methods are
    computations in a state-and-exception monad over the whole program
    state, so that what a thrown exception leaves behind is visible. *)

From Stdlib Require Import ZArith Lia List String DecimalString.
From Stdlib Require DecimalZ DecimalPos.
From stdpp Require Import base option list strings gmap.

(** ** three.js values *)

(** References into the material store and into the object store. *)
Abbreviation mat_id := nat (only parsing).
Abbreviation obj_id := nat (only parsing).

Module Material.
(** The fields of a three.js material that the two classes read or
    write.  [emissive] is absent for material kinds that have no
    emissive channel (the source guards that with [emissive?.]). *)
Record t := mk { color : Z; emissive : option Z; transparent : bool }.

(** [new THREE.MeshLambertMaterial({ map, specularMap })]: white, no
    emission, opaque. *)
Definition lambert : t := mk 0xffffff%Z (Some 0%Z) false.

(** [material.color = new THREE.Color(c)] *)
Definition setColor (c : Z) (m : t) : t := mk c (emissive m) (transparent m).

(** [material.emissive?.setHex(c)] *)
Definition setEmissiveHex (c : Z) (m : t) : t :=
  mk (color m) (match emissive m with Some _ => Some c | None => None end)
     (transparent m).

(** [material.transparent = b] *)
Definition setTransparent (b : bool) (m : t) : t := mk (color m) (emissive m) b.
End Material.

(** The sub-part tree of a scene object.  A three.js object has exactly one
    parent ([add] detaches it from the previous one), so the sub-parts of
    an object are owned by it and are kept by value; what they share with
    other objects is the material they point to. *)
#[local] Unset Elimination Schemes.
Inductive Part := Node (material : option mat_id) (children : list Part).
#[local] Set Elimination Schemes.

Definition partMaterial (p : Part) : option mat_id :=
  match p with Node m _ => m end.

Definition partChildren (p : Part) : list Part :=
  match p with Node _ ks => ks end.

Module Object3D.
(** A scene object that the managers hold a reference to.  [rotation] is
    the angle about the y axis in degrees (the source multiplies it by
    [DEG2RAD]; the x and z angles are always 0).  [userData] is the
    reference to a tile, kept as the tile's own coordinates. *)
Record t := mk {
  part : Part;
  position : Z * Z * Z;
  rotation : Z;
  visible : bool;
  userData : option (Z * Z)
}.

Definition setPart (p : Part) (o : t) : t :=
  mk p (position o) (rotation o) (visible o) (userData o).
Definition setPosition (p : Z * Z * Z) (o : t) : t :=
  mk (part o) p (rotation o) (visible o) (userData o).
Definition setRotation (r : Z) (o : t) : t :=
  mk (part o) (position o) r (visible o) (userData o).
Definition setVisible (v : bool) (o : t) : t :=
  mk (part o) (position o) (rotation o) v (userData o).
Definition setUserData (u : option (Z * Z)) (o : t) : t :=
  mk (part o) (position o) (rotation o) (visible o) u.

(** [mesh.material] *)
Definition material (o : t) : option mat_id := partMaterial (part o).
End Object3D.

(** ** The world model consumed by the scene manager *)

Module Building.
(** Modelled from the spec: the building classes ([Zone], [Road]) are
    not part of the source file.  The source reads the properties below
    from [tile.building] after casting it, so one property record
    covers zones and roads; [type] selects the kind. *)
Record t := mk {
  type : string;
  style : string;
  level : Z;
  rotation : Z;
  x : Z;
  y : Z;
  hideTerrain : bool;
  isMeshOutOfDate : bool;
  abandoned : bool;
  developed : bool
}.

Definition setIsMeshOutOfDate (v : bool) (b : t) : t :=
  mk (type b) (style b) (level b) (rotation b) (x b) (y b)
     (hideTerrain b) v (abandoned b) (developed b).
Definition setDeveloped (v : bool) (b : t) : t :=
  mk (type b) (style b) (level b) (rotation b) (x b) (y b)
     (hideTerrain b) (isMeshOutOfDate b) (abandoned b) v.
End Building.

Module Tile.
(** Modelled from the spec: class [Tile] is not part of the source
    file; it carries its grid coordinates and an optional building. *)
Record t := mk { x : Z; y : Z; building : option Building.t }.

Definition setBuilding (b : option Building.t) (t0 : t) : t := mk (x t0) (y t0) b.
End Tile.

Module City.
(** Modelled from the spec: class [City] is not part of the source
    file; the scene manager uses [city.size] and [city.getTile(x, y)],
    which yields the tile stored at that coordinate or null. *)
Record t := mk { size : nat; tiles : list (list Tile.t) }.

Definition getTile (c : t) (x y : nat) : option Tile.t :=
  match tiles c !! x with
  | Some col => col !! y
  | None => None
  end.

(** In-place update of the tile object stored at [(x, y)]. *)
Definition alterTile (f : Tile.t -> Tile.t) (x y : nat) (c : t) : t :=
  mk (size c) (alter (alter f y) x (tiles c)).
End City.

(** ** Observable calls *)

(** Modelled from the spec: class [VehicleGraph] is not part of the
    source file; its [updateTile(x, y, road | null)] is kept as a recorded
    call, like the other calls that leave the two classes: edits of the
    children of the root group, load requests, the ready callback and the
    console. *)
Inductive Call :=
| RootAdd (o : obj_id)
| RootRemove (o : obj_id)
| UpdateTile (x y : nat) (road : option Building.t)
| LoadRequest (file : string)
| Ready
| ConsoleWarn (msg : string)
| ConsoleError (msg : string)
| ConsoleLog (msg : string).

(** ** Program state *)

Record World := mkWorld {
  (* three.js stores *)
  objs : list Object3D.t;
  mats : list Material.t;
  (* AssetManager *)
  meshes : gmap string obj_id;
  modelCount : nat;
  loadedModelCount : nat;
  (* SceneManager *)
  root : list obj_id;
  buildings : list (list (option obj_id));
  terrain : list (list obj_id);
  hoverObject : option obj_id;
  activeObject : option obj_id;
  (* the city passed to the scene manager *)
  city : City.t;
  (* calls issued so far, oldest first *)
  calls : list Call
}.

Definition set_objs (v : list Object3D.t) (w : World) : World :=
  mkWorld v (mats w) (meshes w) (modelCount w) (loadedModelCount w) (root w)
    (buildings w) (terrain w) (hoverObject w) (activeObject w) (city w) (calls w).
Definition set_mats (v : list Material.t) (w : World) : World :=
  mkWorld (objs w) v (meshes w) (modelCount w) (loadedModelCount w) (root w)
    (buildings w) (terrain w) (hoverObject w) (activeObject w) (city w) (calls w).
Definition set_meshes (v : gmap string obj_id) (w : World) : World :=
  mkWorld (objs w) (mats w) v (modelCount w) (loadedModelCount w) (root w)
    (buildings w) (terrain w) (hoverObject w) (activeObject w) (city w) (calls w).
Definition set_modelCount (v : nat) (w : World) : World :=
  mkWorld (objs w) (mats w) (meshes w) v (loadedModelCount w) (root w)
    (buildings w) (terrain w) (hoverObject w) (activeObject w) (city w) (calls w).
Definition set_loadedModelCount (v : nat) (w : World) : World :=
  mkWorld (objs w) (mats w) (meshes w) (modelCount w) v (root w)
    (buildings w) (terrain w) (hoverObject w) (activeObject w) (city w) (calls w).
Definition set_root (v : list obj_id) (w : World) : World :=
  mkWorld (objs w) (mats w) (meshes w) (modelCount w) (loadedModelCount w) v
    (buildings w) (terrain w) (hoverObject w) (activeObject w) (city w) (calls w).
Definition set_buildings (v : list (list (option obj_id))) (w : World) : World :=
  mkWorld (objs w) (mats w) (meshes w) (modelCount w) (loadedModelCount w) (root w)
    v (terrain w) (hoverObject w) (activeObject w) (city w) (calls w).
Definition set_terrain (v : list (list obj_id)) (w : World) : World :=
  mkWorld (objs w) (mats w) (meshes w) (modelCount w) (loadedModelCount w) (root w)
    (buildings w) v (hoverObject w) (activeObject w) (city w) (calls w).
Definition set_hoverObject (v : option obj_id) (w : World) : World :=
  mkWorld (objs w) (mats w) (meshes w) (modelCount w) (loadedModelCount w) (root w)
    (buildings w) (terrain w) v (activeObject w) (city w) (calls w).
Definition set_activeObject (v : option obj_id) (w : World) : World :=
  mkWorld (objs w) (mats w) (meshes w) (modelCount w) (loadedModelCount w) (root w)
    (buildings w) (terrain w) (hoverObject w) v (city w) (calls w).
Definition set_city (v : City.t) (w : World) : World :=
  mkWorld (objs w) (mats w) (meshes w) (modelCount w) (loadedModelCount w) (root w)
    (buildings w) (terrain w) (hoverObject w) (activeObject w) v (calls w).
Definition set_calls (v : list Call) (w : World) : World :=
  mkWorld (objs w) (mats w) (meshes w) (modelCount w) (loadedModelCount w) (root w)
    (buildings w) (terrain w) (hoverObject w) (activeObject w) (city w) v.

(** ** The state-and-exception monad *)

Inductive Error := TypeError (msg : string).

(** A call either returns a value or throws; both leave a state behind. *)
Inductive Outcome (A : Type) :=
| Ret (a : A) (w : World)
| Throw (e : Error) (w : World).
Arguments Ret {A} a w.
Arguments Throw {A} e w.

Definition M (A : Type) : Type := World -> Outcome A.

Definition ret {A} (a : A) : M A := fun w => Ret a w.
Definition throw {A} (e : Error) : M A := fun w => Throw e w.
Definition bind {A B} (m : M A) (k : A -> M B) : M B :=
  fun w => match m w with
           | Ret a w' => k a w'
           | Throw e w' => Throw e w'
           end.
Definition gets {A} (f : World -> A) : M A := fun w => Ret (f w) w.
Definition modify (f : World -> World) : M unit := fun w => Ret tt (f w).

Notation "x <- m ;; k" := (bind m (fun x => k))
  (at level 100, m at next level, right associativity).
Notation "m ;;; k" := (bind m (fun _ => k))
  (at level 100, right associativity).

(** [if (c) { m }] *)
Definition when (c : bool) (m : M unit) : M unit := if c then m else ret tt.

(** [for (const a of l) { body(a) }] *)
Fixpoint forEach {A} (l : list A) (body : A -> M unit) : M unit :=
  match l with
  | [] => ret tt
  | a :: l' => body a ;;; forEach l' body
  end.

(** The state an outcome leaves behind. *)
Definition final {A} (o : Outcome A) : World :=
  match o with Ret _ w => w | Throw _ w => w end.

Definition call (c : Call) : M unit :=
  modify (fun w => set_calls (calls w ++ [c]) w).

(** ** three.js operations used by the two classes *)

(** [children.indexOf(o)] followed by [children.splice(index, 1)]. *)
Fixpoint removeFirst (o : obj_id) (l : list obj_id) : list obj_id :=
  match l with
  | [] => []
  | a :: l' => if decide (a = o) then l' else a :: removeFirst o l'
  end.

(** [this.root.remove(object)] *)
Definition rootRemove (o : obj_id) : M unit :=
  call (RootRemove o) ;;;
  modify (fun w => set_root (removeFirst o (root w)) w).

(** [this.root.add(object)].  three.js reports a null argument on the
    console and adds nothing; an object is detached from its current
    parent (the managers only ever attach to the root) and appended. *)
Definition rootAdd (o : option obj_id) : M unit :=
  match o with
  | None => call (ConsoleError "THREE.Object3D.add: object not an instance of THREE.Object3D.")
  | Some o =>
      call (RootAdd o) ;;;
      modify (fun w => set_root (removeFirst o (root w) ++ [o]) w)
  end.

(** Dereferencing an object or a material.  References held by live
    JavaScript objects are never dangling; the model throws on one so
    that no result silently depends on it. *)
Definition getObj (o : obj_id) : M Object3D.t :=
  fun w => match objs w !! o with
           | Some v => Ret v w
           | None => Throw (TypeError "dangling object reference") w
           end.

Definition getMat (r : mat_id) : M Material.t :=
  fun w => match mats w !! r with
           | Some v => Ret v w
           | None => Throw (TypeError "dangling material reference") w
           end.

(** A field write on the object behind a reference. *)
Definition updateObj (o : obj_id) (f : Object3D.t -> Object3D.t) : M unit :=
  v <- getObj o ;;
  modify (fun w => set_objs (<[o := f v]> (objs w)) w).

(** A field write on the material behind a reference. *)
Definition updateMat (r : mat_id) (f : Material.t -> Material.t) : M unit :=
  v <- getMat r ;;
  modify (fun w => set_mats (<[r := f v]> (mats w)) w).

(** [new ...]: the next free reference. *)
Definition alloc (v : Object3D.t) : M obj_id :=
  fun w => Ret (length (objs w)) (set_objs (objs w ++ [v]) w).

(** [object.clone()]: a new object with the same field values; the
    sub-parts are copied and keep pointing to the same materials.  This
    is [Mesh.copy]: the nodes of a template are meshes, as the type of
    the catalog says; for a node of another class three.js would not
    copy a [material] property that [loadModel] gave it. *)
Definition clone (o : obj_id) : M obj_id :=
  v <- getObj o ;;
  alloc v.

(** What a [traverse] callback of the source does to one node: it reads
    and reassigns the node's material and may allocate in the material
    store.  [None] stands for a dangling material reference. *)
Definition Visitor : Type :=
  option mat_id -> list Material.t -> option (option mat_id * list Material.t).

(** [object.traverse(callback)]: the node itself, then its children in
    order, each with the store left by the previous one. *)
Fixpoint traverse (f : Visitor) (p : Part) (ms : list Material.t)
  : option (Part * list Material.t) :=
  match p with
  | Node m ks =>
      match f m ms with
      | None => None
      | Some (m', ms1) =>
          match
            (fix each (ks : list Part) (ms : list Material.t) :=
               match ks with
               | [] => Some ([], ms)
               | k :: ks' =>
                   match traverse f k ms with
                   | None => None
                   | Some (k', ms2) =>
                       match each ks' ms2 with
                       | None => None
                       | Some (ks'', ms3) => Some (k' :: ks'', ms3)
                       end
                   end
               end) ks ms1
          with
          | None => None
          | Some (ks', ms2) => Some (Node m' ks', ms2)
          end
      end
  end.

(** The children loop of [traverse], as a function of its own. *)
Fixpoint traverseEach (f : Visitor) (ks : list Part) (ms : list Material.t)
  : option (list Part * list Material.t) :=
  match ks with
  | [] => Some ([], ms)
  | k :: ks' =>
      match traverse f k ms with
      | None => None
      | Some (k', ms2) =>
          match traverseEach f ks' ms2 with
          | None => None
          | Some (ks'', ms3) => Some (k' :: ks'', ms3)
          end
      end
  end.

(** [mesh.traverse(callback)] on the object behind a reference. *)
Definition traverseObj (f : Visitor) (o : obj_id) : M unit :=
  v <- getObj o ;;
  ms <- gets mats ;;
  match traverse f (Object3D.part v) ms with
  | None => throw (TypeError "dangling material reference")
  | Some (p', ms') =>
      modify (fun w => set_mats ms' (set_objs (<[o := Object3D.setPart p' v]> (objs w)) w))
  end.

(** ** AssetManager *)

(** An entry of the catalog [models] (the table itself is not part of
    the source file and is a parameter of the constructor).  Scale and
    shadow flags only set fields of the template that nothing here reads;
    they are left out, as are the textures. *)
Record Descriptor := mkDescriptor { filename : string; rotationDegrees : Z }.

(** The callback of [cloneMesh]:
    [if (obj.material) { obj.material = obj.material.clone();
                         obj.material.transparent = transparent; }] *)
Definition cloneMaterial (transparent : bool) : Visitor :=
  fun m ms =>
    match m with
    | None => Some (None, ms)
    | Some r =>
        match ms !! r with
        | None => None
        | Some mat => Some (Some (length ms), ms ++ [Material.setTransparent transparent mat])
        end
    end.

(** The callback of [loadModel]:
    [node.material = new THREE.MeshLambertMaterial({...})] *)
Definition assignLambert : Visitor :=
  fun _ ms => Some (Some (length ms), ms ++ [Material.lambert]).

(** [cloneMesh(name, transparent = false)] *)
Definition cloneMesh (name : string) (transparent : bool) : M obj_id :=
  template <- gets (fun w => meshes w !! name) ;;
  match template with
  | None => throw (TypeError "Cannot read properties of undefined (reading 'clone')")
  | Some t =>
      mesh <- clone t ;;
      traverseObj (cloneMaterial transparent) mesh ;;;
      ret mesh
  end.

(** [createGroundMesh(tile)] *)
Definition createGroundMesh (tile : Tile.t) : M obj_id :=
  mesh <- cloneMesh "grass" false ;;
  updateObj mesh (Object3D.setUserData (Some (Tile.x tile, Tile.y tile))) ;;;
  updateObj mesh (Object3D.setPosition (Tile.x tile, 0%Z, Tile.y tile)) ;;;
  ret mesh.

(** The decimal rendering of a number inside a template literal, as
    JavaScript prints an integer below 1e21 in magnitude (from there on
    it prints an exponent). *)
Definition numberToString (n : Z) : string := NilZero.string_of_int (Z.to_int n).

(** [mesh.material.color = new THREE.Color(c)] *)
Definition setMaterialColor (mesh : obj_id) (c : Z) : M unit :=
  v <- getObj mesh ;;
  match Object3D.material v with
  | None => throw (TypeError "Cannot set properties of undefined (setting 'color')")
  | Some r => updateMat r (Material.setColor c)
  end.

(** [createZoneMesh(tile)] *)
Definition createZoneMesh (tile : Tile.t) : M obj_id :=
  match Tile.building tile with
  | None => throw (TypeError "Cannot read properties of null (reading 'type')")
  | Some zone =>
      let modelName :=
        Building.type zone +:+ "-" +:+ Building.style zone
          +:+ numberToString (Building.level zone) in
      (* if (zone.developed) { /* TODO */ } *)
      when (Building.developed zone) (ret tt) ;;;
      mesh <- cloneMesh modelName false ;;
      updateObj mesh (Object3D.setUserData (Some (Tile.x tile, Tile.y tile))) ;;;
      updateObj mesh (Object3D.setRotation (Building.rotation zone)) ;;;
      updateObj mesh (Object3D.setPosition (Building.x zone, 0%Z, Building.y zone)) ;;;
      when (Building.abandoned zone) (setMaterialColor mesh 0x707070%Z) ;;;
      ret mesh
  end.

(** [createRoadMesh(tile)] *)
Definition createRoadMesh (tile : Tile.t) : M obj_id :=
  match Tile.building tile with
  | None => throw (TypeError "Cannot read properties of null (reading 'type')")
  | Some road =>
      mesh <- cloneMesh (Building.type road +:+ "-" +:+ Building.style road) false ;;
      updateObj mesh (Object3D.setUserData (Some (Tile.x tile, Tile.y tile))) ;;;
      updateObj mesh (Object3D.setRotation (Building.rotation road)) ;;;
      updateObj mesh (Object3D.setPosition (Building.x road, 0%Z, Building.y road)) ;;;
      ret mesh
  end.

(** The kinds [createBuildingMesh] dispatches on. *)
Definition isZoneType (ty : string) : bool :=
  String.eqb ty "residential" || String.eqb ty "commercial" || String.eqb ty "industrial".

Definition isRoadType (ty : string) : bool := String.eqb ty "road".

(** [createBuildingMesh(tile)]; the argument is null when the city has no
    tile at the coordinate. *)
Definition createBuildingMesh (tile : option Tile.t) : M (option obj_id) :=
  match tile with
  | None => ret None
  | Some t =>
      match Tile.building t with
      | None => ret None
      | Some b =>
          if isZoneType (Building.type b) then
            mesh <- createZoneMesh t ;; ret (Some mesh)
          else if isRoadType (Building.type b) then
            mesh <- createRoadMesh t ;; ret (Some mesh)
          else
            call (ConsoleWarn ("Mesh type " +:+ Building.type b +:+ " is not recognized.")) ;;;
            ret None
      end
  end.

(** [loadModel(name, meta)] hands the file to the loader (the base URL is
    a build constant and not recorded); its callbacks run later, one per
    delivered event. *)
Definition loadModel (name : string) (meta : Descriptor) : M unit :=
  call (LoadRequest (filename meta)).

(** The success callback of [loadModel]; [glb] is the object found at
    [glb.scene.children[0].children[0]], allocated by the loader, and the
    call [this.onLoad()] is kept as the record [Ready]. *)
Definition onModelLoaded (name : string) (meta : Descriptor) (glb : Object3D.t) : M unit :=
  mesh <- alloc glb ;;
  traverseObj assignLambert mesh ;;;
  updateObj mesh (Object3D.setPosition (0, 0, 0)%Z) ;;;
  updateObj mesh (Object3D.setRotation (rotationDegrees meta)) ;;;
  modify (fun w => set_meshes (<[name := mesh]> (meshes w)) w) ;;;
  modify (fun w => set_loadedModelCount (S (loadedModelCount w)) w) ;;;
  done <- gets (fun w => loadedModelCount w =? modelCount w) ;;
  when done (call Ready).

(** The error callback of [loadModel]: [console.error(error)]. *)
Definition onModelError (error : string) : M unit :=
  call (ConsoleError error).

(** [new AssetManager(onLoad)] over the catalog [models]
    ([Object.entries(models)], so the names are pairwise distinct). *)
Definition newAssetManager (models : list (string * Descriptor)) : M unit :=
  modify (set_meshes ∅) ;;;
  modify (set_modelCount (length models)) ;;;
  modify (set_loadedModelCount 0) ;;;
  forEach models (fun entry => loadModel (fst entry) (snd entry)).

(** What the loader delivers for a requested model. *)
Inductive LoaderEvent :=
| Loaded (name : string) (meta : Descriptor) (glb : Object3D.t)
| Progress (name : string)
| Failed (name : string) (error : string).

Definition deliver (e : LoaderEvent) : M unit :=
  match e with
  | Loaded name meta glb => onModelLoaded name meta glb
  | Progress _ => ret tt
  | Failed _ error => onModelError error
  end.

(** The callbacks run one after the other on the single execution
    context. *)
Definition deliverAll (es : list LoaderEvent) : M unit := forEach es deliver.

(** ** SceneManager *)

(** The read [this.buildings[x][y]]: a missing column throws, a missing
    entry reads as undefined. *)
Definition readSlot (x y : nat) : M (option obj_id) :=
  fun w => match buildings w !! x with
           | None => Throw (TypeError "Cannot read properties of undefined") w
           | Some col => Ret (default None (col !! y)) w
           end.

(** An array store [a[i] = v]: past the end the array grows, the gap
    reading as [hole]. *)
Definition arraySet {A} (i : nat) (v hole : A) (a : list A) : list A :=
  if i <? length a then <[i := v]> a
  else a ++ replicate (i - length a) hole ++ [v].

(** The store [this.buildings[x][y] = v]. *)
Definition writeSlot (x y : nat) (v : option obj_id) : M unit :=
  fun w => match buildings w !! x with
           | None => Throw (TypeError "Cannot set properties of undefined") w
           | Some col => Ret tt (set_buildings (<[x := arraySet y v None col]> (buildings w)) w)
           end.

(** [this.terrain[x][y].visible = v] *)
Definition setTerrainVisible (x y : nat) (v : bool) : M unit :=
  col <- gets (fun w => terrain w !! x) ;;
  match col with
  | None => throw (TypeError "Cannot read properties of undefined")
  | Some col =>
      match col !! y with
      | None => throw (TypeError "Cannot set properties of undefined (setting 'visible')")
      | Some t => updateObj t (Object3D.setVisible v)
      end
  end.

(** [tile?.building] *)
Definition buildingOf (tile : option Tile.t) : option Building.t :=
  match tile with Some t => Tile.building t | None => None end.

(** [!tile?.building?.hideTerrain ?? true]: the negation is always a
    boolean, so the default after [??] is never taken. *)
Definition terrainVisibleFor (tile : option Tile.t) : bool :=
  negb (match buildingOf tile with Some b => Building.hideTerrain b | None => false end).

(** The body of the two loops of [applyChanges] at one coordinate. *)
Definition applyTile (x y : nat) : M unit :=
  tile <- gets (fun w => City.getTile (city w) x y) ;;
  existingBuildingMesh <- readSlot x y ;;
  setTerrainVisible x y (terrainVisibleFor tile) ;;;
  (match buildingOf tile, existingBuildingMesh with
   | None, Some existing =>
       rootRemove existing ;;;
       writeSlot x y None ;;;
       call (UpdateTile x y None)
   | _, _ => ret tt
   end) ;;;
  (match buildingOf tile, existingBuildingMesh with
   | Some b, Some existing =>
       when (Building.isMeshOutOfDate b) (
         rootRemove existing ;;;
         mesh <- createBuildingMesh tile ;;
         writeSlot x y mesh ;;;
         added <- readSlot x y ;;
         rootAdd added ;;;
         let b' := Building.setIsMeshOutOfDate false b in
         modify (fun w => set_city (City.alterTile (Tile.setBuilding (Some b')) x y (city w)) w) ;;;
         when (isRoadType (Building.type b)) (call (UpdateTile x y (Some b'))))
   | _, _ => ret tt
   end).

(** [applyChanges(city)]; the city is the one held in the state, since
    the pass writes to its buildings. *)
Definition applyChanges : M unit :=
  size <- gets (fun w => City.size (city w)) ;;
  forEach (seq 0 size) (fun x =>
    forEach (seq 0 size) (fun y => applyTile x y)).

(** [#setMeshEmission(mesh, color)] *)
Definition setMeshEmission (mesh : option obj_id) (color : Z) : M unit :=
  match mesh with
  | None => ret tt
  | Some m =>
      v <- getObj m ;;
      match Object3D.material v with
      | None => throw (TypeError "Cannot read properties of undefined (reading 'emissive')")
      | Some r => updateMat r (Material.setEmissiveHex color)
      end
  end.

(** [setHighlightedMesh(mesh)] *)
Definition setHighlightedMesh (mesh : option obj_id) : M unit :=
  hover <- gets hoverObject ;;
  active <- gets activeObject ;;
  when (bool_decide (hover ≠ None) && bool_decide (hover ≠ active))
       (setMeshEmission hover 0x000000%Z) ;;;
  modify (set_hoverObject mesh) ;;;
  hover' <- gets hoverObject ;;
  when (bool_decide (hover' ≠ None)) (setMeshEmission hover' 0x555555%Z).

(** [setActiveObject(object)] *)
Definition setActiveObject (object : option obj_id) : M unit :=
  active <- gets activeObject ;;
  setMeshEmission active 0x000000%Z ;;;
  modify (set_activeObject object) ;;;
  active' <- gets activeObject ;;
  setMeshEmission active' 0xaaaa55%Z.

(** ** Reading the store *)

(** The material behind [mesh.material], if both references resolve. *)
Definition materialOf (w : World) (m : obj_id) : option Material.t :=
  match objs w !! m with
  | Some o =>
      match Object3D.material o with
      | Some r => mats w !! r
      | None => None
      end
  | None => None
  end.

(** The emissive colour shown by an object. *)
Definition emissiveOf (w : World) (m : obj_id) : option Z :=
  match materialOf w m with
  | Some mat => Material.emissive mat
  | None => None
  end.


(** ** Measures used by the statements *)

(** Structural induction on sub-part trees. *)
Fixpoint Part_ind (P : Part -> Prop)
    (step : forall m ks, Forall P ks -> P (Node m ks)) (p : Part) : P p :=
  match p with
  | Node m ks =>
      step m ks
        ((fix all (ks : list Part) : Forall P ks :=
            match ks with
            | [] => List.Forall_nil P
            | k :: ks' => @List.Forall_cons Part P k ks' (Part_ind P step k) (all ks')
            end) ks)
  end.

(** Successful and failed completions among the delivered events. *)
Fixpoint successes (es : list LoaderEvent) : nat :=
  match es with
  | [] => 0
  | Loaded _ _ _ :: es' => S (successes es')
  | _ :: es' => successes es'
  end.

Fixpoint failures (es : list LoaderEvent) : nat :=
  match es with
  | [] => 0
  | Failed _ _ :: es' => S (failures es')
  | _ :: es' => failures es'
  end.

(** How often the ready callback was invoked in a call sequence. *)
Fixpoint readyCount (cs : list Call) : nat :=
  match cs with
  | [] => 0
  | Ready :: cs' => S (readyCount cs')
  | _ :: cs' => readyCount cs'
  end.

(** The material references of a sub-part tree, in traversal order. *)
Fixpoint partRefs (p : Part) : list mat_id :=
  match p with
  | Node m ks => option_list m ++ flat_map partRefs ks
  end.

(** What a sub-part tree looks like: the tree with every material
    reference resolved in a material store. *)
#[local] Unset Elimination Schemes.
Inductive Look := LookNode (material : option Material.t) (children : list Look).
#[local] Set Elimination Schemes.

Fixpoint look (ms : list Material.t) (p : Part) : Look :=
  match p with
  | Node m ks =>
      LookNode (match m with Some r => ms !! r | None => None end) (map (look ms) ks)
  end.

Fixpoint mapLook (f : Material.t -> Material.t) (l : Look) : Look :=
  match l with
  | LookNode m ks => LookNode (f <$> m) (map (mapLook f) ks)
  end.

(** What the object behind a reference looks like. *)
Definition lookOf (w : World) (o : obj_id) : option Look :=
  (fun v => look (mats w) (Object3D.part v)) <$> objs w !! o.

(** The material references held by the object behind a reference. *)
Definition refsOf (w : World) (o : obj_id) : list mat_id :=
  match objs w !! o with
  | Some v => partRefs (Object3D.part v)
  | None => []
  end.

(** The colours of all parts of an object, in traversal order. *)
Definition colorsOf (w : World) (o : obj_id) : list (option Z) :=
  map (fun r => Material.color <$> mats w !! r) (refsOf w o).

(** Every material reference held by an object is allocated. *)
Definition storeOk (w : World) : Prop :=
  Forall (fun v => Forall (fun r => r < length (mats w)) (partRefs (Object3D.part v)))
         (objs w).

(** The model names the factory derives from a building. *)
Definition zoneModelName (zone : Building.t) : string :=
  Building.type zone +:+ "-" +:+ Building.style zone
    +:+ numberToString (Building.level zone).

Definition roadModelName (road : Building.t) : string :=
  Building.type road +:+ "-" +:+ Building.style road.

(** The model [createBuildingMesh] asks for, none for an unrecognised
    kind. *)
Definition modelNameOf (b : Building.t) : option string :=
  if isZoneType (Building.type b) then Some (zoneModelName b)
  else if isRoadType (Building.type b) then Some (roadModelName b)
  else None.

(** Whether [createBuildingMesh] tints the instance it makes for a
    building. *)
Definition tintOf (b : Building.t) : bool :=
  isZoneType (Building.type b) && Building.abandoned b.

(** A look with the colour of its root material replaced. *)
Definition tintRoot (c : Z) (l : Look) : Look :=
  match l with
  | LookNode m ks => LookNode (Material.setColor c <$> m) ks
  end.

(** The look of an instance made for building [b] from a template that
    looks like [l]. *)
Definition instanceLook (b : Building.t) (l : Look) : Look :=
  let opaque := mapLook (Material.setTransparent false) l in
  if tintOf b then tintRoot 0x707070%Z opaque else opaque.

(** The object [createBuildingMesh] leaves in the store for building [b]
    of [tile], with sub-part tree [p] and the visibility of the
    template. *)
Definition instanceObject (tile : Tile.t) (b : Building.t) (p : Part) (visible : bool)
  : Object3D.t :=
  Object3D.mk p (Building.x b, 0%Z, Building.y b) (Building.rotation b) visible
    (Some (Tile.x tile, Tile.y tile)).

(** The template a building needs is in the catalog and in the store,
    and has a root material when the instance is to be tinted. *)
Definition modelReady (w : World) (b : Building.t) : Prop :=
  match modelNameOf b with
  | None => True
  | Some name =>
      exists tid tpl,
        meshes w !! name = Some tid /\ objs w !! tid = Some tpl /\
        (tintOf b = true -> is_Some (partMaterial (Object3D.part tpl)))
  end.

(** ** The scene at one coordinate *)

(** [this.buildings[x][y]], undefined and null alike reading as none. *)
Definition slotAt (w : World) (x y : nat) : option obj_id :=
  match buildings w !! x with
  | Some col => default None (col !! y)
  | None => None
  end.

(** [this.terrain[x][y]] *)
Definition terrainAt (w : World) (x y : nat) : option obj_id :=
  match terrain w !! x with
  | Some col => col !! y
  | None => None
  end.

Definition tileAt (w : World) (x y : nat) : option Tile.t := City.getTile (city w) x y.

Definition buildingAt (w : World) (x y : nat) : option Building.t :=
  buildingOf (tileAt w x y).

(** The two conditionals of [applyTile], after the reads and the terrain
    write. *)
Definition reconcile (x y : nat) (tile : option Tile.t) (existingBuildingMesh : option obj_id)
  : M unit :=
  (match buildingOf tile, existingBuildingMesh with
   | None, Some existing =>
       rootRemove existing ;;;
       writeSlot x y None ;;;
       call (UpdateTile x y None)
   | _, _ => ret tt
   end) ;;;
  (match buildingOf tile, existingBuildingMesh with
   | Some b, Some existing =>
       when (Building.isMeshOutOfDate b) (
         rootRemove existing ;;;
         mesh <- createBuildingMesh tile ;;
         writeSlot x y mesh ;;;
         added <- readSlot x y ;;
         rootAdd added ;;;
         let b' := Building.setIsMeshOutOfDate false b in
         modify (fun w => set_city (City.alterTile (Tile.setBuilding (Some b')) x y (city w)) w) ;;;
         when (isRoadType (Building.type b)) (call (UpdateTile x y (Some b'))))
   | _, _ => ret tt
   end).

(** The state after the terrain write of [applyTile] at [(x, y)], where
    [t] is the terrain mesh of the tile and [tv] the object behind it. *)
Definition terrainWritten (x y : nat) (t : obj_id) (tv : Object3D.t) (w : World) : World :=
  set_objs (<[t := Object3D.setVisible (terrainVisibleFor (tileAt w x y)) tv]> (objs w)) w.

(** The state after the branch for a removed building: instance [m] of
    column [col] detached, the slot cleared, the vehicle graph told. *)
Definition removed (x y : nat) (col : list (option obj_id)) (m : obj_id) (w : World) : World :=
  set_calls (calls w ++ [RootRemove m; UpdateTile x y None])
    (set_buildings (<[x := <[y := None]> col]> (buildings w))
       (set_root (removeFirst m (root w)) w)).

(** The state after the branch for a stale building of a recognised
    kind: instance [m] replaced by the new object [v] with materials
    [new]. *)
Definition rebuilt (x y : nat) (col : list (option obj_id)) (m : obj_id) (b : Building.t)
    (v : Object3D.t) (new : list Material.t) (w : World) : World :=
  let m' := length (objs w) in
  let b' := Building.setIsMeshOutOfDate false b in
  set_calls
    (calls w ++ [RootRemove m; RootAdd m']
       ++ (if isRoadType (Building.type b) then [UpdateTile x y (Some b')] else []))
    (set_city (City.alterTile (Tile.setBuilding (Some b')) x y (city w))
       (set_root (removeFirst m' (removeFirst m (root w)) ++ [m'])
          (set_buildings (<[x := <[y := Some m']> col]> (buildings w))
             (set_mats (mats w ++ new) (set_objs (objs w ++ [v]) w))))).

(** The state after the branch for a stale building of an unrecognised
    kind: instance [m] detached, nothing put in its place. *)
Definition dropped (x y : nat) (col : list (option obj_id)) (m : obj_id) (b : Building.t)
    (w : World) : World :=
  let b' := Building.setIsMeshOutOfDate false b in
  set_calls
    (calls w ++ [RootRemove m;
                 ConsoleWarn ("Mesh type " +:+ Building.type b +:+ " is not recognized.");
                 ConsoleError "THREE.Object3D.add: object not an instance of THREE.Object3D."])
    (set_city (City.alterTile (Tile.setBuilding (Some b')) x y (city w))
       (set_buildings (<[x := <[y := None]> col]> (buildings w))
          (set_root (removeFirst m (root w)) w))).

(** Neither conditional of [applyTile] fires for this tile and slot. *)
Definition nothingToDo (b : option Building.t) (s : option obj_id) : Prop :=
  match b, s with
  | None, Some _ => False
  | Some b, Some _ => Building.isMeshOutOfDate b = false
  | _, _ => True
  end.

(** What a returning [applyTile] at [(x, y)] does, case by case. *)
Inductive TileStep (x y : nat) (w : World) : World -> Prop :=
| StepIdle col t tv :
    buildings w !! x = Some col ->
    terrainAt w x y = Some t ->
    objs w !! t = Some tv ->
    nothingToDo (buildingAt w x y) (slotAt w x y) ->
    TileStep x y w (terrainWritten x y t tv w)
| StepRemoved col t tv m :
    buildings w !! x = Some col ->
    terrainAt w x y = Some t ->
    objs w !! t = Some tv ->
    buildingAt w x y = None ->
    slotAt w x y = Some m ->
    TileStep x y w (removed x y col m (terrainWritten x y t tv w))
| StepDropped col t tv m tile b :
    buildings w !! x = Some col ->
    terrainAt w x y = Some t ->
    objs w !! t = Some tv ->
    tileAt w x y = Some tile ->
    Tile.building tile = Some b ->
    Building.isMeshOutOfDate b = true ->
    slotAt w x y = Some m ->
    modelNameOf b = None ->
    TileStep x y w (dropped x y col m b (terrainWritten x y t tv w))
| StepRebuilt col t tv m tile b name tid tpl p' new :
    buildings w !! x = Some col ->
    terrainAt w x y = Some t ->
    objs w !! t = Some tv ->
    tileAt w x y = Some tile ->
    Tile.building tile = Some b ->
    Building.isMeshOutOfDate b = true ->
    slotAt w x y = Some m ->
    modelNameOf b = Some name ->
    meshes w !! name = Some tid ->
    objs (terrainWritten x y t tv w) !! tid = Some tpl ->
    partRefs p' = seq (length (mats w)) (length new) ->
    look (mats w ++ new) p' = instanceLook b (look (mats w) (Object3D.part tpl)) ->
    TileStep x y w
      (rebuilt x y col m b (instanceObject tile b p' (Object3D.visible tpl)) new
         (terrainWritten x y t tv w)).

(** The reads of [applyTile] at [(x, y)] go through, and the template of
    a building that is about to be rebuilt is ready. *)
Definition ready (w : World) (x y : nat) : Prop :=
  is_Some (buildings w !! x) /\
  (exists t, terrainAt w x y = Some t /\ is_Some (objs w !! t)) /\
  (forall b, buildingAt w x y = Some b -> Building.isMeshOutOfDate b = true ->
             is_Some (slotAt w x y) -> modelReady w b).

(** The scene agrees with the city at [(x, y)]: the terrain shows what
    the tile asks for and [applyTile] has nothing to do. *)
Definition settled (w : World) (x y : nat) : Prop :=
  is_Some (buildings w !! x) /\
  (exists t tv, terrainAt w x y = Some t /\ objs w !! t = Some tv /\
                Object3D.visible tv = terrainVisibleFor (tileAt w x y)) /\
  nothingToDo (buildingAt w x y) (slotAt w x y).

(** The coordinates of a city of size [n], in the order of the two loops. *)
Definition coords (n : nat) : list (nat * nat) :=
  flat_map (fun x => map (pair x) (seq 0 n)) (seq 0 n).

(** A returning run of [applyTile] over a list of coordinates. *)
Inductive Steps : list (nat * nat) -> World -> World -> Prop :=
| Steps_nil w : Steps [] w w
| Steps_cons x y l w w1 w2 :
    TileStep x y w w1 -> Steps l w1 w2 -> Steps ((x, y) :: l) w w2.

(** ** Footprints *)

(** [w'] differs from [w] at most in the stores, the root children and
    the calls. *)
Definition gridKept (w w' : World) : Prop :=
  buildings w' = buildings w /\ city w' = city w /\
  meshes w' = meshes w /\ terrain w' = terrain w.

(** A computation that, whatever its outcome, leaves slots, city,
    catalog and terrain array alone. *)
Definition storeOnly {A} (m : M A) : Prop := forall w, gridKept w (final (m w)).

(** [w'] agrees with [w] on the slot and the tile of [(x, y)], on the
    catalog and on which slot columns exist. *)
Definition coordKept (x y : nat) (w w' : World) : Prop :=
  slotAt w' x y = slotAt w x y /\ tileAt w' x y = tileAt w x y /\
  meshes w' = meshes w /\ City.size (city w') = City.size (city w) /\
  length (buildings w') = length (buildings w).

(** A computation that, whatever its outcome, leaves coordinate
    [(x, y)] alone. *)
Definition keeps (x y : nat) {A} (m : M A) : Prop :=
  forall w, coordKept x y w (final (m w)).

(** ** Concrete scenes *)

Module Sample.
(** Nothing loaded, nothing shown, an empty city. *)
Definition blank : World := Eval vm_compute in
  mkWorld [] [] ∅ 0 0 [] [] [] None None (City.mk 0 []) [].

Definition meta (file : string) : Descriptor := mkDescriptor file 0%Z.

(** A single mesh as the loader delivers it. *)
Definition leaf : Object3D.t :=
  Object3D.mk (Node None []) (3, 4, 5)%Z 0%Z true None.

(** A mesh with one nested sub-part. *)
Definition twoParts : Object3D.t :=
  Object3D.mk (Node None [Node None []]) (3, 4, 5)%Z 0%Z true None.

Definition catalog : list (string * Descriptor) :=
  [("grass", meta "grass.glb");
   ("road-straight", meta "road-straight.glb");
   ("residential-A1", meta "building-house-block-big.glb")].

(** All three models delivered. *)
Definition loaded : World := Eval vm_compute in
  final ((newAssetManager catalog ;;;
          deliverAll [Loaded "grass" (meta "grass.glb") leaf;
                      Loaded "road-straight" (meta "road-straight.glb") leaf;
                      Loaded "residential-A1" (meta "building-house-block-big.glb") twoParts])
           blank).

(** One grass instance in the scene, selected by a click. *)
Definition selected : World := Eval vm_compute in
  final ((mesh <- cloneMesh "grass" false ;;
          rootAdd (Some mesh) ;;;
          setActiveObject (Some mesh)) loaded).

(** The template stored for "residential-A1". *)
Definition houseTemplate : Object3D.t :=
  Object3D.mk (Node (Some 2) [Node (Some 3) []]) (0, 0, 0)%Z 0%Z true None.

(** An abandoned residential zone on tile (1, 1). *)
Definition abandonedZone : Building.t :=
  Building.mk "residential" "A" 1%Z 90%Z 1%Z 1%Z false true true false.

Definition abandonedTile : Tile.t := Tile.mk 1%Z 1%Z (Some abandonedZone).

(** A stale road on tile (0, 0). *)
Definition staleRoad : Building.t :=
  Building.mk "road" "straight" 0%Z 90%Z 0%Z 0%Z true true false false.

Definition roadTile : Tile.t := Tile.mk 0%Z 0%Z (Some staleRoad).

(** A 2x2 city: a stale road at (0, 0), nothing at (0, 1) and (1, 0), a
    stale abandoned zone at (1, 1). *)
Definition town : City.t :=
  City.mk 2 [[roadTile; Tile.mk 0%Z 1%Z None]; [Tile.mk 1%Z 0%Z None; abandonedTile]].

(** The scene for [town] before a pass: four terrain meshes (objects 3 to
    6), cached instances for the road (7), for a building that has since
    been removed from (0, 1) (8) and for the zone (9). *)
Definition scene : World := Eval vm_compute in
  final ((modify (set_city town) ;;;
          g00 <- createGroundMesh (Tile.mk 0%Z 0%Z None) ;;
          g01 <- createGroundMesh (Tile.mk 0%Z 1%Z None) ;;
          g10 <- createGroundMesh (Tile.mk 1%Z 0%Z None) ;;
          g11 <- createGroundMesh (Tile.mk 1%Z 1%Z None) ;;
          rootAdd (Some g00) ;;; rootAdd (Some g01) ;;;
          rootAdd (Some g10) ;;; rootAdd (Some g11) ;;;
          modify (set_terrain [[g00; g01]; [g10; g11]]) ;;;
          road <- createRoadMesh roadTile ;;
          rootAdd (Some road) ;;;
          old <- cloneMesh "residential-A1" false ;;
          rootAdd (Some old) ;;;
          zone <- createZoneMesh abandonedTile ;;
          rootAdd (Some zone) ;;;
          modify (set_buildings [[Some road; Some old]; [None; Some zone]]) ;;;
          modify (set_calls [])) loaded).

(** The scene after one pass, with the call record started afresh. *)
Definition synced : World := Eval vm_compute in set_calls [] (final (applyChanges scene)).

(** The synced scene after the building at (1, 1) was removed from the
    city. *)
Definition zoneRemoved : World := Eval vm_compute in
  set_city (City.alterTile (Tile.setBuilding None) 1 1 (city synced)) synced.

(** The synced scene after the road at (0, 0) was flagged stale. *)
Definition roadFlagged : World := Eval vm_compute in
  set_city (City.alterTile (Tile.setBuilding (Some staleRoad)) 0 0 (city synced)) synced.

(** A building of a kind the factory does not know. *)
Definition park : Building.t :=
  Building.mk "park" "A" 0%Z 0%Z 0%Z 0%Z false true false false.

(** The synced scene after the road at (0, 0) was replaced by a park. *)
Definition parkPlaced : World := Eval vm_compute in
  set_city (City.alterTile (Tile.setBuilding (Some park)) 0 0 (city synced)) synced.

(** The sample scene with the road model missing from the catalog. *)
Definition roadModelMissing : World := Eval vm_compute in
  set_meshes (delete "road-straight" (meshes scene)) scene.

(** The loaded catalog with a road on (0, 0) whose slot is still empty. *)
Definition newRoad : World := Eval vm_compute in
  final ((modify (set_city (City.mk 1 [[roadTile]])) ;;;
          g00 <- createGroundMesh (Tile.mk 0%Z 0%Z None) ;;
          rootAdd (Some g00) ;;;
          modify (set_terrain [[g00]]) ;;;
          modify (set_buildings [[None]]) ;;;
          modify (set_calls [])) loaded).
End Sample.

(** ** Measures for the highlight operations *)

(** The reference behind [mesh.material]. *)
Definition materialRef (w : World) (m : obj_id) : option mat_id :=
  objs w !! m ≫= Object3D.material.

(** Material [b] is material [a] up to the colour of its emission. *)
Definition sameButEmission (a b : Material.t) : Prop :=
  Material.color b = Material.color a /\
  Material.transparent b = Material.transparent a /\
  (Material.emissive b = None <-> Material.emissive a = None).

(** [w'] differs from [w] at most in emission colours and in which
    objects are hovered and active. *)
Definition onlyEmission (w w' : World) : Prop :=
  objs w' = objs w /\ root w' = root w /\ buildings w' = buildings w /\
  terrain w' = terrain w /\ city w' = city w /\ meshes w' = meshes w /\
  calls w' = calls w /\ Forall2 sameButEmission (mats w) (mats w').

(** A computation whose final state, whatever the outcome, is related to
    the initial one by [R]. *)
Definition within (R : World -> World -> Prop) {A} (m : M A) : Prop :=
  forall w, R w (final (m w)).

(** ** Measures for the pass *)

(** Building [b'] is building [b] up to the stale flag. *)
Definition sameButStale (b b' : Building.t) : Prop :=
  Building.type b' = Building.type b /\ Building.style b' = Building.style b /\
  Building.level b' = Building.level b /\ Building.rotation b' = Building.rotation b /\
  Building.x b' = Building.x b /\ Building.y b' = Building.y b /\
  Building.hideTerrain b' = Building.hideTerrain b /\
  Building.abandoned b' = Building.abandoned b /\
  Building.developed b' = Building.developed b.

(** [w'] agrees with [w] away from coordinate [(x0, y0)]: the other
    slots, every object that existed except the terrain mesh of the
    coordinate, and every material that existed. *)
Definition othersKept (x0 y0 : nat) (w w' : World) : Prop :=
  (forall x y, (x, y) <> (x0, y0) -> slotAt w' x y = slotAt w x y) /\
  (forall o v, objs w !! o = Some v -> terrainAt w x0 y0 <> Some o ->
               objs w' !! o = Some v) /\
  (exists extra, mats w' = mats w ++ extra).

(** Every instance held in a slot is an allocated object. *)
Definition slotsAllocated (w : World) : Prop :=
  forall x y s, slotAt w x y = Some s -> s < length (objs w).

(** No instance is held in two slots. *)
Definition slotsDistinct (w : World) : Prop :=
  forall x y x' y' m,
    slotAt w x y = Some m -> slotAt w x' y' = Some m -> (x, y) = (x', y').

(** Every instance held in a slot is a child of the root. *)
Definition slotsShown (w : World) : Prop :=
  forall x y m, slotAt w x y = Some m -> m ∈ root w.

(** ** The success callback as the loader runs it *)

(** What [glb.scene.children[0].children[0]] evaluates to for a delivered
    file: the scene has no child, the child has no child, or the mesh. *)
Inductive Found :=
| NoChild
| NoMesh
| Mesh (glb : Object3D.t).

(** The success callback of [loadModel] for the callback [onLoad] given
    to the constructor.  A file without the expected children makes the
    first line throw before anything is stored: reading [children] of
    undefined when the scene is empty, calling [traverse] on undefined
    when its child is.  [onModelLoaded] is this callback for a mesh that
    was found, with the run of [onLoad] kept as the record [Ready]. *)
Definition onGlbLoaded (onLoad : M unit) (name : string) (meta : Descriptor)
    (found : Found) : M unit :=
  match found with
  | NoChild => throw (TypeError "Cannot read properties of undefined (reading 'children')")
  | NoMesh => throw (TypeError "Cannot read properties of undefined (reading 'traverse')")
  | Mesh glb =>
      mesh <- alloc glb ;;
      traverseObj assignLambert mesh ;;;
      updateObj mesh (Object3D.setPosition (0, 0, 0)%Z) ;;;
      updateObj mesh (Object3D.setRotation (rotationDegrees meta)) ;;;
      modify (fun w => set_meshes (<[name := mesh]> (meshes w)) w) ;;;
      modify (fun w => set_loadedModelCount (S (loadedModelCount w)) w) ;;;
      done <- gets (fun w => loadedModelCount w =? modelCount w) ;;
      when done onLoad
  end.

(** The callbacks the loader runs for an event, a [Loaded] event
    carrying the mesh found in its file. *)
Definition deliverTo (onLoad : M unit) (e : LoaderEvent) : M unit :=
  match e with
  | Loaded name meta glb => onGlbLoaded onLoad name meta (Mesh glb)
  | Progress _ => ret tt
  | Failed _ error => onModelError error
  end.

(** Every node of a sub-part tree carries a material, as the nodes of a
    delivered object do when all of them are meshes. *)
Fixpoint allMeshes (p : Part) : bool :=
  match p with
  | Node (Some _) ks => forallb allMeshes ks
  | Node None _ => false
  end.

(** ** Measures for the loader *)

(** Every catalog entry refers to an allocated object. *)
Definition catalogOk (w : World) : Prop :=
  forall name tid, meshes w !! name = Some tid -> tid < length (objs w).

(** The look of a sub-part tree all of whose parts carry a material that
    looks like [mat]. *)
Fixpoint uniformLook (mat : Material.t) (p : Part) : Look :=
  match p with
  | Node _ ks => LookNode (Some mat) (map (uniformLook mat) ks)
  end.

(** The names of the models a list of events delivers. *)
Definition loadedNames (es : list LoaderEvent) : list string :=
  flat_map (fun e => match e with Loaded name _ _ => [name] | _ => [] end) es.

(** ** The vehicle factory *)

(** [Object.entries(models).filter(x => x[1].type === "vehicle").map(x => x[0])]
    over the catalog given as names with the [type] of their entry,
    where it has one. *)
Definition vehicleTypes (models : list (string * option string)) : list string :=
  map fst (List.filter (fun x => bool_decide (snd x = Some "vehicle")) models).

(** [createRandomVehicleMesh()], given the index [i] that
    [Math.floor(types.length * Math.random())] draws.  An index past the
    end reads undefined, which as a property key is the string
    "undefined". *)
Definition createRandomVehicleMesh (models : list (string * option string)) (i : nat)
  : M obj_id :=
  let types := vehicleTypes models in
  cloneMesh (default "undefined" (types !! i)) true.

(** ** Building the scene *)

(** [#setupLights()]: a directional light at (10, 20, 20) and an ambient
    light, both added to the root.  Lights carry no material; their
    colour, intensity and shadow settings are not recorded. *)
Definition setupLights : M unit :=
  sun <- alloc (Object3D.mk (Node None []) (10, 20, 20)%Z 0%Z true None) ;;
  rootAdd (Some sun) ;;;
  ambient <- alloc (Object3D.mk (Node None []) (0, 0, 0)%Z 0%Z true None) ;;
  rootAdd (Some ambient).

(** The inner loop of [#initialize] for column [x], filling the local
    array [column]; a coordinate without tile is skipped. *)
Fixpoint groundColumn (x : nat) (ys : list nat) (column : list obj_id)
  : M (list obj_id) :=
  match ys with
  | [] => ret column
  | y :: ys' =>
      tile <- gets (fun w => City.getTile (city w) x y) ;;
      match tile with
      | None => groundColumn x ys' column
      | Some tile =>
          mesh <- createGroundMesh tile ;;
          rootAdd (Some mesh) ;;;
          groundColumn x ys' (column ++ [mesh])
      end
  end.

(** Modelled from the spec: [new VehicleGraph(size, assetManager)], a
    class that is not part of the source file.  The spec has the vehicle
    graph as a subgraph of the scene; the group the constructor makes is
    given by the value [graph]. *)
Definition newVehicleGraph (graph : Object3D.t) : M obj_id := alloc graph.

(** [#initialize(city)], for the city held in the state.  The scene
    above the root, which [scene.clear()], [scene.add(this.root)] and
    [#setupGrid] work on, is not part of the state: the grid overlay is a
    child of the scene, not of the root. *)
Definition initialize (graph : Object3D.t) : M unit :=
  vehicleGraph <- newVehicleGraph graph ;;
  rootAdd (Some vehicleGraph) ;;;
  modify (set_buildings []) ;;;
  modify (set_terrain []) ;;;
  size <- gets (fun w => City.size (city w)) ;;
  forEach (seq 0 size) (fun x =>
    column <- groundColumn x (seq 0 size) [] ;;
    modify (fun w => set_buildings (buildings w ++ [replicate size None]) w) ;;;
    modify (fun w => set_terrain (terrain w ++ [column]) w)) ;;;
  setupLights.

(** The callback [SceneManager] hands to its asset manager:
    [() => { console.log("assets loaded"); this.#initialize(city); onLoad(); }],
    where [onLoad] is the callback of the caller. *)
Definition sceneOnLoad (graph : Object3D.t) (onLoad : M unit) : M unit :=
  call (ConsoleLog "assets loaded") ;;;
  initialize graph ;;;
  onLoad.

(** [w'] extends [w]: the objects and materials of [w] are still there,
    followed by new ones; catalog, city and selection are the same and
    no child of the root was removed. *)
Definition extends (w w' : World) : Prop :=
  (exists more, objs w' = objs w ++ more) /\
  (exists new, mats w' = mats w ++ new) /\
  meshes w' = meshes w /\ city w' = city w /\
  hoverObject w' = hoverObject w /\ activeObject w' = activeObject w /\
  (forall o, o ∈ root w -> o ∈ root w').

(** Every coordinate of the city holds a tile. *)
Definition complete (c : City.t) : Prop :=
  forall x y, x < City.size c -> y < City.size c -> is_Some (City.getTile c x y).

(** ** Further concrete scenes *)

Module Demo.
(** The synced sample scene with the road instance on (0, 0) hovered. *)
Definition hovered : World := Eval vm_compute in
  final (setHighlightedMesh (Some 10) Sample.synced).

(** The same scene after a click on the hovered instance. *)
Definition picked : World := Eval vm_compute in
  final (setActiveObject (Some 10) hovered).


(** The sample catalog with one more entry, tagged as a vehicle. *)
Definition tagged : list (string * option string) :=
  [("grass", None); ("road-straight", Some "road");
   ("residential-A1", Some "zone"); ("car-taxi", Some "vehicle")].

(** The sample catalog loaded, and the vehicle model with it. *)
Definition garage : World := Eval vm_compute in
  final (onModelLoaded "car-taxi" (Sample.meta "car-taxi.glb") Sample.twoParts Sample.loaded).

(** An empty group, as the vehicle graph is before any vehicle exists. *)
Definition graph : Object3D.t := Object3D.mk (Node None []) (0, 0, 0)%Z 0%Z true None.

(** The sample catalog loaded and the sample city handed over, before
    the scene is built. *)
Definition unbuilt : World := Eval vm_compute in set_city Sample.town Sample.loaded.

(** A catalog of five models, three of them loaded. *)
Definition loading : World := Eval vm_compute in set_modelCount 5 Sample.loaded.

(** A mesh with one sub-mesh, both carrying the material of their file. *)
Definition car : Object3D.t :=
  Object3D.mk (Node (Some 0) [Node (Some 0) []]) (3, 4, 5)%Z 0%Z true None.

(** The sample catalog requested for the sample city, nothing delivered
    yet. *)
Definition requested : World := Eval vm_compute in
  final (newAssetManager Sample.catalog (set_city Sample.town Sample.blank)).

(** Two of the three models delivered. *)
Definition early : list LoaderEvent :=
  [Loaded "road-straight" (Sample.meta "road-straight.glb") Sample.leaf;
   Progress "grass";
   Loaded "grass" (Sample.meta "grass.glb") Sample.leaf].

(** A progress report, a failure and one more model. *)
Definition late : list LoaderEvent :=
  [Progress "car-taxi";
   Failed "tree" "404";
   Loaded "car-taxi" (Sample.meta "car-taxi.glb") car].
End Demo.

(** * Properties *)

#[local] Arguments Nat.eqb : simpl never.
#[local] Arguments Nat.ltb : simpl never.
#[local] Arguments Nat.leb : simpl never.

(** Case analysis on every comparison of naturals in sight. *)
Ltac nat_cases :=
  repeat match goal with
    | |- context [?a =? ?b] => destruct (Nat.eqb_spec a b)
    | |- context [?a <? ?b] => destruct (Nat.ltb_spec a b)
    | |- context [?a <=? ?b] => destruct (Nat.leb_spec a b)
    | H : context [?a =? ?b] |- _ => destruct (Nat.eqb_spec a b)
    | H : context [?a <? ?b] |- _ => destruct (Nat.ltb_spec a b)
    | H : context [?a <=? ?b] |- _ => destruct (Nat.leb_spec a b)
    end.

(** ** Running monadic code *)

Lemma bind_Ret {A B} (m : M A) (k : A -> M B) w a w' :
  m w = Ret a w' -> bind m k w = k a w'.
Proof. intros H. unfold bind. now rewrite H. Qed.

Lemma bind_Throw {A B} (m : M A) (k : A -> M B) w e w' :
  m w = Throw e w' -> bind m k w = Throw e w'.
Proof. intros H. unfold bind. now rewrite H. Qed.

Lemma bind_Ret_inv {A B} (m : M A) (k : A -> M B) w b w2 :
  bind m k w = Ret b w2 -> exists a w1, m w = Ret a w1 /\ k a w1 = Ret b w2.
Proof.
  unfold bind. destruct (m w) as [a w1|e w1]; intros H; [eauto | discriminate].
Qed.

Lemma forEach_app {A} (l1 l2 : list A) (body : A -> M unit) w :
  forEach (l1 ++ l2) body w = (forEach l1 body ;;; forEach l2 body) w.
Proof.
  revert w. induction l1 as [|a l1 IH]; intros w; simpl.
  - reflexivity.
  - unfold bind. destruct (body a w) as [[] w1|e w1]; [|reflexivity].
    rewrite IH. reflexivity.
Qed.

Lemma updateMat_run r f w mat :
  mats w !! r = Some mat ->
  updateMat r f w = Ret tt (set_mats (<[r := f mat]> (mats w)) w).
Proof. intros H. unfold updateMat, bind, getMat. now rewrite H. Qed.

Lemma setMeshEmission_run h c w o r mat :
  objs w !! h = Some o -> Object3D.material o = Some r -> mats w !! r = Some mat ->
  setMeshEmission (Some h) c w
  = Ret tt (set_mats (<[r := Material.setEmissiveHex c mat]> (mats w)) w).
Proof.
  intros Ho Hr Hm. unfold setMeshEmission, bind, getObj. rewrite Ho, Hr.
  now apply updateMat_run.
Qed.

Lemma materialOf_Some w m mat :
  materialOf w m = Some mat ->
  exists o r, objs w !! m = Some o /\ Object3D.material o = Some r /\ mats w !! r = Some mat.
Proof.
  unfold materialOf. destruct (objs w !! m) as [o|]; [|discriminate].
  destruct (Object3D.material o) as [r|] eqn:Er; [|discriminate].
  intros Hm. exists o, r. auto.
Qed.

Lemma emissiveOf_Some w m c :
  emissiveOf w m = Some c ->
  exists o r mat, objs w !! m = Some o /\ Object3D.material o = Some r
                  /\ mats w !! r = Some mat /\ Material.emissive mat = Some c.
Proof.
  unfold emissiveOf. destruct (materialOf w m) as [mat|] eqn:E; [|discriminate].
  intros H. apply materialOf_Some in E as (o & r & ? & ? & ?). eauto 8.
Qed.

(** ** Highlighting *)

Lemma emissiveOf_setEmissiveHex w m o r mat c c0 :
  objs w !! m = Some o -> Object3D.material o = Some r ->
  mats w !! r = Some mat -> Material.emissive mat = Some c0 ->
  emissiveOf (set_mats (<[r := Material.setEmissiveHex c mat]> (mats w)) w) m = Some c.
Proof.
  intros Ho Hr Hm He. unfold emissiveOf, materialOf. simpl. rewrite Ho, Hr.
  rewrite list_lookup_insert_eq by (eapply lookup_lt_Some; eauto).
  simpl. now rewrite He.
Qed.

(** C1 (the code departs from the claim).  In every selection state whose
    active instance [m] has an emissive material, [setHighlightedMesh(m)]
    returns and leaves [m] showing the hover colour 0x555555 instead of
    the active colour 0xaaaa55; the following [setHighlightedMesh(null)]
    returns and leaves that colour as it is. *)
Theorem setHighlightedMesh_overwrites_active w m c :
  activeObject w = Some m ->
  emissiveOf w m = Some c ->
  (forall h, hoverObject w = Some h -> is_Some (materialOf w h)) ->
  exists w1 w2,
    setHighlightedMesh (Some m) w = Ret tt w1 /\
    emissiveOf w1 m = Some 0x555555%Z /\
    setHighlightedMesh None w1 = Ret tt w2 /\
    emissiveOf w2 m = Some 0x555555%Z.
Proof.
  intros Hact Hem Hhov.
  apply emissiveOf_Some in Hem as (o & r & mat & Ho & Hr & Hm & He).
  (* the state after the reset of the previous hover *)
  assert (exists wa mata ca,
            when (bool_decide (hoverObject w <> None)
                  && bool_decide (hoverObject w <> activeObject w))
                 (setMeshEmission (hoverObject w) 0%Z) w = Ret tt wa
            /\ objs wa = objs w /\ activeObject wa = activeObject w
            /\ mats wa !! r = Some mata /\ Material.emissive mata = Some ca)
    as (wa & mata & ca & Hwa & Hobjs & Hacta & Hma & Hea).
  { destruct (hoverObject w) as [h|] eqn:Eh.
    2:{ exists w, mat, c. rewrite bool_decide_eq_false_2 by tauto. unfold when, ret. auto. }
    rewrite (bool_decide_eq_true_2 (Some h <> None)) by discriminate.
    rewrite andb_true_l.
    destruct (bool_decide (Some h <> activeObject w)); unfold when.
    2:{ exists w, mat, c. unfold ret. auto. }
    destruct (Hhov h eq_refl) as [math Hh].
    apply materialOf_Some in Hh as (oh & rh & Hoh & Hrh & Hmh).
    rewrite (setMeshEmission_run _ _ _ _ _ _ Hoh Hrh Hmh).
    destruct (decide (rh = r)) as [->|Hne].
    - eexists _, _, 0%Z. split; [reflexivity|]. simpl. repeat split; auto.
      + rewrite list_lookup_insert_eq by (eapply lookup_lt_Some; eauto). reflexivity.
      + simpl. rewrite Hm in Hmh. injection Hmh as <-. now rewrite He.
    - eexists _, mat, c. split; [reflexivity|]. simpl. repeat split; auto.
      rewrite list_lookup_insert_ne by auto. exact Hm. }
  set (wb := set_hoverObject (Some m) wa).
  set (w1 := set_mats (<[r := Material.setEmissiveHex 0x555555%Z mata]> (mats wb)) wb).
  assert (H1 : setHighlightedMesh (Some m) w = Ret tt w1).
  { unfold setHighlightedMesh, bind, gets, modify. simpl. rewrite Hwa. simpl.
    fold wb. apply setMeshEmission_run with (o := o); simpl; [congruence | auto | auto]. }
  assert (E1 : emissiveOf w1 m = Some 0x555555%Z).
  { unfold w1. eapply emissiveOf_setEmissiveHex; simpl; eauto. congruence. }
  exists w1, (set_hoverObject None w1). repeat split; auto.
  unfold setHighlightedMesh, bind, gets, modify. simpl.
  rewrite Hacta, Hact. rewrite (bool_decide_eq_false_2 (Some m <> Some m)) by tauto.
  reflexivity.
Qed.

(** The theorem above at the scene with one selected grass instance. *)
Lemma setHighlightedMesh_overwrites_active_witness :
  emissiveOf Sample.selected 3 = Some 0xaaaa55%Z /\
  exists w1 w2,
    setHighlightedMesh (Some 3) Sample.selected = Ret tt w1 /\
    emissiveOf w1 3 = Some 0x555555%Z /\
    setHighlightedMesh None w1 = Ret tt w2 /\
    emissiveOf w2 3 = Some 0x555555%Z.
Proof.
  split; [reflexivity|].
  apply (setHighlightedMesh_overwrites_active Sample.selected 3 0xaaaa55%Z).
  - reflexivity.
  - reflexivity.
  - intros h H. vm_compute in H. discriminate H.
Defined.

(** ** Zone meshes and the [developed] flag *)

(** C10.  Two tiles at the same coordinates whose zone buildings differ
    only in [developed] give the same outcome of [createZoneMesh] from
    the same state: the same returned instance and the same store, hence
    the same model, position, rotation and tint. *)
Theorem createZoneMesh_ignores_developed tx ty zone d w :
  createZoneMesh (Tile.mk tx ty (Some (Building.setDeveloped d zone))) w
  = createZoneMesh (Tile.mk tx ty (Some zone)) w.
Proof.
  unfold createZoneMesh. simpl. unfold bind at 1 7.
  destruct d, (Building.developed zone); reflexivity.
Qed.

(** ** Store primitives *)

Lemma lookup_snoc {A} (l : list A) (x : A) : (l ++ [x]) !! length l = Some x.
Proof. apply list_lookup_middle. reflexivity. Qed.

Lemma insert_snoc {A} (l : list A) (x y : A) : <[length l := y]> (l ++ [x]) = l ++ [y].
Proof.
  rewrite insert_app_r_alt by lia. now rewrite Nat.sub_diag.
Qed.

Lemma getObj_run o w v : objs w !! o = Some v -> getObj o w = Ret v w.
Proof. intros H. unfold getObj. now rewrite H. Qed.

Lemma updateObj_run o f w v :
  objs w !! o = Some v ->
  updateObj o f w = Ret tt (set_objs (<[o := f v]> (objs w)) w).
Proof. intros H. unfold updateObj, bind, getObj. now rewrite H. Qed.

Lemma traverseObj_run f o w v p' ms' :
  objs w !! o = Some v ->
  traverse f (Object3D.part v) (mats w) = Some (p', ms') ->
  traverseObj f o w
  = Ret tt (set_mats ms' (set_objs (<[o := Object3D.setPart p' v]> (objs w)) w)).
Proof.
  intros Ho Ht. unfold traverseObj, bind, getObj, gets. rewrite Ho, Ht. reflexivity.
Qed.

Lemma traverse_Node f m ks ms :
  traverse f (Node m ks) ms
  = match f m ms with
    | None => None
    | Some (m', ms1) =>
        match traverseEach f ks ms1 with
        | None => None
        | Some (ks', ms2) => Some (Node m' ks', ms2)
        end
    end.
Proof.
  simpl. destruct (f m ms) as [[m' ms1]|]; [|reflexivity].
  match goal with |- match ?a with _ => _ end = match ?b with _ => _ end =>
    replace a with b; [reflexivity|] end.
  generalize ms1. induction ks as [|k ks IH]; intros ms0; simpl; [reflexivity|].
  destruct (traverse f k ms0) as [[k' ms2]|]; [|reflexivity]. now rewrite IH.
Qed.

(** ** The ready barrier *)

Lemma traverse_assignLambert_total p :
  forall ms, exists p' new, traverse assignLambert p ms = Some (p', ms ++ new).
Proof.
  induction p as [m ks IH] using Part_ind. intros ms.
  rewrite traverse_Node. unfold assignLambert at 1.
  assert (Hks : forall ms0, exists ks' new,
                 traverseEach assignLambert ks ms0 = Some (ks', ms0 ++ new)).
  { induction IH as [|k ks Hk _ IHks]; intros ms0; simpl.
    - exists [], []. now rewrite app_nil_r.
    - destruct (Hk ms0) as (k' & n1 & ->).
      destruct (IHks (ms0 ++ n1)) as (ks' & n2 & ->).
      exists (k' :: ks'), (n1 ++ n2). now rewrite app_assoc. }
  destruct (Hks (ms ++ [Material.lambert])) as (ks' & new & ->).
  exists (Node (Some (length ms)) ks'), (Material.lambert :: new).
  now rewrite <- app_assoc.
Qed.

Lemma onModelLoaded_run name meta glb w :
  exists p' new,
    traverse assignLambert (Object3D.part glb) (mats w) = Some (p', mats w ++ new) /\
    onModelLoaded name meta glb w
    = Ret tt
        (mkWorld
           (objs w ++ [Object3D.setRotation (rotationDegrees meta)
                         (Object3D.setPosition (0, 0, 0)%Z (Object3D.setPart p' glb))])
           (mats w ++ new)
           (<[name := length (objs w)]> (meshes w))
           (modelCount w) (S (loadedModelCount w)) (root w) (buildings w) (terrain w)
           (hoverObject w) (activeObject w) (city w)
           (calls w ++ if S (loadedModelCount w) =? modelCount w then [Ready] else [])).
Proof.
  destruct (traverse_assignLambert_total (Object3D.part glb) (mats w)) as (p' & new & Ht).
  exists p', new. split; [exact Ht|].
  unfold onModelLoaded. unfold bind at 1. unfold alloc.
  erewrite bind_Ret.
  2:{ apply traverseObj_run with (v := glb); simpl; [apply lookup_snoc | exact Ht]. }
  simpl. rewrite insert_snoc.
  erewrite bind_Ret by (apply updateObj_run; simpl; apply lookup_snoc).
  simpl. rewrite insert_snoc.
  erewrite bind_Ret by (apply updateObj_run; simpl; apply lookup_snoc).
  simpl. rewrite insert_snoc.
  unfold bind, modify, gets, when, call, modify, ret; simpl.
  destruct (S (loadedModelCount w) =? modelCount w); simpl;
    [reflexivity | now rewrite app_nil_r].
Qed.

Lemma readyCount_app cs1 cs2 : readyCount (cs1 ++ cs2) = readyCount cs1 + readyCount cs2.
Proof.
  induction cs1 as [|c cs1 IH]; simpl; [reflexivity|].
  destruct c; simpl; rewrite IH; reflexivity.
Qed.

Lemma deliverAll_run es :
  forall w, exists w' new,
    deliverAll es w = Ret tt w' /\
    modelCount w' = modelCount w /\
    loadedModelCount w' = loadedModelCount w + successes es /\
    calls w' = calls w ++ new /\
    readyCount new
    = if (loadedModelCount w <? modelCount w)
         && (modelCount w <=? loadedModelCount w + successes es)
      then 1 else 0.
Proof.
  unfold deliverAll.
  induction es as [|e es IH]; intros w.
  - exists w, []. simpl. rewrite app_nil_r, Nat.add_0_r.
    repeat split; auto.
    nat_cases; simpl; auto; lia.
  - destruct e as [name meta glb | name | name err]; simpl.
    + destruct (onModelLoaded_run name meta glb w) as (p' & nm & _ & Hrun).
      erewrite bind_Ret by exact Hrun.
      match goal with |- context [forEach es deliver ?w1] =>
        destruct (IH w1) as (w' & new & Hd & Hmc & Hlc & Hcalls & Hready) end.
      simpl in *. eexists w', _. split; [exact Hd|].
      split; [exact Hmc|]. split; [lia|].
      split; [rewrite Hcalls, <- app_assoc; reflexivity|].
      rewrite readyCount_app, Hready.
      nat_cases; simpl; lia.
    + destruct (IH w) as (w' & new & Hd & Hmc & Hlc & Hcalls & Hready).
      exists w', new. unfold bind, ret. auto.
    + unfold onModelError, call, bind, modify.
      match goal with |- context [forEach es deliver ?w1] =>
        destruct (IH w1) as (w' & new & Hd & Hmc & Hlc & Hcalls & Hready) end.
      simpl in *. eexists w', _. split; [exact Hd|].
      split; [exact Hmc|]. split; [exact Hlc|].
      split; [rewrite Hcalls, <- app_assoc; reflexivity|].
      simpl. exact Hready.
Qed.

Lemma newAssetManager_run models w :
  exists w' new,
    newAssetManager models w = Ret tt w' /\
    modelCount w' = length models /\ loadedModelCount w' = 0 /\
    calls w' = calls w ++ new /\ readyCount new = 0.
Proof.
  unfold newAssetManager, bind, modify. simpl.
  set (w1 := set_loadedModelCount 0 _).
  assert (H : forall l w2, exists w' new,
             forEach l (fun entry => loadModel (fst entry) (snd entry)) w2 = Ret tt w'
             /\ modelCount w' = modelCount w2 /\ loadedModelCount w' = loadedModelCount w2
             /\ calls w' = calls w2 ++ new /\ readyCount new = 0).
  { induction l as [|[n d] l IH]; intros w2; simpl.
    - exists w2, []. rewrite app_nil_r. auto.
    - unfold loadModel, call, bind, modify. simpl.
      match goal with |- context [forEach l _ ?w3] =>
        destruct (IH w3) as (w' & new & Hd & Hmc & Hlc & Hcalls & Hready) end.
      simpl in *. eexists w', _. split; [exact Hd|].
      split; [exact Hmc|]. split; [exact Hlc|].
      split; [rewrite Hcalls, <- app_assoc; reflexivity | exact Hready]. }
  destruct (H models w1) as (w' & new & Hd & Hmc & Hlc & Hcalls & Hready).
  exists w', new. auto.
Qed.

(** C2, as the code has it.  For a catalog of [N >= 1] models and any
    sequence of delivered loader events, construction and delivery return;
    the completion counter equals the number of successful loads (failures
    and progress events do not count); the ready callback has fired once
    if that number has reached [N] and not at all before; and when a load
    failed, each request completing at most once, it has not fired. *)
Theorem ready_fires_once_at_N models es w0 :
  0 < length models ->
  exists w new,
    (newAssetManager models ;;; deliverAll es) w0 = Ret tt w /\
    calls w = calls w0 ++ new /\
    modelCount w = length models /\
    loadedModelCount w = successes es /\
    readyCount new = (if length models <=? successes es then 1 else 0) /\
    (0 < failures es -> successes es + failures es <= length models ->
     readyCount new = 0).
Proof.
  intros HN.
  destruct (newAssetManager_run models w0) as (w1 & n1 & H1 & Hmc1 & Hlc1 & Hc1 & Hr1).
  destruct (deliverAll_run es w1) as (w & n2 & H2 & Hmc & Hlc & Hc & Hr).
  exists w, (n1 ++ n2).
  assert (Hcount : readyCount (n1 ++ n2) = if length models <=? successes es then 1 else 0).
  { rewrite readyCount_app, Hr1, Hr, Hlc1, Hmc1. simpl.
    destruct (Nat.ltb_spec 0 (length models)); [reflexivity | lia]. }
  split; [erewrite bind_Ret by exact H1; exact H2|].
  split; [rewrite Hc, Hc1, app_assoc; reflexivity|].
  split; [congruence|]. split; [lia|]. split; [exact Hcount|].
  intros Hf Hle. rewrite Hcount.
  destruct (Nat.leb_spec (length models) (successes es)); [lia | reflexivity].
Qed.

(** The theorem above at the sample catalog with all three loads
    delivered. *)
Lemma ready_fires_once_at_N_witness :
  0 < length Sample.catalog /\
  exists w new,
    (newAssetManager Sample.catalog ;;;
     deliverAll [Loaded "grass" (Sample.meta "grass.glb") Sample.leaf;
                 Failed "road-straight" "404";
                 Loaded "residential-A1" (Sample.meta "r.glb") Sample.twoParts])
      Sample.blank = Ret tt w /\
    calls w = calls Sample.blank ++ new /\
    modelCount w = 3 /\
    loadedModelCount w = 2 /\
    readyCount new = 0 /\
    (0 < 1 -> 2 + 1 <= 3 -> readyCount new = 0).
Proof.
  split; [simpl; lia|].
  apply (ready_fires_once_at_N Sample.catalog
           [Loaded "grass" (Sample.meta "grass.glb") Sample.leaf;
            Failed "road-straight" "404";
            Loaded "residential-A1" (Sample.meta "r.glb") Sample.twoParts]
           Sample.blank).
  simpl; lia.
Defined.

(** C2 as stated fails for the empty catalog: all of its 0 loads have
    completed, and the ready callback has not fired. *)
Lemma ready_never_fires_for_empty_catalog :
  let w := final ((newAssetManager [] ;;; deliverAll []) Sample.blank) in
  modelCount w = 0 /\ loadedModelCount w = modelCount w /\ readyCount (calls w) = 0.
Proof. vm_compute. auto. Qed.

(** ** Cloning materials *)

Lemma look_app ms extra p :
  Forall (fun r => r < length ms) (partRefs p) ->
  look (ms ++ extra) p = look ms p.
Proof.
  induction p as [m ks IH] using Part_ind. simpl. intros H.
  apply Forall_app in H as [Hm Hks]. f_equal.
  - destruct m as [r|]; [|reflexivity]. simpl in Hm.
    apply Forall_cons in Hm as [Hr _]. now apply lookup_app_l.
  - induction IH as [|k ks Hk _ IHks]; simpl in *; [reflexivity|].
    apply Forall_app in Hks as [H1 H2]. f_equal; auto.
Qed.

Lemma look_insert ms r mat p :
  r ∉ partRefs p -> look (<[r := mat]> ms) p = look ms p.
Proof.
  induction p as [m ks IH] using Part_ind. simpl. intros H.
  rewrite not_elem_of_app in H. destruct H as [Hm Hks]. f_equal.
  - destruct m as [r0|]; [|reflexivity]. simpl in Hm.
    apply list_lookup_insert_ne. intros ->. apply Hm. left.
  - induction IH as [|k ks Hk _ IHks]; simpl in *; [reflexivity|].
    rewrite not_elem_of_app in Hks. destruct Hks. f_equal; auto.
Qed.

Lemma Forall_lt_seq a n : Forall (fun r => r < a + n) (seq a n).
Proof. apply Forall_forall. intros r Hr. apply elem_of_seq in Hr. lia. Qed.

Lemma Forall_lt_weaken (l : list nat) a b :
  a <= b -> Forall (fun r => r < a) l -> Forall (fun r => r < b) l.
Proof.
  intros Hab H. eapply Forall_impl; [exact H|]. intros r Hr. simpl in *. lia.
Qed.

(** The children loop of the material-cloning traversal, given the
    statement for each child. *)
Lemma traverseEach_cloneMaterial t ks :
  Forall (fun k => forall ms,
            Forall (fun r => r < length ms) (partRefs k) ->
            exists k' new,
              traverse (cloneMaterial t) k ms = Some (k', ms ++ new) /\
              partRefs k' = seq (length ms) (length new) /\
              look (ms ++ new) k' = mapLook (Material.setTransparent t) (look ms k)) ks ->
  forall ms,
    Forall (fun r => r < length ms) (flat_map partRefs ks) ->
    exists ks' new,
      traverseEach (cloneMaterial t) ks ms = Some (ks', ms ++ new) /\
      flat_map partRefs ks' = seq (length ms) (length new) /\
      map (look (ms ++ new)) ks'
      = map (fun k => mapLook (Material.setTransparent t) (look ms k)) ks.
Proof.
  induction 1 as [|k ks Hk _ IHks]; intros ms Hrefs; simpl in *.
  - exists [], []. rewrite app_nil_r. auto.
  - apply Forall_app in Hrefs as [Hrk Hrks].
    destruct (Hk ms Hrk) as (k' & n1 & -> & Hk'refs & Hk'look).
    destruct (IHks (ms ++ n1)) as (ks' & n2 & -> & Hks'refs & Hks'look).
    { eapply Forall_lt_weaken; [|exact Hrks]. rewrite length_app. lia. }
    exists (k' :: ks'), (n1 ++ n2). rewrite app_assoc. split; [reflexivity|].
    split.
    + simpl. rewrite Hk'refs, Hks'refs, !length_app. symmetry. apply seq_app.
    + simpl. f_equal.
      * rewrite <- Hk'look. apply look_app. rewrite Hk'refs, length_app.
        apply Forall_lt_seq.
      * rewrite Hks'look. apply map_ext_in. intros k0 Hin. f_equal.
        apply look_app. rewrite Forall_forall in Hrks. apply Forall_forall.
        intros r Hr. apply Hrks. apply list_elem_of_In, in_flat_map.
        exists k0. split; [exact Hin | now apply list_elem_of_In].
Qed.

(** [traverse] with the callback of [cloneMesh]: every material is
    replaced by a newly allocated copy carrying the transparency flag. *)
Lemma traverse_cloneMaterial t p :
  forall ms,
    Forall (fun r => r < length ms) (partRefs p) ->
    exists p' new,
      traverse (cloneMaterial t) p ms = Some (p', ms ++ new) /\
      partRefs p' = seq (length ms) (length new) /\
      look (ms ++ new) p' = mapLook (Material.setTransparent t) (look ms p).
Proof.
  induction p as [m ks IH] using Part_ind. intros ms Hrefs.
  rewrite traverse_Node. simpl in Hrefs. apply Forall_app in Hrefs as [Hm Hks].
  pose proof (traverseEach_cloneMaterial t ks IH) as Each.
  destruct m as [r|]; simpl.
  - apply Forall_cons in Hm as [Hr _].
    destruct (lookup_lt_is_Some_2 ms r Hr) as [mat Hmat]. rewrite Hmat.
    destruct (Each (ms ++ [Material.setTransparent t mat])) as (ks' & new & -> & Hr' & Hl').
    { eapply Forall_lt_weaken; [|exact Hks]. rewrite length_app. lia. }
    exists (Node (Some (length ms)) ks'), (Material.setTransparent t mat :: new).
    rewrite <- app_assoc. simpl. split; [reflexivity|]. split.
    + rewrite Hr', length_app. simpl. f_equal. f_equal. lia.
    + f_equal.
      * rewrite (list_lookup_middle ms new _ (length ms) eq_refl). reflexivity.
      * change (ms ++ Material.setTransparent t mat :: new)
          with (ms ++ [Material.setTransparent t mat] ++ new).
        rewrite app_assoc, Hl', map_map. apply map_ext_in. intros k0 Hin. f_equal.
        apply look_app. rewrite Forall_forall in Hks. apply Forall_forall.
        intros r0 Hr0. apply Hks. apply list_elem_of_In, in_flat_map.
        exists k0. split; [exact Hin | now apply list_elem_of_In].
  - destruct (Each ms Hks) as (ks' & new & -> & Hr' & Hl').
    exists (Node None ks'), new. split; [reflexivity|]. split; [exact Hr'|].
    simpl. f_equal. rewrite Hl', map_map. reflexivity.
Qed.

Lemma cloneMesh_run name t w tid tpl :
  meshes w !! name = Some tid ->
  objs w !! tid = Some tpl ->
  Forall (fun r => r < length (mats w)) (partRefs (Object3D.part tpl)) ->
  exists p' new,
    traverse (cloneMaterial t) (Object3D.part tpl) (mats w) = Some (p', mats w ++ new) /\
    partRefs p' = seq (length (mats w)) (length new) /\
    look (mats w ++ new) p'
    = mapLook (Material.setTransparent t) (look (mats w) (Object3D.part tpl)) /\
    cloneMesh name t w
    = Ret (length (objs w))
          (set_mats (mats w ++ new)
             (set_objs (objs w ++ [Object3D.setPart p' tpl]) w)).
Proof.
  intros Hname Htpl Hrefs.
  destruct (traverse_cloneMaterial t (Object3D.part tpl) (mats w) Hrefs)
    as (p' & new & Ht & Hr & Hl).
  exists p', new. repeat split; auto.
  unfold cloneMesh, bind at 1, gets. rewrite Hname.
  unfold clone. erewrite (bind_Ret (bind _ _)).
  2:{ erewrite bind_Ret by (apply getObj_run; exact Htpl). reflexivity. }
  erewrite bind_Ret.
  2:{ apply traverseObj_run with (v := tpl); simpl; [apply lookup_snoc | exact Ht]. }
  simpl. rewrite insert_snoc. reflexivity.
Qed.

Lemma cloneMesh_absent name t w :
  meshes w !! name = None ->
  cloneMesh name t w
  = Throw (TypeError "Cannot read properties of undefined (reading 'clone')") w.
Proof. intros H. unfold cloneMesh, bind, gets. now rewrite H. Qed.

Lemma cloneMesh_Ret_inv name t w m w' :
  cloneMesh name t w = Ret m w' ->
  exists tid tpl, meshes w !! name = Some tid /\ objs w !! tid = Some tpl.
Proof.
  unfold cloneMesh, bind at 1, gets.
  destruct (meshes w !! name) as [tid|]; [|discriminate].
  unfold clone, bind, getObj. destruct (objs w !! tid) as [tpl|] eqn:E; [|discriminate].
  intros _. exists tid, tpl. auto.
Qed.

Lemma storeOk_lookup w o v :
  storeOk w -> objs w !! o = Some v ->
  Forall (fun r => r < length (mats w)) (partRefs (Object3D.part v)).
Proof.
  unfold storeOk. rewrite Forall_forall. intros H Ho. apply H.
  eapply list_elem_of_lookup_2; eauto.
Qed.

(** What one [cloneMesh] call does to the stores. *)
Lemma cloneMesh_fresh name t w m w' :
  storeOk w -> cloneMesh name t w = Ret m w' ->
  exists tid tpl p' new,
    meshes w !! name = Some tid /\
    objs w !! tid = Some tpl /\
    m = length (objs w) /\
    objs w' = objs w ++ [Object3D.setPart p' tpl] /\
    mats w' = mats w ++ new /\
    partRefs p' = seq (length (mats w)) (length new) /\
    look (mats w ++ new) p'
    = mapLook (Material.setTransparent t) (look (mats w) (Object3D.part tpl)) /\
    storeOk w'.
Proof.
  intros Hok Hrun.
  destruct (cloneMesh_Ret_inv _ _ _ _ _ Hrun) as (tid & tpl & Hname & Htpl).
  destruct (cloneMesh_run name t w tid tpl Hname Htpl (storeOk_lookup _ _ _ Hok Htpl))
    as (p' & new & _ & Hrefs & Hlook & Hrun').
  rewrite Hrun' in Hrun. injection Hrun as <- <-.
  exists tid, tpl, p', new. simpl. repeat split; auto.
  unfold storeOk. simpl. apply Forall_app. split.
  - eapply Forall_impl; [exact Hok|]. intros v Hv. simpl in *.
    eapply Forall_lt_weaken; [|exact Hv]. rewrite length_app. lia.
  - constructor; [|constructor]. simpl. rewrite Hrefs, length_app. apply Forall_lt_seq.
Qed.

Lemma refsOf_old w w' extra o :
  objs w' = objs w ++ extra -> o < length (objs w) -> refsOf w' o = refsOf w o.
Proof.
  intros Hobjs Ho. unfold refsOf. rewrite Hobjs. now rewrite lookup_app_l.
Qed.

Lemma refsOf_allocated w o r :
  storeOk w -> r ∈ refsOf w o -> r < length (mats w).
Proof.
  intros Hok. unfold refsOf. destruct (objs w !! o) as [v|] eqn:Ho.
  - intros Hr. pose proof (storeOk_lookup _ _ _ Hok Ho) as H.
    rewrite Forall_forall in H. now apply H.
  - intros Hr. inversion Hr.
Qed.

Lemma lookOf_insert w o r mat :
  r ∉ refsOf w o ->
  lookOf (set_mats (<[r := mat]> (mats w)) w) o = lookOf w o.
Proof.
  unfold lookOf, refsOf. simpl. destruct (objs w !! o) as [v|]; [|reflexivity].
  intros H. simpl. f_equal. now apply look_insert.
Qed.

(** C7.  An instance returned by [cloneMesh] looks like the template
    stored under the name, with the transparency flag set on every
    material, and the materials it holds were all allocated by that call:
    they are pairwise distinct, and no other object of the store (a
    template, an earlier instance) refers to any of them.  The call
    changes the look of no other object, and neither does any later write
    to one of the instance's materials.  The same holds between the
    instance and the one returned by a following call. *)
Theorem cloneMesh_materials_unshared name t w m w' :
  storeOk w ->
  cloneMesh name t w = Ret m w' ->
  storeOk w' /\
  (exists tid, meshes w !! name = Some tid /\
               lookOf w' m = mapLook (Material.setTransparent t) <$> lookOf w tid) /\
  NoDup (refsOf w' m) /\
  (forall o r, o <> m -> r ∈ refsOf w' o -> r ∉ refsOf w' m) /\
  (forall o, o <> m -> lookOf w' o = lookOf w o) /\
  (forall o r mat, o <> m -> r ∈ refsOf w' m ->
     lookOf (set_mats (<[r := mat]> (mats w')) w') o = lookOf w' o) /\
  (forall name2 t2 m2 w2, cloneMesh name2 t2 w' = Ret m2 w2 ->
     m2 <> m /\ forall r, r ∈ refsOf w2 m -> r ∉ refsOf w2 m2).
Proof.
  intros Hok Hrun.
  destruct (cloneMesh_fresh _ _ _ _ _ Hok Hrun)
    as (tid & tpl & p' & new & Hname & Htpl & -> & Hobjs & Hmats & Hrefs & Hlook & Hok').
  assert (Hm : refsOf w' (length (objs w)) = seq (length (mats w)) (length new)).
  { unfold refsOf. rewrite Hobjs, lookup_snoc. exact Hrefs. }
  assert (Hother : forall o r, o <> length (objs w) -> r ∈ refsOf w' o ->
                               r < length (mats w)).
  { intros o r Hne Hr. destruct (Nat.lt_ge_cases o (length (objs w))) as [Hlt|Hge].
    - rewrite (refsOf_old w w' _ o Hobjs Hlt) in Hr. eapply refsOf_allocated; eauto.
    - unfold refsOf in Hr. rewrite lookup_ge_None_2 in Hr; [inversion Hr|].
      rewrite Hobjs, length_app. simpl. lia. }
  assert (Hdisj : forall o r, o <> length (objs w) -> r ∈ refsOf w' o ->
                              r ∉ refsOf w' (length (objs w))).
  { intros o r Hne Hr Hin. rewrite Hm in Hin. apply elem_of_seq in Hin.
    pose proof (Hother o r Hne Hr). lia. }
  split; [exact Hok'|]. split.
  { exists tid. split; [exact Hname|]. unfold lookOf.
    rewrite Hobjs, lookup_snoc, Htpl, Hmats. simpl. now rewrite Hlook. }
  split; [rewrite Hm; apply NoDup_seq|].
  split; [exact Hdisj|]. split.
  { intros o Hne. unfold lookOf. rewrite Hobjs, Hmats.
    destruct (Nat.lt_ge_cases o (length (objs w))) as [Hlt|Hge].
    - rewrite lookup_app_l by exact Hlt. destruct (objs w !! o) as [v|] eqn:Ho; [|reflexivity].
      simpl. f_equal. apply look_app. eapply storeOk_lookup; eauto.
    - rewrite !lookup_ge_None_2; [reflexivity | lia | rewrite length_app; simpl; lia]. }
  split.
  { intros o r mat Hne Hr. apply lookOf_insert. intros Hin. exact (Hdisj o r Hne Hin Hr). }
  intros name2 t2 m2 w2 Hrun2.
  destruct (cloneMesh_fresh _ _ _ _ _ Hok' Hrun2)
    as (tid2 & tpl2 & p2 & new2 & _ & _ & -> & Hobjs2 & Hmats2 & Hrefs2 & _ & Hok2).
  assert (Hlen : length (objs w) < length (objs w')).
  { rewrite Hobjs, length_app. simpl. lia. }
  split; [lia|]. intros r Hr Hin.
  rewrite (refsOf_old w' w2 _ _ Hobjs2 Hlen) in Hr.
  pose proof (refsOf_allocated _ _ _ Hok' Hr) as Hlt.
  unfold refsOf in Hin. rewrite Hobjs2, lookup_snoc in Hin. simpl in Hin.
  rewrite Hrefs2 in Hin. apply elem_of_seq in Hin. lia.
Qed.

(** The theorem above at the loaded sample catalog. *)
Lemma cloneMesh_materials_unshared_witness :
  storeOk Sample.loaded /\
  exists w',
    cloneMesh "residential-A1" false Sample.loaded = Ret 3 w' /\
    storeOk w' /\
    (exists tid, meshes Sample.loaded !! "residential-A1" = Some tid /\
                 lookOf w' 3
                 = mapLook (Material.setTransparent false) <$> lookOf Sample.loaded tid) /\
    NoDup (refsOf w' 3) /\
    (forall o r, o <> 3 -> r ∈ refsOf w' o -> r ∉ refsOf w' 3) /\
    (forall o, o <> 3 -> lookOf w' o = lookOf Sample.loaded o) /\
    (forall o r mat, o <> 3 -> r ∈ refsOf w' 3 ->
       lookOf (set_mats (<[r := mat]> (mats w')) w') o = lookOf w' o) /\
    (forall name2 t2 m2 w2, cloneMesh name2 t2 w' = Ret m2 w2 ->
       m2 <> 3 /\ forall r, r ∈ refsOf w2 3 -> r ∉ refsOf w2 m2).
Proof.
  assert (Hok : storeOk Sample.loaded).
  { unfold storeOk. simpl. repeat (constructor; try lia). }
  split; [exact Hok|].
  eexists. split; [vm_compute; reflexivity|].
  apply (cloneMesh_materials_unshared "residential-A1" false Sample.loaded 3 _ Hok).
  vm_compute. reflexivity.
Defined.

(** ** The tint of abandoned zones *)

(** The root of a tree whose references are consecutive from [a] and
    whose root shows a material. *)
Lemma consecutive_root store p a n x lks :
  partRefs p = seq a n ->
  look store p = LookNode (Some x) lks ->
  exists ks, p = Node (Some a) ks /\ store !! a = Some x /\
             map (look store) ks = lks /\ a ∉ flat_map partRefs ks.
Proof.
  destruct p as [m ks]. simpl. intros Hrefs Hlook. injection Hlook as Hm Hks.
  destruct m as [r|]; [|discriminate]. simpl in Hrefs.
  destruct n as [|n]; [discriminate|]. simpl in Hrefs. injection Hrefs as -> Hrest.
  exists ks. repeat split; auto.
  rewrite Hrest. intros Hin. apply elem_of_seq in Hin. lia.
Qed.

Lemma createRoadMesh_run tile road w tid tpl :
  Tile.building tile = Some road ->
  meshes w !! roadModelName road = Some tid ->
  objs w !! tid = Some tpl ->
  Forall (fun r => r < length (mats w)) (partRefs (Object3D.part tpl)) ->
  exists p' new,
    partRefs p' = seq (length (mats w)) (length new) /\
    look (mats w ++ new) p'
    = mapLook (Material.setTransparent false) (look (mats w) (Object3D.part tpl)) /\
    createRoadMesh tile w
    = Ret (length (objs w))
        (set_mats (mats w ++ new)
           (set_objs
              (objs w ++
                 [Object3D.mk p' (Building.x road, 0%Z, Building.y road)
                    (Building.rotation road) (Object3D.visible tpl)
                    (Some (Tile.x tile, Tile.y tile))]) w)).
Proof.
  intros Hb Hname Htpl Hrefs.
  destruct (cloneMesh_run _ false w tid tpl Hname Htpl Hrefs)
    as (p' & new & _ & Hr & Hl & Hrun).
  exists p', new. split; [exact Hr|]. split; [exact Hl|].
  unfold createRoadMesh. rewrite Hb. fold (roadModelName road).
  erewrite bind_Ret by exact Hrun.
  erewrite bind_Ret by (apply updateObj_run; simpl; apply lookup_snoc).
  simpl. rewrite insert_snoc.
  erewrite bind_Ret by (apply updateObj_run; simpl; apply lookup_snoc).
  simpl. rewrite insert_snoc.
  erewrite bind_Ret by (apply updateObj_run; simpl; apply lookup_snoc).
  simpl. rewrite insert_snoc. reflexivity.
Qed.

Lemma createZoneMesh_run tile zone w tid tpl r0 :
  Tile.building tile = Some zone ->
  meshes w !! zoneModelName zone = Some tid ->
  objs w !! tid = Some tpl ->
  Forall (fun r => r < length (mats w)) (partRefs (Object3D.part tpl)) ->
  partMaterial (Object3D.part tpl) = Some r0 ->
  exists ks mat0 new,
    mats w !! r0 = Some mat0 /\
    (length (mats w) ∉ flat_map partRefs ks) /\
    partRefs (Node (Some (length (mats w))) ks) = seq (length (mats w)) (S (length new)) /\
    map (look (mats w ++ Material.setTransparent false mat0 :: new)) ks
    = map (fun k => mapLook (Material.setTransparent false) (look (mats w) k))
          (partChildren (Object3D.part tpl)) /\
    createZoneMesh tile w
    = Ret (length (objs w))
        (set_mats
           (mats w ++
              (if Building.abandoned zone
               then Material.setColor 0x707070%Z (Material.setTransparent false mat0)
               else Material.setTransparent false mat0) :: new)
           (set_objs
              (objs w ++
                 [Object3D.mk (Node (Some (length (mats w))) ks)
                    (Building.x zone, 0%Z, Building.y zone)
                    (Building.rotation zone) (Object3D.visible tpl)
                    (Some (Tile.x tile, Tile.y tile))]) w)).
Proof.
  intros Hb Hname Htpl Hrefs Hroot.
  destruct (cloneMesh_run _ false w tid tpl Hname Htpl Hrefs)
    as (p' & new0 & _ & Hr & Hl & Hrun).
  destruct (Object3D.part tpl) as [m0 ks0] eqn:Epart. simpl in Hroot. subst m0.
  simpl in Hrefs. apply Forall_cons in Hrefs as [Hr0 Hrefs].
  destruct (lookup_lt_is_Some_2 _ _ Hr0) as [mat0 Hmat0].
  simpl in Hl. rewrite Hmat0 in Hl. simpl in Hl.
  destruct (consecutive_root _ _ _ _ _ _ Hr Hl) as (ks & -> & Hnew & Hks & Hnotin).
  destruct new0 as [|first new].
  { rewrite app_nil_r in Hnew. apply lookup_lt_Some in Hnew. lia. }
  rewrite (list_lookup_middle (mats w) new first _ eq_refl) in Hnew.
  injection Hnew as ->.
  exists ks, mat0, new. split; [exact Hmat0|]. split; [exact Hnotin|].
  split; [exact Hr|]. split; [rewrite Hks, map_map; reflexivity|].
  unfold createZoneMesh. rewrite Hb. fold (zoneModelName zone).
  erewrite bind_Ret.
  2:{ instantiate (1 := w). instantiate (1 := tt).
      destruct (Building.developed zone); reflexivity. }
  erewrite bind_Ret by exact Hrun.
  erewrite bind_Ret by (apply updateObj_run; simpl; apply lookup_snoc).
  simpl. rewrite insert_snoc.
  erewrite bind_Ret by (apply updateObj_run; simpl; apply lookup_snoc).
  simpl. rewrite insert_snoc.
  erewrite bind_Ret by (apply updateObj_run; simpl; apply lookup_snoc).
  simpl. rewrite insert_snoc.
  destruct (Building.abandoned zone); unfold when.
  - erewrite bind_Ret.
    2:{ unfold setMaterialColor. erewrite bind_Ret by (apply getObj_run; simpl; apply lookup_snoc).
        simpl. apply updateMat_run. simpl. apply list_lookup_middle. reflexivity. }
    simpl. unfold ret. rewrite insert_app_r_alt by lia. rewrite Nat.sub_diag.
    reflexivity.
  - reflexivity.
Qed.

(** C8, as the code has it.  For an abandoned zone whose template is
    loaded, [createZoneMesh] returns an instance whose root part keeps the
    material that [cloneMesh] allocated for it, with the colour set to
    0x707070 and its other channels as cloned; the nested sub-parts look
    as in the template (only made opaque), and the template keeps its
    look. *)
Theorem abandoned_zone_tints_root tile zone w tid tpl r0 :
  Tile.building tile = Some zone ->
  Building.abandoned zone = true ->
  meshes w !! zoneModelName zone = Some tid ->
  objs w !! tid = Some tpl ->
  Forall (fun r => r < length (mats w)) (partRefs (Object3D.part tpl)) ->
  partMaterial (Object3D.part tpl) = Some r0 ->
  exists m w' v mat0,
    createZoneMesh tile w = Ret m w' /\
    mats w !! r0 = Some mat0 /\
    objs w' !! m = Some v /\
    Object3D.material v = Some (length (mats w)) /\
    lookOf w' m
    = Some (LookNode
              (Some (Material.setColor 0x707070%Z (Material.setTransparent false mat0)))
              (map (fun k => mapLook (Material.setTransparent false) (look (mats w) k))
                   (partChildren (Object3D.part tpl)))) /\
    lookOf w' tid = lookOf w tid.
Proof.
  intros Hb Hab Hname Htpl Hrefs Hroot.
  destruct (createZoneMesh_run tile zone w tid tpl r0 Hb Hname Htpl Hrefs Hroot)
    as (ks & mat0 & new & Hmat0 & Hnotin & Hseq & Hks & Hrun).
  rewrite Hab in Hrun.
  eexists _, _, _, mat0. split; [exact Hrun|]. split; [exact Hmat0|].
  simpl. split; [apply lookup_snoc|]. split; [reflexivity|]. split.
  - unfold lookOf. simpl. rewrite lookup_snoc. simpl. f_equal. f_equal.
    + rewrite (list_lookup_middle (mats w) new _ _ eq_refl). reflexivity.
    + rewrite <- Hks.
      replace (mats w ++ Material.setColor 7368816 (Material.setTransparent false mat0) :: new)
        with (<[length (mats w) :=
                  Material.setColor 7368816 (Material.setTransparent false mat0)]>
                (mats w ++ Material.setTransparent false mat0 :: new)).
      * apply map_ext_in. intros k Hin. apply look_insert. intros Hk. apply Hnotin.
        apply list_elem_of_In, in_flat_map. exists k.
        split; [exact Hin | now apply list_elem_of_In].
      * rewrite insert_app_r_alt by lia. now rewrite Nat.sub_diag.
  - unfold lookOf. simpl. rewrite lookup_app_l by (eapply lookup_lt_Some; eauto).
    rewrite Htpl. simpl. f_equal. now apply look_app.
Qed.

(** The theorem above for the abandoned zone of the sample scene, whose
    template has a nested sub-part. *)
Lemma abandoned_zone_tints_root_witness :
  Tile.building Sample.abandonedTile = Some Sample.abandonedZone /\
  Building.abandoned Sample.abandonedZone = true /\
  exists m w' v mat0,
    createZoneMesh Sample.abandonedTile Sample.loaded = Ret m w' /\
    mats Sample.loaded !! 2 = Some mat0 /\
    objs w' !! m = Some v /\
    Object3D.material v = Some (length (mats Sample.loaded)) /\
    lookOf w' m
    = Some (LookNode
              (Some (Material.setColor 0x707070%Z (Material.setTransparent false mat0)))
              (map (fun k => mapLook (Material.setTransparent false)
                                (look (mats Sample.loaded) k))
                   (partChildren (Object3D.part Sample.houseTemplate)))) /\
    lookOf w' 2 = lookOf Sample.loaded 2.
Proof.
  split; [reflexivity|]. split; [reflexivity|].
  apply (abandoned_zone_tints_root Sample.abandonedTile Sample.abandonedZone
           Sample.loaded 2 Sample.houseTemplate 2).
  - reflexivity.
  - reflexivity.
  - reflexivity.
  - reflexivity.
  - simpl. repeat (constructor; try lia).
  - reflexivity.
Defined.

(** C8 as stated fails: the instance made for the abandoned zone of the
    sample scene has two parts, and only the first shows the tint; the
    nested part keeps the template's white. *)
Lemma abandoned_zone_subpart_not_tinted :
  exists m w',
    createZoneMesh Sample.abandonedTile Sample.loaded = Ret m w' /\
    colorsOf w' m = [Some 0x707070%Z; Some 0xffffff%Z].
Proof. eexists _, _. split; vm_compute; reflexivity. Qed.

(** ** Models missing from the catalog *)

Lemma createBuildingMesh_absent tile b name w :
  Tile.building tile = Some b ->
  modelNameOf b = Some name ->
  meshes w !! name = None ->
  createBuildingMesh (Some tile) w
  = Throw (TypeError "Cannot read properties of undefined (reading 'clone')") w.
Proof.
  intros Hb Hname Habs. unfold createBuildingMesh. rewrite Hb.
  unfold modelNameOf in Hname.
  destruct (isZoneType (Building.type b)).
  - injection Hname as <-. apply bind_Throw.
    unfold createZoneMesh. rewrite Hb. fold (zoneModelName b).
    erewrite bind_Ret.
    2:{ instantiate (1 := w). instantiate (1 := tt).
        destruct (Building.developed b); reflexivity. }
    apply bind_Throw. now apply cloneMesh_absent.
  - destruct (isRoadType (Building.type b)); [|discriminate].
    injection Hname as <-. apply bind_Throw.
    unfold createRoadMesh. rewrite Hb. fold (roadModelName b).
    apply bind_Throw. now apply cloneMesh_absent.
Qed.

(** ** The building factory *)

Lemma createZoneMesh_run_any tile zone w tid tpl :
  Tile.building tile = Some zone ->
  meshes w !! zoneModelName zone = Some tid ->
  objs w !! tid = Some tpl ->
  Forall (fun r => r < length (mats w)) (partRefs (Object3D.part tpl)) ->
  (Building.abandoned zone = true -> is_Some (partMaterial (Object3D.part tpl))) ->
  exists p' new,
    partRefs p' = seq (length (mats w)) (length new) /\
    look (mats w ++ new) p'
    = (if Building.abandoned zone then tintRoot 0x707070%Z else fun l => l)
        (mapLook (Material.setTransparent false) (look (mats w) (Object3D.part tpl))) /\
    createZoneMesh tile w
    = Ret (length (objs w))
        (set_mats (mats w ++ new)
           (set_objs (objs w ++ [instanceObject tile zone p' (Object3D.visible tpl)]) w)).
Proof.
  intros Hb Hname Htpl Hrefs Htint.
  destruct (Building.abandoned zone) eqn:Hab.
  - destruct (Htint eq_refl) as [r0 Hroot].
    destruct (createZoneMesh_run tile zone w tid tpl r0 Hb Hname Htpl Hrefs Hroot)
      as (ks & mat0 & new & Hmat0 & Hnotin & Hseq & Hks & Hrun).
    rewrite Hab in Hrun.
    eexists _, _. split; [|split; [|exact Hrun]].
    + exact Hseq.
    + destruct (Object3D.part tpl) as [m0 ks0]. simpl in Hroot. subst m0.
      simpl. rewrite Hmat0. simpl.
      rewrite (list_lookup_middle (mats w) new _ _ eq_refl). f_equal.
      simpl in Hks. rewrite map_map, <- Hks.
      replace (mats w ++ Material.setColor 7368816 (Material.setTransparent false mat0) :: new)
        with (<[length (mats w) :=
                  Material.setColor 7368816 (Material.setTransparent false mat0)]>
                (mats w ++ Material.setTransparent false mat0 :: new)).
      * apply map_ext_in. intros k Hin. apply look_insert. intros Hk. apply Hnotin.
        apply list_elem_of_In, in_flat_map. exists k.
        split; [exact Hin | now apply list_elem_of_In].
      * rewrite insert_app_r_alt by lia. now rewrite Nat.sub_diag.
  - destruct (cloneMesh_run _ false w tid tpl Hname Htpl Hrefs)
      as (p' & new & _ & Hr & Hl & Hrun).
    exists p', new. split; [exact Hr|]. split; [exact Hl|].
    unfold createZoneMesh. rewrite Hb. fold (zoneModelName zone).
    erewrite bind_Ret.
    2:{ instantiate (1 := w). instantiate (1 := tt).
        destruct (Building.developed zone); reflexivity. }
    erewrite bind_Ret by exact Hrun.
    erewrite bind_Ret by (apply updateObj_run; simpl; apply lookup_snoc).
    simpl. rewrite insert_snoc.
    erewrite bind_Ret by (apply updateObj_run; simpl; apply lookup_snoc).
    simpl. rewrite insert_snoc.
    erewrite bind_Ret by (apply updateObj_run; simpl; apply lookup_snoc).
    simpl. rewrite insert_snoc. rewrite Hab. reflexivity.
Qed.

(** [createBuildingMesh] for a recognised kind whose template is ready. *)
Lemma createBuildingMesh_run tile b name w tid tpl :
  Tile.building tile = Some b ->
  modelNameOf b = Some name ->
  meshes w !! name = Some tid ->
  objs w !! tid = Some tpl ->
  Forall (fun r => r < length (mats w)) (partRefs (Object3D.part tpl)) ->
  (tintOf b = true -> is_Some (partMaterial (Object3D.part tpl))) ->
  exists p' new,
    partRefs p' = seq (length (mats w)) (length new) /\
    look (mats w ++ new) p' = instanceLook b (look (mats w) (Object3D.part tpl)) /\
    createBuildingMesh (Some tile) w
    = Ret (Some (length (objs w)))
        (set_mats (mats w ++ new)
           (set_objs (objs w ++ [instanceObject tile b p' (Object3D.visible tpl)]) w)).
Proof.
  intros Hb Hname Hmesh Htpl Hrefs Htint.
  unfold createBuildingMesh. rewrite Hb. unfold modelNameOf in Hname.
  unfold instanceLook, tintOf in *.
  destruct (isZoneType (Building.type b)) eqn:Ez.
  - injection Hname as <-. simpl in Htint.
    destruct (createZoneMesh_run_any tile b w tid tpl Hb Hmesh Htpl Hrefs Htint)
      as (p' & new & Hr & Hl & Hrun).
    exists p', new. split; [exact Hr|]. split.
    + rewrite Hl. simpl. destruct (Building.abandoned b); reflexivity.
    + erewrite bind_Ret by exact Hrun. reflexivity.
  - destruct (isRoadType (Building.type b)) eqn:Er; [|discriminate].
    injection Hname as <-.
    destruct (createRoadMesh_run tile b w tid tpl Hb Hmesh Htpl Hrefs)
      as (p' & new & Hr & Hl & Hrun).
    exists p', new. split; [exact Hr|]. split; [exact Hl|].
    erewrite bind_Ret by exact Hrun. reflexivity.
Qed.

(** [createBuildingMesh] for an unrecognised kind. *)
Lemma createBuildingMesh_unrecognised tile b w :
  Tile.building tile = Some b ->
  modelNameOf b = None ->
  createBuildingMesh (Some tile) w
  = Ret None
      (set_calls (calls w ++ [ConsoleWarn ("Mesh type " +:+ Building.type b
                                            +:+ " is not recognized.")]) w).
Proof.
  intros Hb Hname. unfold createBuildingMesh. rewrite Hb. unfold modelNameOf in Hname.
  destruct (isZoneType (Building.type b)); [discriminate|].
  destruct (isRoadType (Building.type b)); [discriminate|]. reflexivity.
Qed.

(** A root without material stays without material in the clone. *)
Lemma cloneMesh_rootless name t w tid tpl :
  meshes w !! name = Some tid ->
  objs w !! tid = Some tpl ->
  Forall (fun r => r < length (mats w)) (partRefs (Object3D.part tpl)) ->
  partMaterial (Object3D.part tpl) = None ->
  exists p' new,
    partMaterial p' = None /\
    cloneMesh name t w
    = Ret (length (objs w))
          (set_mats (mats w ++ new)
             (set_objs (objs w ++ [Object3D.setPart p' tpl]) w)).
Proof.
  intros Hname Htpl Hrefs Hroot.
  destruct (cloneMesh_run name t w tid tpl Hname Htpl Hrefs)
    as (p' & new & Ht & _ & _ & Hrun).
  exists p', new. split; [|exact Hrun].
  destruct (Object3D.part tpl) as [m0 ks0]. simpl in Hroot. subst m0.
  rewrite traverse_Node in Ht. simpl in Ht.
  destruct (traverseEach (cloneMaterial t) ks0 (mats w)) as [[ks' ms2]|]; [|discriminate].
  injection Ht as <- _. reflexivity.
Qed.

(** When [createBuildingMesh] returns, the template it needed was ready. *)
Lemma createBuildingMesh_Ret_ready tile b w r w' :
  storeOk w ->
  Tile.building tile = Some b ->
  createBuildingMesh (Some tile) w = Ret r w' ->
  modelReady w b.
Proof.
  intros Hok Hb Hrun. unfold modelReady.
  destruct (modelNameOf b) as [name|] eqn:Hname; [|exact I].
  unfold createBuildingMesh in Hrun. rewrite Hb in Hrun.
  unfold modelNameOf in Hname. unfold tintOf.
  destruct (isZoneType (Building.type b)) eqn:Ez.
  - injection Hname as <-.
    apply bind_Ret_inv in Hrun as (m & w1 & Hzone & _).
    assert (Hclone : exists tid tpl, meshes w !! zoneModelName b = Some tid
                                     /\ objs w !! tid = Some tpl).
    { unfold createZoneMesh in Hzone. rewrite Hb in Hzone.
      fold (zoneModelName b) in Hzone.
      apply bind_Ret_inv in Hzone as ([] & w0 & Hdev & Hrest).
      assert (w0 = w) as ->.
      { unfold when, ret in Hdev. destruct (Building.developed b); congruence. }
      apply bind_Ret_inv in Hrest as (m0 & w2 & Hc & _).
      eapply cloneMesh_Ret_inv; eauto. }
    destruct Hclone as (tid & tpl & Hmesh & Htpl).
    exists tid, tpl. split; [exact Hmesh|]. split; [exact Htpl|].
    simpl. intros Hab.
    destruct (partMaterial (Object3D.part tpl)) as [r0|] eqn:Hroot; [eauto|].
    exfalso.
    destruct (cloneMesh_rootless _ false w tid tpl Hmesh Htpl
                (storeOk_lookup _ _ _ Hok Htpl) Hroot) as (p' & new & Hp' & Hc).
    unfold createZoneMesh in Hzone. rewrite Hb in Hzone.
    fold (zoneModelName b) in Hzone.
    erewrite bind_Ret in Hzone.
    2:{ instantiate (1 := w). instantiate (1 := tt).
        destruct (Building.developed b); reflexivity. }
    erewrite bind_Ret in Hzone by exact Hc.
    erewrite bind_Ret in Hzone by (apply updateObj_run; simpl; apply lookup_snoc).
    simpl in Hzone. rewrite insert_snoc in Hzone.
    erewrite bind_Ret in Hzone by (apply updateObj_run; simpl; apply lookup_snoc).
    simpl in Hzone. rewrite insert_snoc in Hzone.
    erewrite bind_Ret in Hzone by (apply updateObj_run; simpl; apply lookup_snoc).
    simpl in Hzone. rewrite insert_snoc in Hzone.
    rewrite Hab in Hzone. unfold when in Hzone.
    erewrite bind_Throw in Hzone; [discriminate|].
    unfold setMaterialColor.
    erewrite bind_Ret by (apply getObj_run; simpl; apply lookup_snoc).
    unfold Object3D.material. simpl. rewrite Hp'. reflexivity.
  - destruct (isRoadType (Building.type b)) eqn:Er; [|discriminate].
    injection Hname as <-.
    apply bind_Ret_inv in Hrun as (m & w1 & Hroad & _).
    unfold createRoadMesh in Hroad. rewrite Hb in Hroad.
    fold (roadModelName b) in Hroad.
    apply bind_Ret_inv in Hroad as (m0 & w2 & Hc & _).
    destruct (cloneMesh_Ret_inv _ _ _ _ _ Hc) as (tid & tpl & Hmesh & Htpl).
    exists tid, tpl. split; [exact Hmesh|]. split; [exact Htpl|].
    simpl. discriminate.
Qed.

(** ** One coordinate of the diff *)

Lemma applyTile_reconcile x y w :
  applyTile x y w
  = (existingBuildingMesh <- readSlot x y ;;
     setTerrainVisible x y (terrainVisibleFor (tileAt w x y)) ;;;
     reconcile x y (tileAt w x y) existingBuildingMesh) w.
Proof. reflexivity. Qed.

(** The reads and the terrain write of [applyTile]. *)
Lemma applyTile_prelude x y w col t tv :
  buildings w !! x = Some col ->
  terrainAt w x y = Some t ->
  objs w !! t = Some tv ->
  applyTile x y w
  = reconcile x y (tileAt w x y) (slotAt w x y) (terrainWritten x y t tv w).
Proof.
  intros Hcol Ht Htv. rewrite applyTile_reconcile.
  unfold bind at 1, readSlot. rewrite Hcol.
  unfold slotAt. rewrite Hcol.
  erewrite bind_Ret; [reflexivity|].
  unfold setTerrainVisible, bind at 1, gets. unfold terrainAt in Ht.
  destruct (terrain w !! x) as [tcol|]; [|discriminate]. rewrite Ht.
  now apply updateObj_run.
Qed.

(** When [applyTile] returns, its reads went through. *)
Lemma applyTile_Ret_reads x y w w' :
  applyTile x y w = Ret tt w' ->
  exists col t tv,
    buildings w !! x = Some col /\ terrainAt w x y = Some t /\ objs w !! t = Some tv.
Proof.
  rewrite applyTile_reconcile. intros H.
  apply bind_Ret_inv in H as (s & w1 & Hread & H).
  unfold readSlot in Hread.
  destruct (buildings w !! x) as [col|] eqn:Hcol; [|discriminate].
  injection Hread as <- <-.
  apply bind_Ret_inv in H as ([] & w2 & Hvis & _).
  unfold setTerrainVisible, bind, gets, terrainAt in *.
  destruct (terrain w !! x) as [tcol|]; [|discriminate].
  destruct (tcol !! y) as [t|]; [|discriminate].
  unfold updateObj, bind, getObj in Hvis.
  destruct (objs w !! t) as [tv|] eqn:Htv; [|discriminate].
  exists col, t, tv. auto.
Qed.

Lemma slotAt_Some w x y m col :
  buildings w !! x = Some col -> slotAt w x y = Some m -> col !! y = Some (Some m).
Proof.
  unfold slotAt. intros ->. destruct (col !! y) as [s|]; simpl; congruence.
Qed.

Lemma arraySet_in_range {A} (i : nat) (v hole old : A) (a : list A) :
  a !! i = Some old -> arraySet i v hole a = <[i := v]> a.
Proof.
  intros H. unfold arraySet. apply lookup_lt_Some in H.
  destruct (Nat.ltb_spec i (length a)); [reflexivity | lia].
Qed.

Lemma writeSlot_run x y v w col old :
  buildings w !! x = Some col -> col !! y = Some old ->
  writeSlot x y v w = Ret tt (set_buildings (<[x := <[y := v]> col]> (buildings w)) w).
Proof.
  intros Hcol Hy. unfold writeSlot. rewrite Hcol.
  now rewrite (arraySet_in_range y v None old col Hy).
Qed.

Lemma readSlot_written x y v w col old :
  buildings w !! x = Some col -> col !! y = Some old ->
  readSlot x y (set_buildings (<[x := <[y := v]> col]> (buildings w)) w)
  = Ret v (set_buildings (<[x := <[y := v]> col]> (buildings w)) w).
Proof.
  intros Hcol Hy. unfold readSlot. simpl.
  rewrite list_lookup_insert_eq by (eapply lookup_lt_Some; eauto).
  rewrite list_lookup_insert_eq by (eapply lookup_lt_Some; eauto).
  reflexivity.
Qed.

(** Evaluation of a computation whose steps all return. *)
Ltac evalM :=
  cbv beta;
  lazymatch goal with
  | |- bind ?m ?k ?w = _ => erewrite (bind_Ret m k w) by evalM; evalM
  | |- writeSlot _ _ _ _ = _ => eapply writeSlot_run; simpl; eauto
  | |- readSlot _ _ _ = _ => eapply readSlot_written; simpl; eauto
  | |- _ => first [reflexivity | eassumption | solve [eauto 2] | idtac]
  end.

(** Nothing to reconcile: no building and no instance, a building without
    instance, or a building whose mesh is up to date. *)
Lemma reconcile_idle x y tile s w :
  match buildingOf tile, s with
  | None, Some _ => False
  | Some b, Some _ => Building.isMeshOutOfDate b = false
  | _, _ => True
  end ->
  reconcile x y tile s w = Ret tt w.
Proof.
  unfold reconcile. destruct (buildingOf tile) as [b|], s as [m|]; intros H;
    try contradiction; try reflexivity.
  unfold bind, ret, when. rewrite H. reflexivity.
Qed.

(** The building is gone and its instance is still cached. *)
Lemma reconcile_removed x y tile m w col :
  buildingOf tile = None ->
  buildings w !! x = Some col -> col !! y = Some (Some m) ->
  reconcile x y tile (Some m) w = Ret tt (removed x y col m w).
Proof.
  intros Hb Hcol Hy. unfold reconcile. rewrite Hb.
  evalM. unfold removed, ret. simpl. rewrite <- app_assoc. reflexivity.
Qed.

(** The building is stale, of a recognised kind, and its instance is
    cached. *)
Lemma reconcile_rebuilt x y tile b name m w col tid tpl :
  Tile.building tile = Some b ->
  Building.isMeshOutOfDate b = true ->
  buildings w !! x = Some col -> col !! y = Some (Some m) ->
  modelNameOf b = Some name ->
  meshes w !! name = Some tid ->
  objs w !! tid = Some tpl ->
  Forall (fun r => r < length (mats w)) (partRefs (Object3D.part tpl)) ->
  (tintOf b = true -> is_Some (partMaterial (Object3D.part tpl))) ->
  exists p' new,
    partRefs p' = seq (length (mats w)) (length new) /\
    look (mats w ++ new) p' = instanceLook b (look (mats w) (Object3D.part tpl)) /\
    reconcile x y (Some tile) (Some m) w
    = Ret tt (rebuilt x y col m b (instanceObject tile b p' (Object3D.visible tpl)) new w).
Proof.
  intros Hb Hstale Hcol Hy Hname Hmesh Htpl Hrefs Htint.
  set (w2 := set_root (removeFirst m (root w)) (set_calls (calls w ++ [RootRemove m]) w)).
  destruct (createBuildingMesh_run tile b name w2 tid tpl Hb Hname Hmesh Htpl Hrefs Htint)
    as (p' & new & Hr & Hl & Hrun).
  exists p', new. split; [exact Hr|]. split; [exact Hl|].
  unfold reconcile. change (buildingOf (Some tile)) with (Tile.building tile).
  rewrite Hb, Hstale. unfold when at 1.
  evalM.
  unfold rebuilt, when, call, modify, ret, w2.
  destruct (isRoadType (Building.type b)); simpl; rewrite <- !app_assoc; reflexivity.
Qed.

(** The building is stale, of an unrecognised kind, and an instance is
    cached. *)
Lemma reconcile_dropped x y tile b m w col :
  Tile.building tile = Some b ->
  Building.isMeshOutOfDate b = true ->
  buildings w !! x = Some col -> col !! y = Some (Some m) ->
  modelNameOf b = None ->
  reconcile x y (Some tile) (Some m) w = Ret tt (dropped x y col m b w).
Proof.
  intros Hb Hstale Hcol Hy Hname.
  assert (Hroad : isRoadType (Building.type b) = false).
  { unfold modelNameOf in Hname. destruct (isZoneType (Building.type b)); [discriminate|].
    destruct (isRoadType (Building.type b)); [discriminate | reflexivity]. }
  pose proof (fun w0 => createBuildingMesh_unrecognised tile b w0 Hb Hname) as Hrun.
  unfold reconcile. change (buildingOf (Some tile)) with (Tile.building tile).
  rewrite Hb, Hstale, Hroad. unfold when at 1.
  evalM.
  unfold dropped, when, call, modify, ret. simpl. rewrite <- !app_assoc. reflexivity.
Qed.

Lemma storeOk_terrainWritten x y t tv w :
  objs w !! t = Some tv -> storeOk w -> storeOk (terrainWritten x y t tv w).
Proof.
  intros Htv Hok. unfold storeOk, terrainWritten. simpl.
  apply Forall_insert; [exact Hok|]. simpl. eapply storeOk_lookup; eauto.
Qed.

Lemma modelReady_lookup w b name :
  modelReady w b -> modelNameOf b = Some name ->
  exists tid tpl,
    meshes w !! name = Some tid /\ objs w !! tid = Some tpl /\
    (tintOf b = true -> is_Some (partMaterial (Object3D.part tpl))).
Proof. unfold modelReady. intros H Hn. now rewrite Hn in H. Qed.

(** A returning [applyTile] is one of the four cases. *)
Lemma applyTile_TileStep x y w w' :
  storeOk w -> applyTile x y w = Ret tt w' -> TileStep x y w w'.
Proof.
  intros Hok Hrun.
  destruct (applyTile_Ret_reads _ _ _ _ Hrun) as (col & t & tv & Hcol & Ht & Htv).
  rewrite (applyTile_prelude x y w col t tv Hcol Ht Htv) in Hrun.
  pose proof (storeOk_terrainWritten x y t tv w Htv Hok) as Hok1.
  set (w1 := terrainWritten x y t tv w) in *.
  destruct (buildingAt w x y) as [b|] eqn:Hb; destruct (slotAt w x y) as [m|] eqn:Hs.
  - destruct (Building.isMeshOutOfDate b) eqn:Hstale.
    + unfold buildingAt in Hb. destruct (tileAt w x y) as [tile|] eqn:Htile; [|discriminate].
      simpl in Hb.
      pose proof (slotAt_Some w x y m col Hcol Hs) as Hy.
      destruct (modelNameOf b) as [name|] eqn:Hname.
      * assert (Hready : modelReady w1 b).
        { unfold reconcile in Hrun. change (buildingOf (Some tile)) with (Tile.building tile) in Hrun.
          rewrite Hb, Hstale in Hrun. unfold when at 1 in Hrun.
          apply bind_Ret_inv in Hrun as ([] & w0 & E0 & Hrun).
          injection E0 as <-.
          apply bind_Ret_inv in Hrun as ([] & w2 & E2 & Hrun).
          apply bind_Ret_inv in Hrun as (r & w3 & Hcreate & _).
          assert (w2 = set_root (removeFirst m (root w1))
                         (set_calls (calls w1 ++ [RootRemove m]) w1)) as ->.
          { unfold rootRemove, call, modify, bind in E2. now injection E2. }
          exact (createBuildingMesh_Ret_ready tile b
                   (set_root (removeFirst m (root w1))
                      (set_calls (calls w1 ++ [RootRemove m]) w1)) r w3 Hok1 Hb Hcreate). }
        destruct (modelReady_lookup _ _ _ Hready Hname) as (tid & tpl & Hmesh & Htpl & Htint).
        destruct (reconcile_rebuilt x y tile b name m w1 col tid tpl Hb Hstale Hcol Hy Hname
                    Hmesh Htpl (storeOk_lookup _ _ _ Hok1 Htpl) Htint)
          as (p' & new & Hr & Hl & Hrun').
        rewrite Hrun' in Hrun. injection Hrun as <-.
        eapply StepRebuilt; eauto.
      * rewrite (reconcile_dropped x y tile b m w1 col Hb Hstale Hcol Hy Hname) in Hrun.
        injection Hrun as <-. eapply StepDropped; eauto.
    + rewrite reconcile_idle in Hrun.
      * injection Hrun as <-. eapply StepIdle; eauto.
        rewrite Hb, Hs. exact Hstale.
      * fold (buildingAt w x y). rewrite Hb. exact Hstale.
  - rewrite reconcile_idle in Hrun.
    + injection Hrun as <-. eapply StepIdle; eauto. rewrite Hb, Hs. exact I.
    + fold (buildingAt w x y). rewrite Hb. exact I.
  - pose proof (slotAt_Some w x y m col Hcol Hs) as Hy.
    rewrite (reconcile_removed x y _ m w1 col Hb Hcol Hy) in Hrun.
    injection Hrun as <-. eapply StepRemoved; eauto.
  - rewrite reconcile_idle in Hrun.
    + injection Hrun as <-. eapply StepIdle; eauto. rewrite Hb, Hs. exact I.
    + fold (buildingAt w x y). rewrite Hb. exact I.
Qed.

(** Where the reads go through and the needed template is ready,
    [applyTile] returns. *)
Lemma applyTile_total x y w :
  storeOk w -> ready w x y -> exists w', applyTile x y w = Ret tt w'.
Proof.
  intros Hok ([col Hcol] & (t & Ht & [tv Htv]) & Hmodel).
  rewrite (applyTile_prelude x y w col t tv Hcol Ht Htv).
  pose proof (storeOk_terrainWritten x y t tv w Htv Hok) as Hok1.
  set (w1 := terrainWritten x y t tv w) in *.
  destruct (buildingAt w x y) as [b|] eqn:Hb; destruct (slotAt w x y) as [m|] eqn:Hs.
  - destruct (Building.isMeshOutOfDate b) eqn:Hstale.
    + specialize (Hmodel b eq_refl Hstale (ltac:(eauto))).
      unfold buildingAt in Hb. destruct (tileAt w x y) as [tile|] eqn:Htile; [|discriminate].
      simpl in Hb.
      pose proof (slotAt_Some w x y m col Hcol Hs) as Hy.
      destruct (modelNameOf b) as [name|] eqn:Hname.
      * destruct (modelReady_lookup _ _ _ Hmodel Hname) as (tid & tpl & Hmesh & Htpl & Htint).
        assert (exists tpl1, objs w1 !! tid = Some tpl1
                             /\ Object3D.part tpl1 = Object3D.part tpl) as (tpl1 & Htpl1 & Hpart).
        { unfold w1, terrainWritten. simpl. destruct (decide (t = tid)) as [->|Hne].
          - rewrite list_lookup_insert_eq by (eapply lookup_lt_Some; eauto).
            eexists. split; [reflexivity|]. simpl. congruence.
          - rewrite list_lookup_insert_ne by exact Hne. eauto. }
        rewrite <- Hpart in Htint.
        destruct (reconcile_rebuilt x y tile b name m w1 col tid tpl1 Hb Hstale Hcol Hy Hname
                    Hmesh Htpl1 (storeOk_lookup _ _ _ Hok1 Htpl1) Htint)
          as (p' & new & _ & _ & Hrun').
        eauto.
      * rewrite (reconcile_dropped x y tile b m w1 col Hb Hstale Hcol Hy Hname). eauto.
    + rewrite reconcile_idle; [eauto|].
      fold (buildingAt w x y). rewrite Hb. exact Hstale.
  - rewrite reconcile_idle; [eauto|]. fold (buildingAt w x y). rewrite Hb. exact I.
  - pose proof (slotAt_Some w x y m col Hcol Hs) as Hy.
    rewrite (reconcile_removed x y _ m w1 col Hb Hcol Hy). eauto.
  - rewrite reconcile_idle; [eauto|]. fold (buildingAt w x y). rewrite Hb. exact I.
Qed.

(** ** What one step leaves alone *)

Lemma TileStep_storeOk x y w w' : storeOk w -> TileStep x y w w' -> storeOk w'.
Proof.
  intros Hok Hstep.
  inversion Hstep as [col t tv Hcol Ht Htv Hidle
                     | col t tv m Hcol Ht Htv Hb Hs
                     | col t tv m tile b Hcol Ht Htv Htile Hb Hstale Hs Hname
                     | col t tv m tile b name tid tpl p' new
                         Hcol Ht Htv Htile Hb Hstale Hs Hname Hmesh Htpl Hrefs Hlook];
    subst; pose proof (storeOk_terrainWritten x y t tv w Htv Hok) as Hok1;
    try exact Hok1.
  unfold storeOk, rebuilt. simpl. apply Forall_app. split.
  - eapply Forall_impl; [exact Hok1|]. intros v Hv. simpl in *.
    eapply Forall_lt_weaken; [|exact Hv]. rewrite length_app. lia.
  - constructor; [|constructor]. simpl. rewrite Hrefs, length_app. apply Forall_lt_seq.
Qed.

Lemma TileStep_fixed x y w w' :
  TileStep x y w w' ->
  meshes w' = meshes w /\ terrain w' = terrain w /\
  City.size (city w') = City.size (city w) /\
  length (buildings w') = length (buildings w).
Proof.
  intros Hstep. inversion Hstep; subst; simpl; rewrite ?length_insert; auto.
Qed.

Lemma TileStep_mats x y w w' :
  TileStep x y w w' -> exists extra, mats w' = mats w ++ extra.
Proof.
  intros Hstep. inversion Hstep; subst; simpl; try (exists []; now rewrite app_nil_r).
  eauto.
Qed.

(** Objects other than the terrain mesh of the tile keep their value. *)
Lemma TileStep_objs x y w w' o v :
  TileStep x y w w' -> objs w !! o = Some v -> terrainAt w x y <> Some o ->
  objs w' !! o = Some v.
Proof.
  intros Hstep Ho Hne.
  assert (Hw1 : forall t (tv : Object3D.t), terrainAt w x y = Some t ->
                  <[t := tv]> (objs w) !! o = Some v).
  { intros t tv Ht. rewrite list_lookup_insert_ne; [exact Ho | congruence]. }
  inversion Hstep; subst; simpl; auto.
  rewrite lookup_app_l; auto.
  rewrite length_insert. eapply lookup_lt_Some; eauto.
Qed.

(** Every object keeps its sub-part tree. *)
Lemma TileStep_parts x y w w' o v :
  TileStep x y w w' -> objs w !! o = Some v ->
  exists v', objs w' !! o = Some v' /\ Object3D.part v' = Object3D.part v.
Proof.
  intros Hstep Ho.
  assert (Hw1 : forall t tv vis, objs w !! t = Some tv ->
                  exists v', <[t := Object3D.setVisible vis tv]> (objs w) !! o = Some v'
                             /\ Object3D.part v' = Object3D.part v).
  { intros t tv vis Htv. destruct (decide (t = o)) as [->|Hne].
    - rewrite list_lookup_insert_eq by (eapply lookup_lt_Some; eauto).
      eexists. split; [reflexivity|]. simpl. congruence.
    - rewrite list_lookup_insert_ne by exact Hne. eauto. }
  inversion Hstep; subst; simpl; auto.
  match goal with H : objs w !! ?t = Some ?tv |- context [Object3D.setVisible ?vis _] =>
    destruct (Hw1 t tv vis H) as (v' & Hv' & Hp) end.
  exists v'. split; [|exact Hp]. rewrite lookup_app_l; auto.
  eapply lookup_lt_Some; eauto.
Qed.

Lemma getTile_alterTile_ne f x y c x0 y0 :
  (x0, y0) <> (x, y) ->
  City.getTile (City.alterTile f x y c) x0 y0 = City.getTile c x0 y0.
Proof.
  intros Hne. unfold City.getTile, City.alterTile. simpl.
  destruct (decide (x = x0)) as [->|Hx].
  - rewrite list_lookup_alter_eq. destruct (City.tiles c !! x0) as [tcol|]; simpl; [|reflexivity].
    apply list_lookup_alter_ne. congruence.
  - now rewrite list_lookup_alter_ne.
Qed.

Lemma getTile_alterTile_eq f x y c tile :
  City.getTile c x y = Some tile ->
  City.getTile (City.alterTile f x y c) x y = Some (f tile).
Proof.
  unfold City.getTile, City.alterTile. simpl. intros H.
  rewrite list_lookup_alter_eq. destruct (City.tiles c !! x) as [tcol|]; simpl; [|discriminate].
  rewrite list_lookup_alter_eq, H. reflexivity.
Qed.

Lemma slotAt_insert_ne (bs : list (list (option nat))) col x y v x0 y0 :
  bs !! x = Some col -> (x0, y0) <> (x, y) ->
  match <[x := <[y := v]> col]> bs !! x0 with
  | Some c => default None (c !! y0)
  | None => None
  end
  = match bs !! x0 with
    | Some c => default None (c !! y0)
    | None => None
    end.
Proof.
  intros Hcol Hne. destruct (decide (x = x0)) as [->|Hx].
  - rewrite list_lookup_insert_eq by (eapply lookup_lt_Some; eauto). rewrite Hcol.
    rewrite list_lookup_insert_ne; [reflexivity | congruence].
  - now rewrite list_lookup_insert_ne.
Qed.

Lemma slotAt_insert_eq (bs : list (list (option nat))) col x y v old :
  bs !! x = Some col -> col !! y = Some old ->
  match <[x := <[y := v]> col]> bs !! x with
  | Some c => default None (c !! y)
  | None => None
  end = v.
Proof.
  intros Hcol Hy.
  rewrite list_lookup_insert_eq by (eapply lookup_lt_Some; eauto).
  rewrite list_lookup_insert_eq by (eapply lookup_lt_Some; eauto). reflexivity.
Qed.

(** Slots and tiles at other coordinates are not touched. *)
Lemma TileStep_other x y w w' x0 y0 :
  TileStep x y w w' -> (x0, y0) <> (x, y) ->
  slotAt w' x0 y0 = slotAt w x0 y0 /\ tileAt w' x0 y0 = tileAt w x0 y0.
Proof.
  intros Hstep Hne.
  inversion Hstep; subst; unfold slotAt, tileAt; simpl;
    rewrite ?getTile_alterTile_ne by exact Hne;
    rewrite ?(slotAt_insert_ne (buildings w) col x y _ x0 y0) by assumption;
    auto.
Qed.

Lemma TileStep_column x y w w' x0 :
  TileStep x y w w' -> is_Some (buildings w !! x0) -> is_Some (buildings w' !! x0).
Proof.
  intros Hstep Hsome. apply lookup_lt_is_Some. apply lookup_lt_is_Some in Hsome.
  destruct (TileStep_fixed _ _ _ _ Hstep) as (_ & _ & _ & Hlen). lia.
Qed.

(** ** Settled coordinates *)

Lemma set_objs_same w : set_objs (objs w) w = w.
Proof. now destruct w. Qed.

Lemma setVisible_same v : Object3D.setVisible (Object3D.visible v) v = v.
Proof. now destruct v. Qed.

(** At a settled coordinate [applyTile] changes nothing. *)
Lemma applyTile_settled x y w : settled w x y -> applyTile x y w = Ret tt w.
Proof.
  intros ([col Hcol] & (t & tv & Ht & Htv & Hvis) & Hidle).
  rewrite (applyTile_prelude x y w col t tv Hcol Ht Htv).
  assert (terrainWritten x y t tv w = w) as ->.
  { unfold terrainWritten. rewrite <- Hvis, setVisible_same.
    rewrite list_insert_id by exact Htv. apply set_objs_same. }
  now apply reconcile_idle.
Qed.

Lemma terrainAt_written x y t tv w x0 y0 :
  terrainAt (terrainWritten x y t tv w) x0 y0 = terrainAt w x0 y0.
Proof. reflexivity. Qed.

(** After its own step a coordinate is settled. *)
Lemma TileStep_settles x y w w' : TileStep x y w w' -> settled w' x y.
Proof.
  intros Hstep.
  inversion Hstep as [col t tv Hcol Ht Htv Hidle
                     | col t tv m Hcol Ht Htv Hb Hs
                     | col t tv m tile b Hcol Ht Htv Htile Hb Hstale Hs Hname
                     | col t tv m tile b name tid tpl p' new
                         Hcol Ht Htv Htile Hb Hstale Hs Hname Hmesh Htpl Hrefs Hlook];
    subst; unfold settled.
  - split; [simpl; eauto|]. split; [|exact Hidle].
    exists t, (Object3D.setVisible (terrainVisibleFor (tileAt w x y)) tv).
    split; [exact Ht|]. split; [|reflexivity].
    simpl. apply list_lookup_insert_eq. eapply lookup_lt_Some; eauto.
  - split; [simpl; apply lookup_lt_is_Some; rewrite length_insert;
            eapply lookup_lt_Some; eauto|].
    split.
    + exists t, (Object3D.setVisible (terrainVisibleFor (tileAt w x y)) tv).
      split; [exact Ht|]. split; [|reflexivity].
      simpl. apply list_lookup_insert_eq. eapply lookup_lt_Some; eauto.
    + unfold slotAt, buildingAt, tileAt. simpl.
      rewrite (slotAt_insert_eq (buildings w) col x y None (Some m) Hcol
                 (slotAt_Some w x y m col Hcol Hs)).
      fold (tileAt w x y). fold (buildingAt w x y). rewrite Hb. exact I.
  - pose proof (getTile_alterTile_eq
                  (Tile.setBuilding (Some (Building.setIsMeshOutOfDate false b)))
                  x y (city w) tile Htile) as Htile'.
    split; [simpl; apply lookup_lt_is_Some; rewrite length_insert;
            eapply lookup_lt_Some; eauto|].
    split.
    + exists t, (Object3D.setVisible (terrainVisibleFor (tileAt w x y)) tv).
      split; [exact Ht|]. split.
      * simpl. apply list_lookup_insert_eq. eapply lookup_lt_Some; eauto.
      * unfold tileAt. simpl. rewrite Htile'. fold (tileAt w x y). rewrite Htile.
        unfold terrainVisibleFor. simpl. now rewrite Hb.
    + unfold slotAt, buildingAt, tileAt. simpl.
      rewrite (slotAt_insert_eq (buildings w) col x y None (Some m) Hcol
                 (slotAt_Some w x y m col Hcol Hs)).
      rewrite Htile'. exact I.
  - pose proof (getTile_alterTile_eq
                  (Tile.setBuilding (Some (Building.setIsMeshOutOfDate false b)))
                  x y (city w) tile Htile) as Htile'.
    split; [simpl; apply lookup_lt_is_Some; rewrite length_insert;
            eapply lookup_lt_Some; eauto|].
    split.
    + exists t, (Object3D.setVisible (terrainVisibleFor (tileAt w x y)) tv).
      split; [exact Ht|]. split.
      * simpl. rewrite lookup_app_l by (rewrite length_insert; eapply lookup_lt_Some; eauto).
        apply list_lookup_insert_eq. eapply lookup_lt_Some; eauto.
      * unfold tileAt. simpl. rewrite Htile'. fold (tileAt w x y). rewrite Htile.
        unfold terrainVisibleFor. simpl. now rewrite Hb.
    + unfold slotAt, buildingAt, tileAt. simpl.
      rewrite (slotAt_insert_eq (buildings w) col x y _ (Some m) Hcol
                 (slotAt_Some w x y m col Hcol Hs)).
      rewrite Htile'. reflexivity.
Qed.

(** Distinct coordinates have distinct terrain meshes when no mesh
    occurs twice in the terrain array. *)
Lemma terrain_injective (T : list (list nat)) x y x0 y0 t c c0 :
  NoDup (concat T) ->
  T !! x = Some c -> c !! y = Some t ->
  T !! x0 = Some c0 -> c0 !! y0 = Some t ->
  (x0, y0) = (x, y).
Proof.
  revert x x0 c c0. induction T as [|c1 T IH]; intros x x0 c c0 Hnd Hc Hy Hc0 Hy0.
  - discriminate.
  - simpl in Hnd. apply NoDup_app in Hnd as (Hnd1 & Hdisj & Hnd2).
    assert (Hin : forall i c2 j, T !! i = Some c2 -> c2 !! j = Some t -> t ∈ concat T).
    { intros i c2 j Hi Hj. apply list_elem_of_In, in_concat. exists c2.
      split; apply list_elem_of_In; eapply list_elem_of_lookup_2; eauto. }
    destruct x as [|x], x0 as [|x0]; simpl in *.
    + injection Hc as <-. injection Hc0 as <-.
      f_equal. exact (NoDup_lookup c1 y0 y t Hnd1 Hy0 Hy).
    + injection Hc as <-. exfalso. eapply Hdisj; [|eapply Hin; eauto].
      eapply list_elem_of_lookup_2; eauto.
    + injection Hc0 as <-. exfalso. eapply Hdisj; [|eapply Hin; eauto].
      eapply list_elem_of_lookup_2; eauto.
    + specialize (IH x x0 c c0 Hnd2 Hc Hy Hc0 Hy0). congruence.
Qed.

Lemma terrainAt_injective w x y x0 y0 t :
  NoDup (concat (terrain w)) ->
  terrainAt w x y = Some t -> terrainAt w x0 y0 = Some t -> (x0, y0) = (x, y).
Proof.
  unfold terrainAt. intros Hnd H1 H2.
  destruct (terrain w !! x) as [c|] eqn:Hc; [|discriminate].
  destruct (terrain w !! x0) as [c0|] eqn:Hc0; [|discriminate].
  eapply terrain_injective; eauto.
Qed.

(** A step elsewhere leaves a settled coordinate settled. *)
Lemma TileStep_settled_other x y w w' x0 y0 :
  NoDup (concat (terrain w)) ->
  (x0, y0) <> (x, y) ->
  TileStep x y w w' -> settled w x0 y0 -> settled w' x0 y0.
Proof.
  intros Hnd Hne Hstep (Hcol & (t0 & tv0 & Ht0 & Htv0 & Hvis) & Hidle).
  destruct (TileStep_fixed _ _ _ _ Hstep) as (_ & Hterr & _ & _).
  destruct (TileStep_other _ _ _ _ x0 y0 Hstep Hne) as (Hslot & Htile).
  split; [eapply TileStep_column; eauto|]. split.
  - exists t0, tv0. split; [unfold terrainAt; rewrite Hterr; exact Ht0|].
    split; [|rewrite Htile; exact Hvis].
    eapply TileStep_objs; eauto. intros Ht.
    apply Hne. eapply terrainAt_injective; eauto.
  - unfold buildingAt. rewrite Hslot, Htile. exact Hidle.
Qed.

(** ** The whole pass *)

Lemma forEach_map {A B} (g : A -> B) (l : list A) (body : B -> M unit) w :
  forEach (map g l) body w = forEach l (fun a => body (g a)) w.
Proof.
  revert w. induction l as [|a l IH]; intros w; simpl; [reflexivity|].
  unfold bind. destruct (body (g a) w); [apply IH | reflexivity].
Qed.

Lemma forEach_nested (xs ys : list nat) (f : nat -> nat -> M unit) w :
  forEach xs (fun x => forEach ys (fun y => f x y)) w
  = forEach (flat_map (fun x => map (pair x) ys) xs) (fun p => f (fst p) (snd p)) w.
Proof.
  revert w. induction xs as [|x xs IH]; intros w; simpl; [reflexivity|].
  rewrite forEach_app. unfold bind. rewrite forEach_map. simpl.
  destruct (forEach ys (fun y => f x y) w); [apply IH | reflexivity].
Qed.

Lemma applyChanges_coords w :
  applyChanges w
  = forEach (coords (City.size (city w))) (fun p => applyTile (fst p) (snd p)) w.
Proof. unfold applyChanges, bind, gets, coords. apply forEach_nested. Qed.

Lemma elem_of_coords n x y : (x, y) ∈ coords n <-> x < n /\ y < n.
Proof.
  unfold coords. rewrite list_elem_of_In, in_flat_map. split.
  - intros (x' & Hx & Hy). apply in_map_iff in Hy as (y' & E & Hy). injection E as -> ->.
    apply in_seq in Hx, Hy. lia.
  - intros [Hx Hy]. exists x. split; [apply in_seq; lia|].
    apply in_map_iff. exists y. split; [reflexivity | apply in_seq; lia].
Qed.

Lemma NoDup_coords n : NoDup (coords n).
Proof.
  unfold coords.
  assert (H : forall xs ys : list nat, NoDup xs -> NoDup ys ->
                NoDup (flat_map (fun x => map (pair x) ys) xs)).
  { intros xs ys Hxs Hys. induction Hxs as [|x xs Hx Hnd IH]; simpl; [constructor|].
    apply NoDup_app. split; [|split; [|exact IH]].
    - change (NoDup (pair x <$> ys)). apply NoDup_fmap_2; [|exact Hys].
      intros a b E. congruence.
    - intros [a b] Hin Hin'. apply list_elem_of_In, in_map_iff in Hin as (b' & E & _).
      injection E as <- <-.
      apply list_elem_of_In, in_flat_map in Hin' as (x' & Hx' & Hin').
      apply in_map_iff in Hin' as (b'' & E & _). injection E as -> _.
      apply Hx. now apply list_elem_of_In. }
  apply H; apply NoDup_seq.
Qed.

Lemma forEach_Steps l w w' :
  storeOk w ->
  forEach l (fun p => applyTile (fst p) (snd p)) w = Ret tt w' ->
  Steps l w w'.
Proof.
  revert w. induction l as [|[x y] l IH]; intros w Hok Hrun; simpl in Hrun.
  - injection Hrun as <-. constructor.
  - apply bind_Ret_inv in Hrun as ([] & w1 & Hstep & Hrest).
    apply applyTile_TileStep in Hstep; [|exact Hok].
    econstructor; [exact Hstep|]. apply IH; [|exact Hrest].
    eapply TileStep_storeOk; eauto.
Qed.

Lemma Steps_fixed l w w' :
  Steps l w w' ->
  meshes w' = meshes w /\ terrain w' = terrain w /\
  City.size (city w') = City.size (city w) /\
  length (buildings w') = length (buildings w).
Proof.
  induction 1 as [w | x y l w w1 w2 Hstep _ IH]; [auto|].
  destruct (TileStep_fixed _ _ _ _ Hstep) as (? & ? & ? & ?).
  destruct IH as (? & ? & ? & ?). repeat split; congruence.
Qed.

Lemma Steps_storeOk l w w' : storeOk w -> Steps l w w' -> storeOk w'.
Proof.
  intros Hok H. induction H as [w | x y l w w1 w2 Hstep _ IH]; [exact Hok|].
  apply IH. eapply TileStep_storeOk; eauto.
Qed.

(** After a run over distinct coordinates all of them are settled, and
    so is every coordinate that was settled and not visited. *)
Lemma Steps_settled l w w' :
  Steps l w w' -> NoDup l -> NoDup (concat (terrain w)) ->
  (forall x y, (x, y) ∈ l -> settled w' x y) /\
  (forall x y, (x, y) ∉ l -> settled w x y -> settled w' x y).
Proof.
  induction 1 as [w | x y l w w1 w2 Hstep _ IH]; intros Hnd Hterr.
  - split; [|auto]. intros x y Hin. inversion Hin.
  - apply NoDup_cons in Hnd as [Hnotin Hnd].
    destruct (TileStep_fixed _ _ _ _ Hstep) as (_ & Hsame & _ & _).
    destruct IH as [IHin IHout]; [exact Hnd | rewrite Hsame; exact Hterr|].
    split.
    + intros x0 y0 Hin. apply elem_of_cons in Hin as [E|Hin].
      * injection E as -> ->. apply IHout; [exact Hnotin|].
        eapply TileStep_settles; eauto.
      * now apply IHin.
    + intros x0 y0 Hout Hset. apply not_elem_of_cons in Hout as [Hne Hout].
      apply IHout; [exact Hout|]. eapply TileStep_settled_other; eauto.
Qed.

Lemma forEach_unchanged {A} (l : list A) (body : A -> M unit) w :
  (forall a, a ∈ l -> body a w = Ret tt w) -> forEach l body w = Ret tt w.
Proof.
  induction l as [|a l IH]; intros H; simpl; [reflexivity|].
  erewrite bind_Ret by (apply H; left). apply IH. intros a' Ha'. apply H. now right.
Qed.

(** When every coordinate of the city is settled, the pass changes
    nothing. *)
Lemma applyChanges_settled w :
  (forall x y, x < City.size (city w) -> y < City.size (city w) -> settled w x y) ->
  applyChanges w = Ret tt w.
Proof.
  intros H. rewrite applyChanges_coords. apply forEach_unchanged.
  intros [x y] Hin. apply elem_of_coords in Hin as [Hx Hy]. simpl.
  apply applyTile_settled. now apply H.
Qed.

(** C5.  In a scene whose objects refer to allocated materials and whose
    terrain array holds every mesh once, a second [applyChanges] right
    after a returning first one returns the state unchanged: the same
    root children, slots, objects and materials, and no call issued (no
    root add or remove, no [updateTile]). *)
Theorem applyChanges_twice w w1 :
  storeOk w ->
  NoDup (concat (terrain w)) ->
  applyChanges w = Ret tt w1 ->
  applyChanges w1 = Ret tt w1.
Proof.
  intros Hok Hterr Hrun. rewrite applyChanges_coords in Hrun.
  apply forEach_Steps in Hrun; [|exact Hok].
  destruct (Steps_fixed _ _ _ Hrun) as (_ & _ & Hsize & _).
  destruct (Steps_settled _ _ _ Hrun (NoDup_coords _) Hterr) as [Hin _].
  apply applyChanges_settled. intros x y Hx Hy. apply Hin.
  apply elem_of_coords. rewrite <- Hsize. auto.
Qed.

(** The theorem above on the sample scene. *)
Lemma applyChanges_twice_witness :
  storeOk Sample.scene /\
  NoDup (concat (terrain Sample.scene)) /\
  exists w1,
    applyChanges Sample.scene = Ret tt w1 /\
    applyChanges w1 = Ret tt w1.
Proof.
  assert (Hok : storeOk Sample.scene).
  { unfold storeOk. simpl. repeat (constructor; try lia). }
  assert (Hnd : NoDup (concat (terrain Sample.scene))).
  { simpl. repeat (constructor; [rewrite ?elem_of_cons, elem_of_nil; lia|]). constructor. }
  split; [exact Hok|]. split; [exact Hnd|].
  eexists. split; [vm_compute; reflexivity|].
  apply (applyChanges_twice Sample.scene _ Hok Hnd).
  vm_compute. reflexivity.
Defined.

(** ** A change at one tile *)

(** When only [(x0, y0)] has work to do, the pass is the step at
    [(x0, y0)]. *)
Lemma applyChanges_single_step w x0 y0 :
  storeOk w ->
  NoDup (concat (terrain w)) ->
  x0 < City.size (city w) -> y0 < City.size (city w) ->
  (forall x y, x < City.size (city w) -> y < City.size (city w) ->
               (x, y) <> (x0, y0) -> settled w x y) ->
  ready w x0 y0 ->
  exists w', applyChanges w = Ret tt w' /\ TileStep x0 y0 w w'.
Proof.
  intros Hok Hterr Hx0 Hy0 Hsettled Hready.
  destruct (applyTile_total x0 y0 w Hok Hready) as [w' Hrun].
  pose proof (applyTile_TileStep _ _ _ _ Hok Hrun) as Hstep.
  exists w'. split; [|exact Hstep].
  rewrite applyChanges_coords.
  assert (Hin : (x0, y0) ∈ coords (City.size (city w))) by now apply elem_of_coords.
  apply list_elem_of_split in Hin as (l1 & l2 & Hsplit).
  pose proof (NoDup_coords (City.size (city w))) as Hnd. rewrite Hsplit in *.
  apply NoDup_app in Hnd as (_ & Hdisj & Hnd2). apply NoDup_cons in Hnd2 as [Hnot2 _].
  assert (Hrange : forall x y, (x, y) ∈ l1 ++ (x0, y0) :: l2 ->
                     x < City.size (city w) /\ y < City.size (city w)).
  { intros x y Hin. rewrite <- Hsplit in Hin. now apply elem_of_coords. }
  rewrite forEach_app. erewrite bind_Ret.
  2:{ apply forEach_unchanged. intros [x y] Hin. simpl. apply applyTile_settled.
      destruct (Hrange x y) as [Hx Hy]; [apply elem_of_app; now left|].
      apply Hsettled; auto. intros E. injection E as -> ->.
      apply (Hdisj _ Hin). left. }
  simpl. erewrite bind_Ret by exact Hrun.
  apply forEach_unchanged. intros [x y] Hin. simpl. apply applyTile_settled.
  destruct (Hrange x y) as [Hx Hy]; [apply elem_of_app; right; now right|].
  assert (Hne : (x, y) <> (x0, y0)) by (intros E; injection E as -> ->; contradiction).
  eapply TileStep_settled_other; eauto.
Qed.

(** A returning pass with work at one coordinate only. *)
Lemma single_change_returns w x0 y0 m :
  storeOk w ->
  NoDup (concat (terrain w)) ->
  x0 < City.size (city w) -> y0 < City.size (city w) ->
  (forall x y, x < City.size (city w) -> y < City.size (city w) ->
               (x, y) <> (x0, y0) -> settled w x y) ->
  ready w x0 y0 ->
  slotAt w x0 y0 = Some m ->
  match buildingAt w x0 y0 with
  | Some b => Building.isMeshOutOfDate b = true
  | None => True
  end ->
  exists w',
    applyChanges w = Ret tt w' /\
    match buildingAt w x0 y0 with
    | None =>
        calls w' = calls w ++ [RootRemove m; UpdateTile x0 y0 None] /\
        root w' = removeFirst m (root w) /\
        slotAt w' x0 y0 = None /\
        length (objs w') = length (objs w)
    | Some b =>
        exists b',
          buildingAt w' x0 y0 = Some b' /\
          Building.isMeshOutOfDate b' = false /\
          sameButStale b b' /\
          match modelNameOf b with
          | Some _ =>
              let m' := length (objs w) in
              calls w'
              = calls w ++ [RootRemove m; RootAdd m']
                  ++ (if isRoadType (Building.type b)
                      then [UpdateTile x0 y0 (Some b')]
                      else []) /\
              root w' = removeFirst m' (removeFirst m (root w)) ++ [m'] /\
              slotAt w' x0 y0 = Some m' /\
              length (objs w') = S (length (objs w))
          | None =>
              calls w'
              = calls w ++ [RootRemove m;
                            ConsoleWarn ("Mesh type " +:+ Building.type b
                                         +:+ " is not recognized.");
                            ConsoleError
                              "THREE.Object3D.add: object not an instance of THREE.Object3D."] /\
              root w' = removeFirst m (root w) /\
              slotAt w' x0 y0 = None /\
              length (objs w') = length (objs w)
          end
    end /\
    othersKept x0 y0 w w'.
Proof.
  intros Hok Hterr Hx0 Hy0 Hsettled Hready Hslot Hwork.
  destruct (applyChanges_single_step w x0 y0 Hok Hterr Hx0 Hy0 Hsettled Hready)
    as (w' & Hrun & Hstep).
  exists w'. split; [exact Hrun|]. split.
  2:{ split; [intros x y Hne; now apply (TileStep_other _ _ _ _ x y Hstep)|].
      split; [intros o v Ho Hne; eapply TileStep_objs; eauto|].
      eapply TileStep_mats; eauto. }
  inversion Hstep as [col t tv Hcol Ht Htv Hidle
                     | col t tv m0 Hcol Ht Htv Hb Hs
                     | col t tv m0 tile b Hcol Ht Htv Htile Hb Hstale Hs Hname
                     | col t tv m0 tile b name tid tpl p' new
                         Hcol Ht Htv Htile Hb Hstale Hs Hname Hmesh Htpl Hrefs Hlook];
    subst.
  - exfalso. unfold nothingToDo in Hidle. rewrite Hslot in Hidle.
    destruct (buildingAt w x0 y0); [congruence | exact Hidle].
  - rewrite Hb. rewrite Hslot in Hs. injection Hs as <-.
    unfold slotAt. simpl. rewrite length_insert.
    rewrite (slotAt_insert_eq (buildings w) col x0 y0 None (Some m) Hcol
               (slotAt_Some w x0 y0 m col Hcol Hslot)). auto.
  - assert (Hb' : buildingAt (dropped x0 y0 col m0 b (terrainWritten x0 y0 t tv w)) x0 y0
                  = Some (Building.setIsMeshOutOfDate false b)).
    { unfold buildingAt, tileAt, dropped. simpl.
      erewrite getTile_alterTile_eq by exact Htile. reflexivity. }
    unfold buildingAt at 1. rewrite Htile. simpl buildingOf. rewrite Hb.
    exists (Building.setIsMeshOutOfDate false b).
    split; [exact Hb'|]. split; [reflexivity|].
    split; [unfold sameButStale; simpl; auto 10|].
    rewrite Hname. rewrite Hslot in Hs. injection Hs as <-.
    unfold slotAt. simpl. rewrite length_insert.
    rewrite (slotAt_insert_eq (buildings w) col x0 y0 None (Some m) Hcol
               (slotAt_Some w x0 y0 m col Hcol Hslot)). auto.
  - match goal with |- context [rebuilt x0 y0 col m0 b ?v new ?wt] =>
      assert (Hb' : buildingAt (rebuilt x0 y0 col m0 b v new wt) x0 y0
                    = Some (Building.setIsMeshOutOfDate false b)) end.
    { unfold buildingAt, tileAt, rebuilt. simpl.
      erewrite getTile_alterTile_eq by exact Htile. reflexivity. }
    unfold buildingAt at 1. rewrite Htile. simpl buildingOf. rewrite Hb.
    exists (Building.setIsMeshOutOfDate false b).
    split; [exact Hb'|]. split; [reflexivity|].
    split; [unfold sameButStale; simpl; auto 10|].
    rewrite Hname. rewrite Hslot in Hs. injection Hs as <-.
    unfold slotAt. simpl. rewrite length_app, !length_insert. simpl.
    rewrite (slotAt_insert_eq (buildings w) col x0 y0 _ (Some m) Hcol
               (slotAt_Some w x0 y0 m col Hcol Hslot)).
    repeat split; auto. lia.
Qed.

(** The step at a coordinate whose stale building has no model in the
    catalog: the terrain write, the root remove, then the exception of
    [cloneMesh]. *)
Lemma applyTile_absent x y w tile b m name col t tv :
  buildings w !! x = Some col ->
  terrainAt w x y = Some t ->
  objs w !! t = Some tv ->
  tileAt w x y = Some tile ->
  Tile.building tile = Some b ->
  Building.isMeshOutOfDate b = true ->
  slotAt w x y = Some m ->
  modelNameOf b = Some name ->
  meshes w !! name = None ->
  applyTile x y w
  = Throw (TypeError "Cannot read properties of undefined (reading 'clone')")
      (set_root (removeFirst m (root w))
         (set_calls (calls w ++ [RootRemove m]) (terrainWritten x y t tv w))).
Proof.
  intros Hcol Ht Htv Htile Hb Hstale Hslot Hname Habs.
  rewrite (applyTile_prelude x y w col t tv Hcol Ht Htv). rewrite Htile, Hslot.
  unfold reconcile. change (buildingOf (Some tile)) with (Tile.building tile).
  rewrite Hb, Hstale. unfold when at 1.
  erewrite bind_Ret by reflexivity.
  erewrite bind_Ret by reflexivity.
  apply bind_Throw. now apply (createBuildingMesh_absent tile b name).
Qed.

(** A pass with work at one coordinate only, where the model of the
    stale building is not loaded: the pass throws after the remove. *)
Lemma single_change_throws w x0 y0 m b name :
  x0 < City.size (city w) -> y0 < City.size (city w) ->
  (forall x y, x < City.size (city w) -> y < City.size (city w) ->
               (x, y) <> (x0, y0) -> settled w x y) ->
  is_Some (buildings w !! x0) ->
  (exists t, terrainAt w x0 y0 = Some t /\ is_Some (objs w !! t)) ->
  slotAt w x0 y0 = Some m ->
  buildingAt w x0 y0 = Some b ->
  Building.isMeshOutOfDate b = true ->
  modelNameOf b = Some name ->
  meshes w !! name = None ->
  exists w',
    applyChanges w
    = Throw (TypeError "Cannot read properties of undefined (reading 'clone')") w' /\
    calls w' = calls w ++ [RootRemove m] /\
    root w' = removeFirst m (root w) /\
    slotAt w' x0 y0 = Some m /\
    buildingAt w' x0 y0 = Some b /\
    length (objs w') = length (objs w) /\
    othersKept x0 y0 w w'.
Proof.
  intros Hx0 Hy0 Hsettled [col Hcol] (t & Ht & [tv Htv]) Hslot Hb Hstale Hname Habs.
  assert (Htile : exists tile, tileAt w x0 y0 = Some tile /\ Tile.building tile = Some b).
  { unfold buildingAt in Hb. destruct (tileAt w x0 y0) as [tile|]; [|discriminate]. eauto. }
  destruct Htile as (tile & Htile & Hbuilding).
  pose proof (applyTile_absent x0 y0 w tile b m name col t tv
                Hcol Ht Htv Htile Hbuilding Hstale Hslot Hname Habs) as Hthrow.
  eexists. split.
  { rewrite applyChanges_coords.
    assert (Hin : (x0, y0) ∈ coords (City.size (city w))) by now apply elem_of_coords.
    apply list_elem_of_split in Hin as (l1 & l2 & Hsplit).
    pose proof (NoDup_coords (City.size (city w))) as Hnd. rewrite Hsplit in *.
    apply NoDup_app in Hnd as (_ & Hdisj & _).
    assert (Hrange : forall x y, (x, y) ∈ l1 ++ (x0, y0) :: l2 ->
                       x < City.size (city w) /\ y < City.size (city w)).
    { intros x y Hin. rewrite <- Hsplit in Hin. now apply elem_of_coords. }
    rewrite forEach_app. erewrite bind_Ret.
    2:{ apply forEach_unchanged. intros [x y] Hin. simpl. apply applyTile_settled.
        destruct (Hrange x y) as [Hx Hy]; [apply elem_of_app; now left|].
        apply Hsettled; auto. intros E. injection E as -> ->.
        apply (Hdisj _ Hin). left. }
    simpl. apply bind_Throw. exact Hthrow. }
  simpl. split; [reflexivity|]. split; [reflexivity|].
  split; [exact Hslot|]. split; [exact Hb|].
  split; [now rewrite length_insert|].
  unfold othersKept, terrainWritten. simpl.
  split; [reflexivity|]. split.
  - intros o v Ho Hne. rewrite list_lookup_insert_ne; [exact Ho | congruence].
  - exists []. now rewrite app_nil_r.
Qed.

(** C6, as the code has it.  In a scene where every coordinate but
    [(x0, y0)] is settled, the reads at [(x0, y0)] go through and the
    slot of [(x0, y0)] holds instance [m]: if the tile has lost its
    building, the pass issues one root remove of [m] and the
    [updateTile] with null.  If the building is stale and of a recognised
    kind, then with its model loaded the pass issues one remove of [m]
    followed by one add of the new instance and leaves the flag false,
    and with its model missing it issues the remove of [m] and throws:
    nothing is added, the slot still holds [m] and the flag is still
    set.  If the building is stale and of an unrecognised kind, the pass
    issues one remove of [m] and no add (a warning and the console error
    of adding null), and leaves the slot empty and the flag false.  In
    every case the slots at other coordinates, all existing objects
    other than the tile's own terrain mesh, and all existing materials
    keep their values. *)
Theorem applyChanges_single_change w x0 y0 m :
  storeOk w ->
  NoDup (concat (terrain w)) ->
  x0 < City.size (city w) -> y0 < City.size (city w) ->
  (forall x y, x < City.size (city w) -> y < City.size (city w) ->
               (x, y) <> (x0, y0) -> settled w x y) ->
  is_Some (buildings w !! x0) ->
  (exists t, terrainAt w x0 y0 = Some t /\ is_Some (objs w !! t)) ->
  slotAt w x0 y0 = Some m ->
  match buildingAt w x0 y0 with
  | Some b => Building.isMeshOutOfDate b = true
  | None => True
  end ->
  match buildingAt w x0 y0 with
  | None =>
      exists w',
        applyChanges w = Ret tt w' /\
        calls w' = calls w ++ [RootRemove m; UpdateTile x0 y0 None] /\
        root w' = removeFirst m (root w) /\
        slotAt w' x0 y0 = None /\
        length (objs w') = length (objs w) /\
        othersKept x0 y0 w w'
  | Some b =>
      match modelNameOf b with
      | Some name =>
          (modelReady w b ->
           exists w' b',
             applyChanges w = Ret tt w' /\
             calls w'
             = calls w ++ [RootRemove m; RootAdd (length (objs w))]
                 ++ (if isRoadType (Building.type b)
                     then [UpdateTile x0 y0 (Some b')]
                     else []) /\
             root w'
             = removeFirst (length (objs w)) (removeFirst m (root w)) ++ [length (objs w)] /\
             slotAt w' x0 y0 = Some (length (objs w)) /\
             length (objs w') = S (length (objs w)) /\
             buildingAt w' x0 y0 = Some b' /\
             Building.isMeshOutOfDate b' = false /\
             sameButStale b b' /\
             othersKept x0 y0 w w') /\
          (meshes w !! name = None ->
           exists w',
             applyChanges w
             = Throw (TypeError "Cannot read properties of undefined (reading 'clone')") w' /\
             calls w' = calls w ++ [RootRemove m] /\
             root w' = removeFirst m (root w) /\
             slotAt w' x0 y0 = Some m /\
             buildingAt w' x0 y0 = Some b /\
             length (objs w') = length (objs w) /\
             othersKept x0 y0 w w')
      | None =>
          exists w' b',
            applyChanges w = Ret tt w' /\
            calls w'
            = calls w ++ [RootRemove m;
                          ConsoleWarn ("Mesh type " +:+ Building.type b
                                       +:+ " is not recognized.");
                          ConsoleError
                            "THREE.Object3D.add: object not an instance of THREE.Object3D."] /\
            root w' = removeFirst m (root w) /\
            slotAt w' x0 y0 = None /\
            length (objs w') = length (objs w) /\
            buildingAt w' x0 y0 = Some b' /\
            Building.isMeshOutOfDate b' = false /\
            sameButStale b b' /\
            othersKept x0 y0 w w'
      end
  end.
Proof.
  intros Hok Hterr Hx0 Hy0 Hsettled Hcol Hter Hslot Hwork.
  assert (Hrun : (forall b, buildingAt w x0 y0 = Some b -> modelReady w b) ->
                 exists w',
                   applyChanges w = Ret tt w' /\
                   match buildingAt w x0 y0 with
                   | None =>
                       calls w' = calls w ++ [RootRemove m; UpdateTile x0 y0 None] /\
                       root w' = removeFirst m (root w) /\
                       slotAt w' x0 y0 = None /\
                       length (objs w') = length (objs w)
                   | Some b =>
                       exists b',
                         buildingAt w' x0 y0 = Some b' /\
                         Building.isMeshOutOfDate b' = false /\
                         sameButStale b b' /\
                         match modelNameOf b with
                         | Some _ =>
                             let m' := length (objs w) in
                             calls w'
                             = calls w ++ [RootRemove m; RootAdd m']
                                 ++ (if isRoadType (Building.type b)
                                     then [UpdateTile x0 y0 (Some b')]
                                     else []) /\
                             root w' = removeFirst m' (removeFirst m (root w)) ++ [m'] /\
                             slotAt w' x0 y0 = Some m' /\
                             length (objs w') = S (length (objs w))
                         | None =>
                             calls w'
                             = calls w ++ [RootRemove m;
                                           ConsoleWarn ("Mesh type " +:+ Building.type b
                                                        +:+ " is not recognized.");
                                           ConsoleError
                                             "THREE.Object3D.add: object not an instance of THREE.Object3D."] /\
                             root w' = removeFirst m (root w) /\
                             slotAt w' x0 y0 = None /\
                             length (objs w') = length (objs w)
                         end
                   end /\
                   othersKept x0 y0 w w').
  { intros Hmodel.
    apply (single_change_returns w x0 y0 m Hok Hterr Hx0 Hy0 Hsettled); auto.
    split; [exact Hcol|]. split; [exact Hter|]. intros b Hb _ _. auto. }
  destruct (buildingAt w x0 y0) as [b|] eqn:Hb.
  - destruct (modelNameOf b) as [name|] eqn:Hname.
    + split.
      * intros Hmodel.
        destruct Hrun as (w' & Hret & (b' & Hb' & Hflag & Hsame & Hc & Hr & Hs & Hl) & Hkept).
        { intros b0 [= <-]. exact Hmodel. }
        exists w', b'. auto 10.
      * intros Habs.
        apply (single_change_throws w x0 y0 m b name); auto.
    + destruct Hrun as (w' & Hret & (b' & Hb' & Hflag & Hsame & Hc & Hr & Hs & Hl) & Hkept).
      { intros b0 [= <-]. unfold modelReady. now rewrite Hname. }
      exists w', b'. auto 10.
  - destruct Hrun as (w' & Hret & (Hc & Hr & Hs & Hl) & Hkept).
    { intros b0 Hb0. discriminate. }
    exists w'. auto 10.
Qed.

(** Closes [settled] at a concrete coordinate of a concrete scene. *)
Ltac settle :=
  split; [eexists; reflexivity|];
  split; [eexists _, _; split; [reflexivity | split; reflexivity]|];
  first [exact I | reflexivity].

(** The theorem above for the sample scene whose road at (0, 0) was
    flagged stale after a pass, with the road model loaded. *)
Lemma applyChanges_single_change_witness :
  exists w' b',
    applyChanges Sample.roadFlagged = Ret tt w' /\
    calls w'
    = calls Sample.roadFlagged ++ [RootRemove 10; RootAdd 12]
        ++ [UpdateTile 0 0 (Some b')] /\
    root w' = removeFirst 12 (removeFirst 10 (root Sample.roadFlagged)) ++ [12] /\
    slotAt w' 0 0 = Some 12 /\
    length (objs w') = 13 /\
    buildingAt w' 0 0 = Some b' /\
    Building.isMeshOutOfDate b' = false /\
    sameButStale Sample.staleRoad b' /\
    othersKept 0 0 Sample.roadFlagged w'.
Proof.
  assert (Hok : storeOk Sample.roadFlagged).
  { unfold storeOk. simpl. repeat (constructor; try lia). }
  assert (Hnd : NoDup (concat (terrain Sample.roadFlagged))).
  { simpl. repeat (constructor; [rewrite ?elem_of_cons, elem_of_nil; lia|]). constructor. }
  assert (Hsettled : forall x y, x < City.size (city Sample.roadFlagged) ->
                                 y < City.size (city Sample.roadFlagged) ->
                                 (x, y) <> (0, 0) -> settled Sample.roadFlagged x y).
  { simpl. intros x y Hx Hy Hne.
    destruct x as [|[|x]], y as [|[|y]]; try lia; try congruence; settle. }
  refine (proj1 (applyChanges_single_change Sample.roadFlagged 0 0 10 Hok Hnd
                   _ _ Hsettled _ _ eq_refl eq_refl) _).
  - simpl. lia.
  - simpl. lia.
  - eexists. reflexivity.
  - eexists. split; [reflexivity | eexists; reflexivity].
  - exists 1, (Object3D.mk (Node (Some 1) []) (0, 0, 0)%Z 0%Z true None).
    split; [reflexivity|]. split; [reflexivity|]. intros H. discriminate H.
Defined.

(** C6 as stated fails for a stale building of an unrecognised kind:
    after the road at (0, 0) of the synced sample scene was replaced by a
    park, the pass removes the cached road instance 10 and adds nothing;
    the slot is left empty. *)
Lemma stale_unrecognised_adds_nothing :
  exists w',
    applyChanges Sample.parkPlaced = Ret tt w' /\
    slotAt Sample.parkPlaced 0 0 = Some 10 /\
    root Sample.parkPlaced = [3; 4; 5; 6; 10; 11] /\
    calls w'
    = [RootRemove 10;
       ConsoleWarn "Mesh type park is not recognized.";
       ConsoleError "THREE.Object3D.add: object not an instance of THREE.Object3D."] /\
    root w' = [3; 4; 5; 6; 11] /\
    slotAt w' 0 0 = None /\
    length (objs w') = length (objs Sample.parkPlaced).
Proof. eexists. split; [vm_compute; reflexivity|]. vm_compute. auto 10. Qed.

(** ** Runs over several coordinates *)

Lemma TileStep_calls x y w w' : TileStep x y w w' -> exists c, calls w' = calls w ++ c.
Proof.
  intros Hstep. inversion Hstep; subst; simpl; eauto.
  exists []. now rewrite app_nil_r.
Qed.

Lemma TileStep_length x y w w' : TileStep x y w w' -> length (objs w) <= length (objs w').
Proof.
  intros Hstep. inversion Hstep; subst; simpl; rewrite ?length_app, ?length_insert; lia.
Qed.

Lemma Steps_calls l w w' : Steps l w w' -> exists c, calls w' = calls w ++ c.
Proof.
  induction 1 as [w | x y l w w1 w2 Hstep _ IH].
  - exists []. now rewrite app_nil_r.
  - destruct (TileStep_calls _ _ _ _ Hstep) as [c1 H1]. destruct IH as [c2 H2].
    exists (c1 ++ c2). now rewrite H2, H1, app_assoc.
Qed.

Lemma Steps_mats l w w' : Steps l w w' -> exists extra, mats w' = mats w ++ extra.
Proof.
  induction 1 as [w | x y l w w1 w2 Hstep _ IH].
  - exists []. now rewrite app_nil_r.
  - destruct (TileStep_mats _ _ _ _ Hstep) as [c1 H1]. destruct IH as [c2 H2].
    exists (c1 ++ c2). now rewrite H2, H1, app_assoc.
Qed.

Lemma Steps_length l w w' : Steps l w w' -> length (objs w) <= length (objs w').
Proof.
  induction 1 as [w | x y l w w1 w2 Hstep _ IH]; [lia|].
  pose proof (TileStep_length _ _ _ _ Hstep). lia.
Qed.

Lemma Steps_other l w w' x0 y0 :
  Steps l w w' -> (x0, y0) ∉ l ->
  slotAt w' x0 y0 = slotAt w x0 y0 /\ tileAt w' x0 y0 = tileAt w x0 y0.
Proof.
  induction 1 as [w | x y l w w1 w2 Hstep _ IH]; intros Hnot; [auto|].
  apply not_elem_of_cons in Hnot as [Hne Hnot].
  destruct (TileStep_other _ _ _ _ x0 y0 Hstep Hne) as [H1 H2].
  destruct (IH Hnot) as [H3 H4]. split; congruence.
Qed.

Lemma Steps_parts l w w' o v :
  Steps l w w' -> objs w !! o = Some v ->
  exists v', objs w' !! o = Some v' /\ Object3D.part v' = Object3D.part v.
Proof.
  intros H. revert v. induction H as [w | x y l w w1 w2 Hstep _ IH]; intros v Ho; [eauto|].
  destruct (TileStep_parts _ _ _ _ o v Hstep Ho) as (v1 & Hv1 & Hp1).
  destruct (IH v1 Hv1) as (v2 & Hv2 & Hp2). exists v2. split; [exact Hv2 | congruence].
Qed.

(** An object that is the terrain mesh of none of the visited
    coordinates keeps its value. *)
Lemma Steps_objs l w w' o v :
  Steps l w w' -> objs w !! o = Some v ->
  (forall x y, (x, y) ∈ l -> terrainAt w x y <> Some o) ->
  objs w' !! o = Some v.
Proof.
  induction 1 as [w | x y l w w1 w2 Hstep _ IH]; intros Ho Hterr; [exact Ho|].
  destruct (TileStep_fixed _ _ _ _ Hstep) as (_ & Hsame & _ & _).
  apply IH.
  - eapply TileStep_objs; eauto. apply Hterr. left.
  - intros x' y' Hin. unfold terrainAt. rewrite Hsame. apply Hterr. now right.
Qed.

Lemma Steps_split l1 x y l2 w w' :
  Steps (l1 ++ (x, y) :: l2) w w' ->
  exists wa wb, Steps l1 w wa /\ TileStep x y wa wb /\ Steps l2 wb w'.
Proof.
  revert w. induction l1 as [|[x1 y1] l1 IH]; intros w H; simpl in H.
  - inversion H; subst. eexists _, _. split; [constructor|]. eauto.
  - inversion H as [|? ? ? ? w1 ? Hstep Hrest]; subst.
    destruct (IH _ Hrest) as (wa & wb & H1 & H2 & H3).
    exists wa, wb. split; [econstructor; eauto | auto].
Qed.

(** A step elsewhere keeps a coordinate ready. *)
Lemma TileStep_ready_other x y w w' x0 y0 :
  (x0, y0) <> (x, y) -> TileStep x y w w' -> ready w x0 y0 -> ready w' x0 y0.
Proof.
  intros Hne Hstep (Hcol & (t0 & Ht0 & [tv0 Htv0]) & Hmodel).
  destruct (TileStep_fixed _ _ _ _ Hstep) as (Hmeshes & Hterr & _ & _).
  destruct (TileStep_other _ _ _ _ x0 y0 Hstep Hne) as (Hslot & Htile).
  split; [eapply TileStep_column; eauto|]. split.
  - exists t0. split; [unfold terrainAt; rewrite Hterr; exact Ht0|].
    destruct (TileStep_parts _ _ _ _ t0 tv0 Hstep Htv0) as (v' & Hv' & _). eauto.
  - unfold buildingAt. rewrite Hslot, Htile. intros b Hb Hstale Hs.
    specialize (Hmodel b Hb Hstale Hs). unfold modelReady in *.
    destruct (modelNameOf b) as [name|]; [|exact I].
    destruct Hmodel as (tid & tpl & Hm & Ho & Htint).
    destruct (TileStep_parts _ _ _ _ tid tpl Hstep Ho) as (tpl' & Ho' & Hp).
    exists tid, tpl'. rewrite Hmeshes, Hp. auto.
Qed.

(** Over distinct ready coordinates the loop returns. *)
Lemma forEach_ready l :
  forall w, storeOk w -> NoDup l ->
    (forall x y, (x, y) ∈ l -> ready w x y) ->
    exists w', forEach l (fun p => applyTile (fst p) (snd p)) w = Ret tt w'.
Proof.
  induction l as [|[x y] l IH]; intros w Hok Hnd Hready; simpl.
  - eexists. reflexivity.
  - apply NoDup_cons in Hnd as [Hnot Hnd].
    destruct (applyTile_total x y w Hok (Hready x y ltac:(left))) as [w1 Hrun].
    pose proof (applyTile_TileStep _ _ _ _ Hok Hrun) as Hstep.
    erewrite bind_Ret by exact Hrun. apply IH; [|exact Hnd|].
    + eapply TileStep_storeOk; eauto.
    + intros x' y' Hin. eapply TileStep_ready_other; eauto.
      * intros E. injection E as -> ->. contradiction.
      * apply Hready. now right.
Qed.

(** In a scene ready at every coordinate of the city the pass returns. *)
Lemma applyChanges_total w :
  storeOk w ->
  (forall x y, x < City.size (city w) -> y < City.size (city w) -> ready w x y) ->
  exists w', applyChanges w = Ret tt w'.
Proof.
  intros Hok Hready. rewrite applyChanges_coords.
  apply forEach_ready; [exact Hok | apply NoDup_coords|].
  intros x y Hin. apply elem_of_coords in Hin as [Hx Hy]. auto.
Qed.

(** ** The children of the root *)

Lemma elem_of_removeFirst a b l : a ∈ removeFirst b l -> a ∈ l.
Proof.
  induction l as [|c l IH]; simpl; [auto|].
  destruct (decide (c = b)); intros H; [now right|].
  apply elem_of_cons in H as [->|H]; [left | right; auto].
Qed.

Lemma elem_of_removeFirst_ne a b l : a <> b -> a ∈ l -> a ∈ removeFirst b l.
Proof.
  intros Hne. induction l as [|c l IH]; simpl; [auto|].
  intros H. apply elem_of_cons in H as [->|H].
  - destruct (decide (c = b)); [congruence | left].
  - destruct (decide (c = b)); [exact H | right; auto].
Qed.

Lemma NoDup_removeFirst b l : NoDup l -> NoDup (removeFirst b l).
Proof.
  induction 1 as [|c l Hc Hnd IH]; simpl; [constructor|].
  destruct (decide (c = b)); [exact Hnd|].
  constructor; [|exact IH]. intros H. apply Hc. eapply elem_of_removeFirst; eauto.
Qed.

Lemma removeFirst_gone b l : NoDup l -> b ∉ removeFirst b l.
Proof.
  induction 1 as [|c l Hc Hnd IH]; simpl; [intros H; inversion H|].
  destruct (decide (c = b)) as [->|Hne]; [exact Hc|].
  intros H. apply elem_of_cons in H as [->|H]; [congruence | contradiction].
Qed.

Lemma TileStep_root_NoDup x y w w' : TileStep x y w w' -> NoDup (root w) -> NoDup (root w').
Proof.
  intros Hstep Hnd. inversion Hstep; subst; simpl; auto using NoDup_removeFirst.
  apply NoDup_app. split; [auto using NoDup_removeFirst|]. split; [|apply NoDup_singleton].
  intros a Ha Ha'. apply list_elem_of_singleton in Ha'. subst a.
  revert Ha. apply removeFirst_gone. auto using NoDup_removeFirst.
Qed.

(** A child of the root that is not the cached instance of the tile
    stays a child. *)
Lemma TileStep_root_stays x y w w' a :
  TileStep x y w w' -> a ∈ root w -> slotAt w x y <> Some a -> a ∈ root w'.
Proof.
  intros Hstep Ha Hslot.
  inversion Hstep; subst; simpl; auto;
    try solve [apply elem_of_removeFirst_ne; [congruence | exact Ha]].
  apply elem_of_app.
  match goal with |- context [removeFirst ?n (removeFirst _ _)] =>
    destruct (decide (a = n)) as [->|Hne] end.
  - right. left.
  - left. apply elem_of_removeFirst_ne; [exact Hne|].
    apply elem_of_removeFirst_ne; [congruence | exact Ha].
Qed.

(** An existing object that is not a child of the root does not become
    one. *)
Lemma TileStep_root_out x y w w' a :
  TileStep x y w w' -> a ∉ root w -> a < length (objs w) -> a ∉ root w'.
Proof.
  intros Hstep Ha Hlt.
  inversion Hstep; subst; simpl; auto;
    try solve [intros Hchild; apply Ha; eapply elem_of_removeFirst; eauto].
  intros Hchild. apply elem_of_app in Hchild as [Hchild|Hchild].
  - apply Ha. eapply elem_of_removeFirst, elem_of_removeFirst; eauto.
  - apply list_elem_of_singleton in Hchild. rewrite length_insert in Hchild. lia.
Qed.

Lemma Steps_root_NoDup l w w' : Steps l w w' -> NoDup (root w) -> NoDup (root w').
Proof.
  induction 1 as [w | x y l w w1 w2 Hstep _ IH]; [auto|].
  intros Hnd. apply IH. eapply TileStep_root_NoDup; eauto.
Qed.

Lemma Steps_root_stays l w w' a :
  Steps l w w' -> NoDup l -> a ∈ root w ->
  (forall x y, (x, y) ∈ l -> slotAt w x y <> Some a) ->
  a ∈ root w'.
Proof.
  induction 1 as [w | x y l w w1 w2 Hstep _ IH]; intros Hnd Ha Hslots; [exact Ha|].
  apply NoDup_cons in Hnd as [Hnot Hnd]. apply IH; [exact Hnd| |].
  - eapply TileStep_root_stays; eauto. apply Hslots. left.
  - intros x' y' Hin.
    assert (Hne : (x', y') <> (x, y)) by (intros E; injection E as -> ->; contradiction).
    destruct (TileStep_other _ _ _ _ x' y' Hstep Hne) as [-> _].
    apply Hslots. now right.
Qed.

Lemma Steps_root_out l w w' a :
  Steps l w w' -> a ∉ root w -> a < length (objs w) -> a ∉ root w'.
Proof.
  induction 1 as [w | x y l w w1 w2 Hstep _ IH]; intros Ha Hlt; [exact Ha|].
  apply IH; [eapply TileStep_root_out; eauto|].
  pose proof (TileStep_length _ _ _ _ Hstep). lia.
Qed.

(** ** Rebuilding a stale road *)

Lemma modelNameOf_road b :
  isRoadType (Building.type b) = true -> modelNameOf b = Some (roadModelName b).
Proof.
  unfold modelNameOf, isRoadType, isZoneType. intros H. rewrite H.
  apply String.eqb_eq in H. rewrite H. reflexivity.
Qed.

Lemma tintOf_road b : isRoadType (Building.type b) = true -> tintOf b = false.
Proof.
  unfold tintOf, isRoadType, isZoneType. intros H.
  apply String.eqb_eq in H. rewrite H. reflexivity.
Qed.

(** C4, as the code has it.  In a scene ready at every coordinate (slot
    column and terrain mesh present, the model of every stale building
    with a cached instance loaded), whose root has no child twice and
    whose slots hold existing objects, for a tile at [(x, y)] that holds
    a road flagged stale and whose slot holds instance [m],
    [applyChanges] returns, having called root remove on [m], then root
    add on a new instance [m'], then [updateTile(x, y, road')], where
    [road'] is the road with its flag false; at the end [m] is no child
    of the root and [m'] is one, the slot holds [m'], which is placed at
    the road's position with the road's rotation, refers to the tile and
    looks like the template stored under [type-style] with opaque
    materials of its own, and the tile holds [road']. *)
Theorem applyChanges_rebuilds_stale_road w x y tile road m :
  storeOk w ->
  NoDup (root w) ->
  (forall x' y' s, slotAt w x' y' = Some s -> s < length (objs w)) ->
  (forall x' y', x' < City.size (city w) -> y' < City.size (city w) -> ready w x' y') ->
  x < City.size (city w) -> y < City.size (city w) ->
  tileAt w x y = Some tile ->
  Tile.building tile = Some road ->
  isRoadType (Building.type road) = true ->
  Building.isMeshOutOfDate road = true ->
  slotAt w x y = Some m ->
  exists w' m' v tid tpl before after road',
    applyChanges w = Ret tt w' /\
    meshes w !! (Building.type road +:+ "-" +:+ Building.style road) = Some tid /\
    objs w !! tid = Some tpl /\
    length (objs w) <= m' /\
    calls w'
    = calls w ++ before
        ++ [RootRemove m; RootAdd m'; UpdateTile x y (Some road')]
        ++ after /\
    (m ∉ root w') /\
    (m' ∈ root w') /\
    slotAt w' x y = Some m' /\
    objs w' !! m' = Some v /\
    Object3D.position v = (Building.x road, 0%Z, Building.y road) /\
    Object3D.rotation v = Building.rotation road /\
    Object3D.userData v = Some (Tile.x tile, Tile.y tile) /\
    lookOf w' m'
    = Some (mapLook (Material.setTransparent false) (look (mats w) (Object3D.part tpl))) /\
    buildingAt w' x y = Some road' /\
    Building.isMeshOutOfDate road' = false /\
    sameButStale road road'.
Proof.
  intros Hok Hroot Hslots Hready Hx Hy Htile Hroad Hkind Hstale Hslot.
  destruct (applyChanges_total w Hok Hready) as [w' Hrun].
  pose proof Hrun as Hsteps. rewrite applyChanges_coords in Hsteps.
  apply forEach_Steps in Hsteps; [|exact Hok].
  assert (Hin : (x, y) ∈ coords (City.size (city w))) by now apply elem_of_coords.
  apply list_elem_of_split in Hin as (l1 & l2 & Hsplit).
  pose proof (NoDup_coords (City.size (city w))) as Hnd.
  assert (Hrange : forall x' y', (x', y') ∈ l2 -> ready w x' y').
  { intros x' y' Hin'.
    assert (Hc : (x', y') ∈ coords (City.size (city w))).
    { rewrite Hsplit. apply elem_of_app. right. right. exact Hin'. }
    apply elem_of_coords in Hc as [Hx' Hy']. auto. }
  rewrite Hsplit in Hsteps, Hnd.
  apply NoDup_app in Hnd as (_ & Hdisj & Hnd2). apply NoDup_cons in Hnd2 as [Hnot2 Hnd_l2].
  assert (Hnot1 : (x, y) ∉ l1) by (intros Hin; apply (Hdisj _ Hin); left).
  apply Steps_split in Hsteps as (wa & wb & H1 & Hstep & H2).
  pose proof (Steps_root_NoDup _ _ _ H1 Hroot) as Hroot_a.
  pose proof (Hslots x y m Hslot) as Hm_lt.
  (* up to the tile *)
  destruct (Steps_other _ _ _ x y H1 Hnot1) as [Hslot_a Htile_a].
  destruct (Steps_fixed _ _ _ H1) as (Hmeshes_a & Hterr_a & _ & _).
  destruct (Steps_mats _ _ _ H1) as [ea Hmats_a].
  pose proof (Steps_length _ _ _ H1) as Hlen_a.
  pose proof (Steps_storeOk _ _ _ Hok H1) as Hok_a.
  rewrite Hslot in Hslot_a. rewrite Htile in Htile_a.
  (* the template in the initial scene *)
  destruct (Hready x y Hx Hy) as (_ & _ & Hmodel).
  assert (Hb : buildingAt w x y = Some road) by (unfold buildingAt; now rewrite Htile).
  specialize (Hmodel road Hb Hstale ltac:(eauto)).
  destruct (modelReady_lookup _ _ _ Hmodel (modelNameOf_road road Hkind))
    as (tid & tpl & Hmesh & Htpl & _).
  destruct (Steps_parts _ _ _ tid tpl H1 Htpl) as (tpl_a & Htpl_a & Hpart_a).
  (* the step at the tile *)
  inversion Hstep as [col t tv Hcol Ht Htv Hidle
                     | col t tv m0 Hcol Ht Htv Hb0 Hs
                     | col t tv m0 tile0 b Hcol Ht Htv Htile0 Hb0 Hstale0 Hs Hname
                     | col t tv m0 tile0 b name tid0 tpl0 p' new
                         Hcol Ht Htv Htile0 Hb0 Hstale0 Hs Hname Hmesh0 Htpl0 Hrefs Hlook];
    subst.
  - exfalso. unfold nothingToDo, buildingAt in Hidle.
    rewrite Hslot_a, Htile_a in Hidle. simpl in Hidle. rewrite Hroad in Hidle. congruence.
  - exfalso. unfold buildingAt in Hb0. rewrite Htile_a in Hb0. simpl in Hb0. congruence.
  - exfalso. rewrite Htile_a in Htile0. injection Htile0 as <-.
    rewrite Hroad in Hb0. injection Hb0 as <-.
    rewrite (modelNameOf_road road Hkind) in Hname. discriminate.
  - rewrite Htile_a in Htile0. injection Htile0 as <-.
    rewrite Hroad in Hb0. injection Hb0 as <-.
    rewrite Hslot_a in Hs. injection Hs as <-.
    rewrite (modelNameOf_road road Hkind) in Hname. injection Hname as <-.
    rewrite Hmeshes_a, Hmesh in Hmesh0. injection Hmesh0 as <-.
    assert (Hpart0 : Object3D.part tpl0 = Object3D.part tpl).
    { rewrite <- Hpart_a. unfold terrainWritten in Htpl0. simpl in Htpl0.
      destruct (decide (t = tid)) as [->|Hne].
      - rewrite list_lookup_insert_eq in Htpl0 by (eapply lookup_lt_Some; eauto).
        injection Htpl0 as <-. simpl. congruence.
      - rewrite list_lookup_insert_ne in Htpl0 by exact Hne. congruence. }
    set (v := instanceObject tile road p' (Object3D.visible tpl0)) in *.
    set (wt := terrainWritten x y t tv wa) in *.
    set (wb := rebuilt x y col m road v new wt) in *.
    set (m' := length (objs wt)).
    assert (Hm' : length (objs w) <= m').
    { unfold m', wt, terrainWritten. simpl. rewrite length_insert. exact Hlen_a. }
    (* after the tile *)
    destruct (Steps_other _ _ _ x y H2 Hnot2) as [Hslot_b Htile_b].
    destruct (Steps_calls _ _ _ H1) as [before Hcalls_a].
    destruct (Steps_calls _ _ _ H2) as [after Hcalls_b].
    destruct (Steps_mats _ _ _ H2) as [eb Hmats_b].
    assert (Hv : objs w' !! m' = Some v).
    { eapply Steps_objs; [exact H2 | unfold wb, rebuilt; simpl; apply lookup_snoc|].
      intros x' y' Hin' Ht'.
      destruct (Hrange x' y' Hin') as (_ & (t' & Ht'' & Hsome) & _).
      assert (terrainAt wb x' y' = terrainAt w x' y') as E.
      { unfold terrainAt, wb, rebuilt, wt, terrainWritten. simpl. now rewrite Hterr_a. }
      rewrite E, Ht'' in Ht'. injection Ht' as ->.
      apply lookup_lt_is_Some in Hsome. lia. }
    assert (Hout : m ∉ root w').
    { eapply Steps_root_out; [exact H2| |].
      - unfold wb, rebuilt. simpl. intros Hchild.
        apply elem_of_app in Hchild as [Hchild|Hchild].
        + apply elem_of_removeFirst in Hchild. revert Hchild.
          apply removeFirst_gone. exact Hroot_a.
        + apply list_elem_of_singleton in Hchild. change (m = m') in Hchild. lia.
      - unfold wb, rebuilt. simpl. rewrite length_app.
        change (m < m' + length [v]). lia. }
    assert (Hchild' : m' ∈ root w').
    { eapply Steps_root_stays; [exact H2 | exact Hnd_l2 | |].
      - unfold wb, rebuilt. simpl. apply elem_of_app. right. left.
      - intros x' y' Hin' Hs'.
        assert (Hne : (x', y') <> (x, y)) by (intros E; injection E as -> ->; contradiction).
        destruct (TileStep_other _ _ _ _ x' y' Hstep Hne) as [Hs1 _].
        assert (Hnot1' : (x', y') ∉ l1).
        { intros Hin1. apply (Hdisj _ Hin1). right. exact Hin'. }
        destruct (Steps_other _ _ _ x' y' H1 Hnot1') as [Hs2 _].
        rewrite Hs1, Hs2 in Hs'. apply Hslots in Hs'. lia. }
    exists w', m', v, tid, tpl, before, after, (Building.setIsMeshOutOfDate false road).
    split; [exact Hrun|]. split; [exact Hmesh|]. split; [exact Htpl|].
    split; [exact Hm'|]. split.
    { rewrite Hcalls_b. unfold wb, rebuilt. simpl. rewrite Hkind, Hcalls_a.
      rewrite <- !app_assoc. reflexivity. }
    split; [exact Hout|]. split; [exact Hchild'|].
    split.
    { rewrite Hslot_b. unfold slotAt, wb, rebuilt. simpl.
      apply (slotAt_insert_eq (buildings wa) col x y _ (Some m) Hcol).
      eapply slotAt_Some; eauto. }
    split; [exact Hv|]. split; [reflexivity|]. split; [reflexivity|].
    split; [reflexivity|]. split.
    { unfold lookOf. rewrite Hv. simpl. f_equal. rewrite Hmats_b.
      unfold wb, rebuilt. simpl.
      rewrite look_app by (rewrite Hrefs, length_app; apply Forall_lt_seq).
      rewrite Hlook. unfold instanceLook. rewrite (tintOf_road road Hkind).
      rewrite Hpart0, Hmats_a. f_equal. apply look_app.
      eapply storeOk_lookup; eauto. }
    split.
    { unfold buildingAt. rewrite Htile_b. unfold tileAt, wb, rebuilt. simpl.
      erewrite getTile_alterTile_eq by exact Htile_a. reflexivity. }
    split; [reflexivity|].
    unfold sameButStale. simpl. auto 10.
Qed.

(** Closes [ready] at a concrete coordinate without pending rebuild. *)
Ltac ready_idle :=
  split; [eexists; reflexivity|];
  split; [eexists; split; [reflexivity | eexists; reflexivity]|];
  intros b Hb Hstale Hslot; vm_compute in Hb; vm_compute in Hslot;
  first [discriminate Hb | destruct Hslot as [? Hslot]; discriminate Hslot].

(** The theorem above for the stale road of the sample scene. *)
Lemma applyChanges_rebuilds_stale_road_witness :
  exists w' m' v tid tpl before after road',
    applyChanges Sample.scene = Ret tt w' /\
    meshes Sample.scene !! ("road" +:+ "-" +:+ "straight") = Some tid /\
    objs Sample.scene !! tid = Some tpl /\
    length (objs Sample.scene) <= m' /\
    calls w'
    = calls Sample.scene ++ before
        ++ [RootRemove 7; RootAdd m'; UpdateTile 0 0 (Some road')]
        ++ after /\
    (7 ∉ root w') /\
    (m' ∈ root w') /\
    slotAt w' 0 0 = Some m' /\
    objs w' !! m' = Some v /\
    Object3D.position v = (0, 0, 0)%Z /\
    Object3D.rotation v = 90%Z /\
    Object3D.userData v = Some (0, 0)%Z /\
    lookOf w' m'
    = Some (mapLook (Material.setTransparent false)
              (look (mats Sample.scene) (Object3D.part tpl))) /\
    buildingAt w' 0 0 = Some road' /\
    Building.isMeshOutOfDate road' = false /\
    sameButStale Sample.staleRoad road'.
Proof.
  apply (applyChanges_rebuilds_stale_road Sample.scene 0 0 Sample.roadTile
           Sample.staleRoad 7).
  - unfold storeOk. simpl. repeat (constructor; try lia).
  - simpl. repeat (constructor; [rewrite ?elem_of_cons, elem_of_nil; lia|]). constructor.
  - intros x y s Hs.
    destruct x as [|[|x]], y as [|[|y]]; vm_compute in Hs; try discriminate Hs;
      injection Hs as <-; simpl; lia.
  - simpl. intros x y Hx Hy.
    destruct x as [|[|x]], y as [|[|y]]; try lia.
    + split; [eexists; reflexivity|].
      split; [eexists; split; [reflexivity | eexists; reflexivity]|].
      intros b Hb _ _. vm_compute in Hb. injection Hb as <-.
      exists 1, (Object3D.mk (Node (Some 1) []) (0, 0, 0)%Z 0%Z true None).
      split; [reflexivity|]. split; [reflexivity|]. intros H. discriminate H.
    + ready_idle.
    + ready_idle.
    + split; [eexists; reflexivity|].
      split; [eexists; split; [reflexivity | eexists; reflexivity]|].
      intros b Hb _ _. vm_compute in Hb. injection Hb as <-.
      exists 2, Sample.houseTemplate.
      split; [reflexivity|]. split; [reflexivity|]. intros _. eexists. reflexivity.
  - simpl. lia.
  - simpl. lia.
  - reflexivity.
  - reflexivity.
  - reflexivity.
  - reflexivity.
  - reflexivity.
Defined.

(** C4 as stated fails when the model of the road is not loaded: in the
    sample scene without the model "road-straight", the tile at (0, 0)
    holds a road flagged stale and its slot holds instance 7, yet the
    pass throws after the root remove of 7.  Nothing is added, no object
    is made, the slot still holds the removed instance, the flag is
    still set and [updateTile] is not called. *)
Lemma stale_road_without_model_is_not_rebuilt :
  tileAt Sample.roadModelMissing 0 0 = Some Sample.roadTile /\
  Tile.building Sample.roadTile = Some Sample.staleRoad /\
  isRoadType (Building.type Sample.staleRoad) = true /\
  Building.isMeshOutOfDate Sample.staleRoad = true /\
  slotAt Sample.roadModelMissing 0 0 = Some 7 /\
  exists e w',
    applyChanges Sample.roadModelMissing = Throw e w' /\
    calls w' = calls Sample.roadModelMissing ++ [RootRemove 7] /\
    (7 ∉ root w') /\
    slotAt w' 0 0 = Some 7 /\
    length (objs w') = length (objs Sample.roadModelMissing) /\
    exists b, buildingAt w' 0 0 = Some b /\ Building.isMeshOutOfDate b = true.
Proof.
  repeat (split; [reflexivity|]).
  eexists _, _. split; [vm_compute; reflexivity|].
  split; [reflexivity|]. split.
  { simpl. intros H.
    repeat (apply elem_of_cons in H as [H|H]; [discriminate H|]). inversion H. }
  split; [reflexivity|]. split; [reflexivity|].
  eexists. split; reflexivity.
Qed.

(** ** Footprints of the store operations *)

Lemma gridKept_refl w : gridKept w w.
Proof. unfold gridKept. auto. Qed.

(** Closes [gridKept] between a state and an explicit update of it. *)
Ltac kept := unfold gridKept; simpl; auto.

Lemma gridKept_trans w1 w2 w3 : gridKept w1 w2 -> gridKept w2 w3 -> gridKept w1 w3.
Proof. unfold gridKept. intros (? & ? & ? & ?) (? & ? & ? & ?). repeat split; congruence. Qed.

Lemma storeOnly_bind {A B} (m : M A) (k : A -> M B) :
  storeOnly m -> (forall a, storeOnly (k a)) -> storeOnly (bind m k).
Proof.
  intros Hm Hk w. unfold bind. specialize (Hm w).
  destruct (m w) as [a w1|e w1]; simpl in *; [|exact Hm].
  eapply gridKept_trans; [exact Hm | apply Hk].
Qed.

Lemma storeOnly_ret {A} (a : A) : storeOnly (ret a).
Proof. intros w. kept. Qed.

Lemma storeOnly_throw {A} e : storeOnly (@throw A e).
Proof. intros w. kept. Qed.

Lemma storeOnly_gets {A} (f : World -> A) : storeOnly (gets f).
Proof. intros w. kept. Qed.

Lemma storeOnly_when c (m : M unit) : storeOnly m -> storeOnly (when c m).
Proof. intros H. destruct c; [exact H | apply storeOnly_ret]. Qed.

Lemma storeOnly_call c : storeOnly (call c).
Proof. intros w. kept. Qed.

Lemma storeOnly_getObj o : storeOnly (getObj o).
Proof. intros w. unfold getObj. destruct (objs w !! o); kept. Qed.

Lemma storeOnly_getMat r : storeOnly (getMat r).
Proof. intros w. unfold getMat. destruct (mats w !! r); kept. Qed.

Lemma storeOnly_updateObj o f : storeOnly (updateObj o f).
Proof.
  apply storeOnly_bind; [apply storeOnly_getObj|]. intros v w. kept.
Qed.

Lemma storeOnly_updateMat r f : storeOnly (updateMat r f).
Proof.
  apply storeOnly_bind; [apply storeOnly_getMat|]. intros v w. kept.
Qed.

Lemma storeOnly_alloc v : storeOnly (alloc v).
Proof. intros w. kept. Qed.

Lemma storeOnly_traverseObj f o : storeOnly (traverseObj f o).
Proof.
  apply storeOnly_bind; [apply storeOnly_getObj|]. intros v.
  apply storeOnly_bind; [apply storeOnly_gets|]. intros ms.
  destruct (traverse f (Object3D.part v) ms) as [[p' ms']|].
  - intros w. kept.
  - apply storeOnly_throw.
Qed.

Lemma storeOnly_cloneMesh name t : storeOnly (cloneMesh name t).
Proof.
  apply storeOnly_bind; [apply storeOnly_gets|]. intros [tid|]; [|apply storeOnly_throw].
  apply storeOnly_bind.
  - apply storeOnly_bind; [apply storeOnly_getObj | intros; apply storeOnly_alloc].
  - intros mesh. apply storeOnly_bind; [apply storeOnly_traverseObj|].
    intros; apply storeOnly_ret.
Qed.

Lemma storeOnly_setMaterialColor mesh c : storeOnly (setMaterialColor mesh c).
Proof.
  apply storeOnly_bind; [apply storeOnly_getObj|]. intros v.
  destruct (Object3D.material v); [apply storeOnly_updateMat | apply storeOnly_throw].
Qed.

(** Decomposes a sequence of store operations. *)
Ltac store_only :=
  repeat first
    [ progress cbv beta zeta
    | apply storeOnly_when
    | apply storeOnly_ret
    | apply storeOnly_call
    | apply storeOnly_cloneMesh
    | apply storeOnly_updateObj
    | apply storeOnly_setMaterialColor
    | apply storeOnly_bind; [|intros ?] ].

Lemma storeOnly_createZoneMesh tile : storeOnly (createZoneMesh tile).
Proof.
  unfold createZoneMesh. destruct (Tile.building tile) as [zone|]; [|apply storeOnly_throw].
  store_only.
Qed.

Lemma storeOnly_createRoadMesh tile : storeOnly (createRoadMesh tile).
Proof.
  unfold createRoadMesh. destruct (Tile.building tile) as [road|]; [|apply storeOnly_throw].
  store_only.
Qed.

Lemma storeOnly_createBuildingMesh tile : storeOnly (createBuildingMesh tile).
Proof.
  unfold createBuildingMesh. destruct tile as [t|]; [|apply storeOnly_ret].
  destruct (Tile.building t) as [b|]; [|apply storeOnly_ret].
  destruct (isZoneType (Building.type b)); [|destruct (isRoadType (Building.type b))];
    store_only; auto using storeOnly_createZoneMesh, storeOnly_createRoadMesh.
Qed.

Lemma storeOnly_rootRemove o : storeOnly (rootRemove o).
Proof. intros w. kept. Qed.

Lemma storeOnly_rootAdd o : storeOnly (rootAdd o).
Proof. intros w. destruct o; kept. Qed.

Lemma storeOnly_readSlot x y : storeOnly (readSlot x y).
Proof. intros w. unfold readSlot. destruct (buildings w !! x); kept. Qed.

Lemma storeOnly_setTerrainVisible x y v : storeOnly (setTerrainVisible x y v).
Proof.
  apply storeOnly_bind; [apply storeOnly_gets|]. intros [col|]; [|apply storeOnly_throw].
  destruct (col !! y); [apply storeOnly_updateObj | apply storeOnly_throw].
Qed.

(** ** Footprint of a step on other coordinates *)

Lemma coordKept_refl x y w : coordKept x y w w.
Proof. unfold coordKept. auto. Qed.

Lemma coordKept_trans x y w1 w2 w3 :
  coordKept x y w1 w2 -> coordKept x y w2 w3 -> coordKept x y w1 w3.
Proof.
  unfold coordKept. intros (? & ? & ? & ? & ?) (? & ? & ? & ? & ?).
  repeat split; congruence.
Qed.

Lemma gridKept_coordKept x y w w' : gridKept w w' -> coordKept x y w w'.
Proof.
  unfold gridKept, coordKept, slotAt, tileAt. intros (-> & -> & -> & _). auto.
Qed.

Lemma keeps_storeOnly x y {A} (m : M A) : storeOnly m -> keeps x y m.
Proof. intros H w. apply gridKept_coordKept, H. Qed.

Lemma keeps_bind x y {A B} (m : M A) (k : A -> M B) :
  keeps x y m -> (forall a, keeps x y (k a)) -> keeps x y (bind m k).
Proof.
  intros Hm Hk w. unfold bind. specialize (Hm w).
  destruct (m w) as [a w1|e w1]; simpl in *; [|exact Hm].
  eapply coordKept_trans; [exact Hm | apply Hk].
Qed.

Lemma keeps_when x y c (m : M unit) : keeps x y m -> keeps x y (when c m).
Proof. intros H. destruct c; [exact H | apply keeps_storeOnly, storeOnly_ret]. Qed.

Lemma arraySet_lookup_ne (col : list (option nat)) y y' v :
  y <> y' -> default None (arraySet y' v None col !! y) = default None (col !! y).
Proof.
  intros Hne. unfold arraySet. destruct (Nat.ltb_spec y' (length col)) as [Hlt|Hge].
  - now rewrite list_lookup_insert_ne by congruence.
  - destruct (Nat.lt_ge_cases y (length col)) as [Hy|Hy].
    + now rewrite lookup_app_l.
    + rewrite (lookup_ge_None_2 col y Hy). simpl.
      rewrite lookup_app_r by exact Hy.
      destruct (Nat.lt_ge_cases (y - length col) (y' - length col)) as [Hin|Hout].
      * rewrite lookup_app_l by (rewrite length_replicate; exact Hin).
        rewrite lookup_replicate_2 by exact Hin. reflexivity.
      * rewrite lookup_ge_None_2; [reflexivity|].
        rewrite length_app, length_replicate. simpl. lia.
Qed.

Lemma keeps_writeSlot x y x' y' v :
  (x, y) <> (x', y') -> keeps x y (writeSlot x' y' v).
Proof.
  intros Hne w. unfold writeSlot.
  destruct (buildings w !! x') as [col|] eqn:Hcol; simpl; [|apply coordKept_refl].
  unfold coordKept, slotAt, tileAt. simpl. rewrite length_insert.
  repeat split; auto.
  destruct (decide (x' = x)) as [->|Hx].
  - rewrite list_lookup_insert_eq by (eapply lookup_lt_Some; eauto). rewrite Hcol.
    apply arraySet_lookup_ne. congruence.
  - now rewrite list_lookup_insert_ne.
Qed.

Lemma keeps_alterTile x y x' y' f :
  (x, y) <> (x', y') ->
  keeps x y (modify (fun w => set_city (City.alterTile f x' y' (city w)) w)).
Proof.
  intros Hne w. unfold coordKept, slotAt, tileAt. simpl.
  rewrite getTile_alterTile_ne by exact Hne. auto.
Qed.

(** [applyTile] at one coordinate leaves every other coordinate alone,
    whether it returns or throws. *)
Lemma applyTile_keeps_other x y x' y' :
  (x, y) <> (x', y') -> keeps x y (applyTile x' y').
Proof.
  intros Hne. unfold applyTile.
  apply keeps_bind; [apply keeps_storeOnly, storeOnly_gets|]. intros tile.
  apply keeps_bind; [apply keeps_storeOnly, storeOnly_readSlot|]. intros existing.
  apply keeps_bind; [apply keeps_storeOnly, storeOnly_setTerrainVisible|]. intros _.
  apply keeps_bind.
  - destruct (buildingOf tile), existing; try (apply keeps_storeOnly, storeOnly_ret).
    apply keeps_bind; [apply keeps_storeOnly, storeOnly_rootRemove|]. intros _.
    apply keeps_bind; [now apply keeps_writeSlot|]. intros _.
    apply keeps_storeOnly, storeOnly_call.
  - intros _. destruct (buildingOf tile), existing; try (apply keeps_storeOnly, storeOnly_ret).
    apply keeps_when.
    apply keeps_bind; [apply keeps_storeOnly, storeOnly_rootRemove|]. intros _.
    apply keeps_bind; [apply keeps_storeOnly, storeOnly_createBuildingMesh|]. intros mesh.
    apply keeps_bind; [now apply keeps_writeSlot|]. intros _.
    apply keeps_bind; [apply keeps_storeOnly, storeOnly_readSlot|]. intros added.
    apply keeps_bind; [apply keeps_storeOnly, storeOnly_rootAdd|]. intros _.
    apply keeps_bind; [now apply keeps_alterTile|]. intros _.
    apply keeps_when, keeps_storeOnly, storeOnly_call.
Qed.

(** A property that every loop body maintains, whatever its outcome,
    holds in the state the loop leaves. *)
Lemma forEach_final {A} (I : World -> Prop) (l : list A) (body : A -> M unit) :
  (forall a w, a ∈ l -> I w -> I (final (body a w))) ->
  forall w, I w -> I (final (forEach l body w)).
Proof.
  induction l as [|a l IH]; intros Hbody w Hw; simpl; [exact Hw|].
  unfold bind. pose proof (Hbody a w ltac:(left) Hw) as H1.
  destruct (body a w) as [[] w1|e w1]; simpl in *; [|exact H1].
  apply IH; [|exact H1]. intros a' w' Hin. apply Hbody. now right.
Qed.

(** ** A building without cached instance *)

(** The outcome of [applyTile] when nothing is to be reconciled. *)
Lemma applyTile_idle_final x y w :
  nothingToDo (buildingAt w x y) (slotAt w x y) ->
  let w' := final (applyTile x y w) in
  root w' = root w /\ calls w' = calls w /\ buildings w' = buildings w /\
  city w' = city w /\ mats w' = mats w /\ meshes w' = meshes w /\
  length (objs w') = length (objs w) /\
  (forall o v, objs w !! o = Some v -> terrainAt w x y <> Some o -> objs w' !! o = Some v).
Proof.
  intros Hidle.
  assert (Hsame : let w' := w in
            root w' = root w /\ calls w' = calls w /\ buildings w' = buildings w /\
            city w' = city w /\ mats w' = mats w /\ meshes w' = meshes w /\
            length (objs w') = length (objs w) /\
            (forall o v, objs w !! o = Some v -> terrainAt w x y <> Some o ->
                         objs w' !! o = Some v)).
  { simpl. repeat split; auto. }
  destruct (buildings w !! x) as [col|] eqn:Hcol.
  2:{ rewrite applyTile_reconcile. unfold bind, readSlot. rewrite Hcol. exact Hsame. }
  destruct (terrainAt w x y) as [t|] eqn:Ht.
  2:{ rewrite applyTile_reconcile. unfold bind at 1, readSlot. rewrite Hcol.
      unfold setTerrainVisible, bind, gets. unfold terrainAt in Ht.
      destruct (terrain w !! x) as [tcol|]; [rewrite Ht|]; exact Hsame. }
  destruct (objs w !! t) as [tv|] eqn:Htv.
  2:{ rewrite applyTile_reconcile. unfold bind at 1, readSlot. rewrite Hcol.
      unfold setTerrainVisible, bind, gets. unfold terrainAt in Ht.
      destruct (terrain w !! x) as [tcol|]; [|discriminate]. rewrite Ht.
      unfold updateObj, bind, getObj. rewrite Htv. exact Hsame. }
  rewrite (applyTile_prelude x y w col t tv Hcol Ht Htv).
  rewrite reconcile_idle by exact Hidle. simpl.
  rewrite length_insert. repeat split; auto.
  intros o v Ho Hne. rewrite list_lookup_insert_ne; [exact Ho | congruence].
Qed.

(** C9.  For a tile whose building is flagged stale while its slot holds
    no instance, the body of the pass at that coordinate, whatever its
    outcome, leaves root children, calls, slots, city and materials as
    they were and allocates no object (only the visibility of the tile's
    terrain mesh may be written); and in the state the whole pass leaves,
    the slot is still empty and the tile still holds the building with
    its flag set. *)
Theorem stale_without_instance_is_skipped w x y b :
  buildingAt w x y = Some b ->
  Building.isMeshOutOfDate b = true ->
  slotAt w x y = None ->
  (let w1 := final (applyTile x y w) in
   root w1 = root w /\ calls w1 = calls w /\ buildings w1 = buildings w /\
   city w1 = city w /\ mats w1 = mats w /\ meshes w1 = meshes w /\
   length (objs w1) = length (objs w) /\
   (forall o v, objs w !! o = Some v -> terrainAt w x y <> Some o ->
                objs w1 !! o = Some v)) /\
  (let w' := final (applyChanges w) in
   slotAt w' x y = None /\ buildingAt w' x y = Some b).
Proof.
  intros Hb Hstale Hslot. split.
  - apply applyTile_idle_final. rewrite Hb, Hslot. exact I.
  - rewrite applyChanges_coords.
    apply (forEach_final
             (fun w0 => slotAt w0 x y = None /\ buildingAt w0 x y = Some b)); [|auto].
    intros [x' y'] w0 _ [Hs0 Hb0]. simpl.
    destruct (decide ((x, y) = (x', y'))) as [E|Hne].
    + injection E as <- <-.
      destruct (applyTile_idle_final x y w0) as (_ & _ & Hbs & Hcity & _).
      { rewrite Hb0, Hs0. exact I. }
      unfold slotAt, buildingAt, tileAt in *. rewrite Hbs, Hcity. auto.
    + destruct (applyTile_keeps_other x y x' y' Hne w0) as (Hs & Ht & _).
      unfold buildingAt. rewrite Hs, Ht. auto.
Qed.

(** The theorem above for the road of the sample scene whose slot was
    never filled. *)
Lemma stale_without_instance_is_skipped_witness :
  buildingAt Sample.newRoad 0 0 = Some Sample.staleRoad /\
  (let w1 := final (applyTile 0 0 Sample.newRoad) in
   root w1 = root Sample.newRoad /\ calls w1 = calls Sample.newRoad /\
   buildings w1 = buildings Sample.newRoad /\
   city w1 = city Sample.newRoad /\ mats w1 = mats Sample.newRoad /\
   meshes w1 = meshes Sample.newRoad /\
   length (objs w1) = length (objs Sample.newRoad) /\
   (forall o v, objs Sample.newRoad !! o = Some v ->
                terrainAt Sample.newRoad 0 0 <> Some o -> objs w1 !! o = Some v)) /\
  (let w' := final (applyChanges Sample.newRoad) in
   slotAt w' 0 0 = None /\ buildingAt w' 0 0 = Some Sample.staleRoad).
Proof.
  split; [reflexivity|].
  apply (stale_without_instance_is_skipped Sample.newRoad 0 0 Sample.staleRoad).
  - reflexivity.
  - reflexivity.
  - reflexivity.
Defined.

(** ** A stale building whose model is missing *)

Lemma applyTile_absent_throws x y w tile b m name :
  tileAt w x y = Some tile ->
  Tile.building tile = Some b ->
  Building.isMeshOutOfDate b = true ->
  slotAt w x y = Some m ->
  modelNameOf b = Some name ->
  meshes w !! name = None ->
  exists e w', applyTile x y w = Throw e w'.
Proof.
  intros Htile Hb Hstale Hslot Hname Habs.
  destruct (buildings w !! x) as [col|] eqn:Hcol.
  2:{ rewrite applyTile_reconcile. unfold bind, readSlot. rewrite Hcol. eauto. }
  destruct (terrainAt w x y) as [t|] eqn:Ht.
  2:{ rewrite applyTile_reconcile. unfold bind at 1, readSlot. rewrite Hcol.
      unfold setTerrainVisible, bind, gets. unfold terrainAt in Ht.
      destruct (terrain w !! x) as [tcol|]; [rewrite Ht|]; unfold throw; eauto. }
  destruct (objs w !! t) as [tv|] eqn:Htv.
  2:{ rewrite applyTile_reconcile. unfold bind at 1, readSlot. rewrite Hcol.
      unfold setTerrainVisible, bind, gets. unfold terrainAt in Ht.
      destruct (terrain w !! x) as [tcol|]; [|discriminate]. rewrite Ht.
      unfold updateObj, bind, getObj. rewrite Htv. eauto. }
  erewrite applyTile_absent; eauto.
Qed.

(** A loop throws when one of its bodies throws in every state with
    property [J], and the bodies before it maintain [J]. *)
Lemma forEach_throws {A} `{EqDecision A} (J : World -> Prop) (l : list A)
    (body : A -> M unit) (a0 : A) :
  a0 ∈ l ->
  (forall a w, a <> a0 -> J w -> J (final (body a w))) ->
  (forall w, J w -> exists e w', body a0 w = Throw e w') ->
  forall w, J w -> exists e w', forEach l body w = Throw e w'.
Proof.
  intros Hin Hkeep Hthrow. induction l as [|a l IH]; intros w Hw; [inversion Hin|].
  simpl. unfold bind. destruct (decide (a = a0)) as [->|Hne].
  - destruct (Hthrow w Hw) as (e & w' & ->). eauto.
  - pose proof (Hkeep a w Hne Hw) as H1.
    destruct (body a w) as [[] w1|e w1]; [|eauto].
    apply IH; [|exact H1]. apply elem_of_cons in Hin as [E|Hin]; [congruence | exact Hin].
Qed.

(** C3, as the code has it.  For a name that is not in the catalog,
    [cloneMesh] throws a TypeError and leaves the state as it was, and so
    does [createBuildingMesh] for a building whose model has that name;
    nothing catches the exception: [applyChanges] over a city with a
    stale building of that model whose slot holds an instance throws to
    its caller. *)
Theorem absent_model_throws w name :
  meshes w !! name = None ->
  (forall transparent,
     cloneMesh name transparent w
     = Throw (TypeError "Cannot read properties of undefined (reading 'clone')") w) /\
  (forall tile b,
     Tile.building tile = Some b -> modelNameOf b = Some name ->
     createBuildingMesh (Some tile) w
     = Throw (TypeError "Cannot read properties of undefined (reading 'clone')") w) /\
  (forall x y tile b m,
     x < City.size (city w) -> y < City.size (city w) ->
     tileAt w x y = Some tile -> Tile.building tile = Some b ->
     Building.isMeshOutOfDate b = true -> slotAt w x y = Some m ->
     modelNameOf b = Some name ->
     exists e w', applyChanges w = Throw e w').
Proof.
  intros Habs. split; [intros t; now apply cloneMesh_absent|].
  split; [intros tile b Hb Hname; now apply (createBuildingMesh_absent tile b name)|].
  intros x y tile b m Hx Hy Htile Hb Hstale Hslot Hname.
  rewrite applyChanges_coords.
  apply (forEach_throws
           (fun w0 => tileAt w0 x y = Some tile /\ slotAt w0 x y = Some m
                      /\ meshes w0 !! name = None)
           _ _ (x, y)).
  - now apply elem_of_coords.
  - intros [x' y'] w0 Hne (Ht0 & Hs0 & Hm0). simpl.
    destruct (applyTile_keeps_other x y x' y' ltac:(congruence) w0) as (Hs & Ht & Hm & _).
    rewrite Hs, Ht, Hm. auto.
  - intros w0 (Ht0 & Hs0 & Hm0). simpl.
    eapply applyTile_absent_throws; eauto.
  - auto.
Qed.

(** The theorem above for the sample scene without the road model. *)
Lemma absent_model_throws_witness :
  meshes Sample.roadModelMissing !! "road-straight" = None /\
  cloneMesh "road-straight" false Sample.roadModelMissing
  = Throw (TypeError "Cannot read properties of undefined (reading 'clone')")
      Sample.roadModelMissing /\
  createBuildingMesh (Some Sample.roadTile) Sample.roadModelMissing
  = Throw (TypeError "Cannot read properties of undefined (reading 'clone')")
      Sample.roadModelMissing /\
  exists e w', applyChanges Sample.roadModelMissing = Throw e w'.
Proof.
  assert (Habs : meshes Sample.roadModelMissing !! "road-straight" = None)
    by reflexivity.
  destruct (absent_model_throws Sample.roadModelMissing "road-straight" Habs)
    as (Hclone & Hcreate & Hpass).
  split; [exact Habs|]. split; [apply Hclone|].
  split; [apply (Hcreate Sample.roadTile Sample.staleRoad); reflexivity|].
  apply (Hpass 0 0 Sample.roadTile Sample.staleRoad 7);
    first [reflexivity | simpl; lia].
Defined.

(** C3 as stated fails: with the road model missing, [cloneMesh] does
    not return a not-found result but throws, and the exception leaves
    [applyChanges]; the instance cached for the road has by then been
    detached from the root while its slot still holds it. *)
Lemma absent_model_exception_reaches_caller :
  cloneMesh "road-straight" false Sample.roadModelMissing
  = Throw (TypeError "Cannot read properties of undefined (reading 'clone')")
      Sample.roadModelMissing /\
  exists w',
    applyChanges Sample.roadModelMissing
    = Throw (TypeError "Cannot read properties of undefined (reading 'clone')") w' /\
    root Sample.roadModelMissing = [3; 4; 5; 6; 7; 8; 9] /\
    root w' = [3; 4; 5; 6; 8; 9] /\
    slotAt w' 0 0 = Some 7.
Proof.
  split; [reflexivity|]. eexists. split; [vm_compute; reflexivity|].
  vm_compute. auto.
Qed.

(** * Further properties of the two classes *)

(** ** The highlight operations *)

Lemma setMeshEmission_Ret_inv h c w w' :
  setMeshEmission (Some h) c w = Ret tt w' ->
  exists o r mat,
    objs w !! h = Some o /\ Object3D.material o = Some r /\ mats w !! r = Some mat /\
    w' = set_mats (<[r := Material.setEmissiveHex c mat]> (mats w)) w.
Proof.
  unfold setMeshEmission, bind, getObj.
  destruct (objs w !! h) as [o|] eqn:Ho; [|discriminate].
  destruct (Object3D.material o) as [r|] eqn:Hr; [|discriminate].
  unfold updateMat, bind, getMat. destruct (mats w !! r) as [mat|] eqn:Hm; [|discriminate].
  intros H. injection H as <-. exists o, r, mat. auto.
Qed.

Lemma setEmissiveHex_twice c c' mat :
  Material.setEmissiveHex c (Material.setEmissiveHex c' mat) = Material.setEmissiveHex c mat.
Proof. destruct mat as [col [e|] tr]; reflexivity. Qed.

Lemma set_mats_same w : set_mats (mats w) w = w.
Proof. now destruct w. Qed.

(** Writing a colour that is already there changes nothing. *)
Lemma setMeshEmission_again h c w o r mat :
  objs w !! h = Some o -> Object3D.material o = Some r ->
  mats w !! r = Some (Material.setEmissiveHex c mat) ->
  setMeshEmission (Some h) c w = Ret tt w.
Proof.
  intros Ho Hr Hm. rewrite (setMeshEmission_run _ _ _ _ _ _ Ho Hr Hm).
  rewrite setEmissiveHex_twice, list_insert_id by exact Hm. now rewrite set_mats_same.
Qed.

(** Resetting and then writing a colour that was there changes nothing. *)
Lemma setMeshEmission_reset_again h c0 c w o r mat :
  objs w !! h = Some o -> Object3D.material o = Some r ->
  mats w !! r = Some (Material.setEmissiveHex c mat) ->
  (setMeshEmission (Some h) c0 ;;; setMeshEmission (Some h) c) w = Ret tt w.
Proof.
  intros Ho Hr Hm.
  erewrite bind_Ret by (eapply setMeshEmission_run; eauto).
  erewrite setMeshEmission_run; simpl; eauto.
  2:{ apply list_lookup_insert_eq. eapply lookup_lt_Some; eauto. }
  rewrite !setEmissiveHex_twice, list_insert_insert_eq, list_insert_id by exact Hm.
  now destruct w.
Qed.

(** X1.  [setActiveObject] is idempotent: called again with the object
    it has just made active, it returns the state unchanged. *)
Theorem setActiveObject_idempotent object w w1 :
  setActiveObject object w = Ret tt w1 ->
  setActiveObject object w1 = Ret tt w1.
Proof.
  unfold setActiveObject at 1. unfold bind at 1, gets. intros H.
  apply bind_Ret_inv in H as ([] & wa & _ & H).
  unfold bind at 1, modify in H.
  unfold bind at 1, gets in H. simpl in H.
  destruct object as [m|].
  - apply setMeshEmission_Ret_inv in H as (o & r & mat & Ho & Hr & Hm & ->).
    simpl in Ho, Hm.
    unfold setActiveObject, bind at 1, gets. simpl.
    assert (E : forall w0 : World,
              objs w0 = objs wa -> activeObject w0 = Some m ->
              mats w0 = <[r := Material.setEmissiveHex 0xaaaa55 mat]> (mats wa) ->
              (setMeshEmission (Some m) 0%Z ;;;
               modify (set_activeObject (Some m)) ;;;
               active' <- gets activeObject ;;
               setMeshEmission active' 0xaaaa55%Z) w0 = Ret tt w0).
    { intros w0 Hobjs Hact Hmats.
      assert (Hm0 : mats w0 !! r = Some (Material.setEmissiveHex 0xaaaa55 mat)).
      { rewrite Hmats. apply list_lookup_insert_eq. eapply lookup_lt_Some; eauto. }
      assert (Ho0 : objs w0 !! m = Some o) by (rewrite Hobjs; exact Ho).
      pose proof (setMeshEmission_reset_again m 0%Z 0xaaaa55%Z w0 o r mat Ho0 Hr Hm0) as Hre.
      unfold bind in Hre |- *. unfold modify, gets.
      destruct (setMeshEmission (Some m) 0%Z w0) as [[] wx|e wx] eqn:E0; [|discriminate].
      simpl.
      assert (Hwx : wx = set_mats (<[r := Material.setEmissiveHex 0%Z
                                          (Material.setEmissiveHex 0xaaaa55 mat)]> (mats w0)) w0).
      { rewrite (setMeshEmission_run _ _ _ _ _ _ Ho0 Hr Hm0) in E0. now injection E0. }
      subst wx.
      replace (set_activeObject (Some m) _)
        with (set_mats (<[r := Material.setEmissiveHex 0%Z
                                 (Material.setEmissiveHex 0xaaaa55 mat)]> (mats w0)) w0).
      - exact Hre.
      - destruct w0; simpl in *. now rewrite Hact. }
    apply E; reflexivity.
  - unfold setMeshEmission, ret in H. injection H as <-.
    unfold setActiveObject, bind, gets, modify. simpl.
    now destruct wa.
Qed.

(** The theorem above at the sample scene, selecting the road instance
    on (0, 0). *)
Lemma setActiveObject_idempotent_witness :
  exists w1,
    setActiveObject (Some 10) Sample.synced = Ret tt w1 /\
    setActiveObject (Some 10) w1 = Ret tt w1.
Proof.
  eexists. split; [vm_compute; reflexivity|].
  apply (setActiveObject_idempotent (Some 10) Sample.synced).
  vm_compute; reflexivity.
Defined.

(** What a returning [setHighlightedMesh(mesh)] leaves behind. *)
Lemma setHighlightedMesh_Ret_inv mesh w w1 :
  setHighlightedMesh mesh w = Ret tt w1 ->
  hoverObject w1 = mesh /\
  forall m, mesh = Some m ->
    exists o r mat,
      objs w1 !! m = Some o /\ Object3D.material o = Some r /\
      mats w1 !! r = Some (Material.setEmissiveHex 0x555555 mat).
Proof.
  unfold setHighlightedMesh. unfold bind at 1, gets. unfold bind at 1. intros H.
  apply bind_Ret_inv in H as ([] & wa & _ & H).
  unfold bind, modify, gets in H. simpl in H.
  destruct mesh as [m|]; simpl in H.
  - apply setMeshEmission_Ret_inv in H as (o & r & mat & Ho & Hr & Hm & ->).
    simpl in *. split; [reflexivity|]. intros m' [= <-]. exists o, r, mat.
    repeat split; auto. apply list_lookup_insert_eq. eapply lookup_lt_Some; eauto.
  - unfold ret in H. injection H as <-. split; [reflexivity|]. discriminate.
Qed.

(** X2.  [setHighlightedMesh] is idempotent: called again with the mesh
    it has just highlighted, it returns the state unchanged. *)
Theorem setHighlightedMesh_idempotent mesh w w1 :
  setHighlightedMesh mesh w = Ret tt w1 ->
  setHighlightedMesh mesh w1 = Ret tt w1.
Proof.
  intros H. apply setHighlightedMesh_Ret_inv in H as [Hh Hm].
  unfold setHighlightedMesh. unfold bind at 1, gets. unfold bind at 1. rewrite Hh.
  destruct mesh as [m|].
  - destruct (Hm m eq_refl) as (o & r & mat & Ho & Hr & Hmat).
    destruct (bool_decide (Some m ≠ None) && bool_decide (Some m ≠ activeObject w1)) eqn:Hc;
      unfold when.
    + erewrite bind_Ret by (eapply setMeshEmission_run; eauto).
      unfold bind at 1, modify. unfold bind at 1, gets.
      change (hoverObject (set_hoverObject (Some m) _)) with (Some m).
      rewrite bool_decide_true by discriminate.
      erewrite setMeshEmission_run; simpl; eauto.
      2:{ apply list_lookup_insert_eq. eapply lookup_lt_Some; eauto. }
      rewrite !setEmissiveHex_twice, list_insert_insert_eq, list_insert_id by exact Hmat.
      f_equal. destruct w1; simpl in *. now rewrite Hh.
    + unfold bind, ret, modify, gets. simpl.
      replace (set_hoverObject (Some m) w1) with w1
        by (destruct w1; simpl in *; now rewrite Hh).
      eapply setMeshEmission_again; eauto.
  - unfold bind, when, ret, modify, gets. simpl.
    f_equal. destruct w1; simpl in *. now rewrite Hh.
Qed.

(** The theorem above at the sample scene, hovering the road instance
    on (0, 0). *)
Lemma setHighlightedMesh_idempotent_witness :
  exists w1,
    setHighlightedMesh (Some 10) Sample.synced = Ret tt w1 /\
    setHighlightedMesh (Some 10) w1 = Ret tt w1.
Proof.
  eexists. split; [vm_compute; reflexivity|].
  apply (setHighlightedMesh_idempotent (Some 10) Sample.synced).
  vm_compute; reflexivity.
Defined.

Lemma emissiveOf_materialRef w m c :
  emissiveOf w m = Some c ->
  exists o r mat,
    objs w !! m = Some o /\ Object3D.material o = Some r /\ mats w !! r = Some mat /\
    Material.emissive mat = Some c /\ materialRef w m = Some r.
Proof.
  unfold emissiveOf. destruct (materialOf w m) as [mat|] eqn:Hm; [|discriminate].
  intros He. apply materialOf_Some in Hm as (o & r & Ho & Hr & Hmat).
  exists o, r, mat. repeat split; auto. unfold materialRef. now rewrite Ho.
Qed.

Lemma emissiveOf_intro w m o r mat :
  objs w !! m = Some o -> Object3D.material o = Some r -> mats w !! r = Some mat ->
  emissiveOf w m = Material.emissive mat.
Proof. intros Ho Hr Hm. unfold emissiveOf, materialOf. now rewrite Ho, Hr, Hm. Qed.

Lemma emissive_setEmissiveHex c mat e :
  Material.emissive mat = Some e ->
  Material.emissive (Material.setEmissiveHex c mat) = Some c.
Proof. destruct mat as [col [e'|] tr]; simpl; [reflexivity | discriminate]. Qed.

(** X3.  Moving the hover from one object to another whose material is a
    different one gives the new object the hover colour; the object left
    behind is reset to black, unless it is the active object, which keeps
    the colour it had. *)
Theorem setHighlightedMesh_moves_hover w h m ch cm :
  hoverObject w = Some h ->
  emissiveOf w h = Some ch ->
  emissiveOf w m = Some cm ->
  materialRef w h <> materialRef w m ->
  exists w',
    setHighlightedMesh (Some m) w = Ret tt w' /\
    hoverObject w' = Some m /\
    activeObject w' = activeObject w /\
    emissiveOf w' m = Some 0x555555%Z /\
    emissiveOf w' h = (if decide (activeObject w = Some h) then Some ch else Some 0%Z).
Proof.
  intros Hh Eh Em Hne.
  pose proof Eh as Eh0. pose proof Em as Em0.
  apply emissiveOf_materialRef in Eh as (oh & rh & math & Hoh & Hrh & Hmh & Heh & Rh).
  apply emissiveOf_materialRef in Em as (om & rm & matm & Hom & Hrm & Hmm & Hem & Rm).
  assert (Hr : rh <> rm) by congruence.
  unfold setHighlightedMesh. unfold bind at 1, gets. unfold bind at 1. rewrite Hh.
  rewrite bool_decide_true by discriminate. simpl andb.
  destruct (decide (activeObject w = Some h)) as [Ha|Ha].
  - rewrite bool_decide_false by (intros H; apply H; now rewrite Ha).
    unfold when. unfold bind at 1, ret. unfold bind at 1, modify. unfold bind at 1, gets.
    change (hoverObject (set_hoverObject (Some m) _)) with (Some m).
    rewrite bool_decide_true by discriminate.
    erewrite setMeshEmission_run; simpl; eauto.
    eexists. split; [reflexivity|]. simpl. repeat split.
    + rewrite (emissiveOf_intro _ m om rm (Material.setEmissiveHex 0x555555 matm));
        [eapply emissive_setEmissiveHex; eauto | exact Hom | exact Hrm |].
      apply list_lookup_insert_eq. eapply lookup_lt_Some; eauto.
    + rewrite (emissiveOf_intro _ h oh rh math); [auto | exact Hoh | exact Hrh |].
      simpl. rewrite list_lookup_insert_ne by auto. exact Hmh.
  - rewrite bool_decide_true by congruence.
    unfold when. erewrite bind_Ret by (eapply setMeshEmission_run; eauto).
    unfold bind at 1, modify. unfold bind at 1, gets.
    change (hoverObject (set_hoverObject (Some m) _)) with (Some m).
    rewrite bool_decide_true by discriminate.
    erewrite setMeshEmission_run; simpl; eauto.
    2:{ rewrite list_lookup_insert_ne by auto. eauto. }
    eexists. split; [reflexivity|]. simpl. repeat split.
    + rewrite (emissiveOf_intro _ m om rm (Material.setEmissiveHex 0x555555 matm));
        [eapply emissive_setEmissiveHex; eauto | exact Hom | exact Hrm |].
      apply list_lookup_insert_eq. rewrite length_insert. eapply lookup_lt_Some; eauto.
    + rewrite (emissiveOf_intro _ h oh rh (Material.setEmissiveHex 0%Z math));
        [eapply emissive_setEmissiveHex; eauto | exact Hoh | exact Hrh |].
      simpl. rewrite list_lookup_insert_ne by auto. apply list_lookup_insert_eq.
      eapply lookup_lt_Some; eauto.
Qed.

(** The theorem above at the scene whose road instance is hovered, the
    pointer moving on to the zone instance on (1, 1). *)
Lemma setHighlightedMesh_moves_hover_witness :
  exists w',
    setHighlightedMesh (Some 11) Demo.hovered = Ret tt w' /\
    hoverObject w' = Some 11 /\
    activeObject w' = activeObject Demo.hovered /\
    emissiveOf w' 11 = Some 0x555555%Z /\
    emissiveOf w' 10 = Some 0%Z.
Proof.
  apply (setHighlightedMesh_moves_hover Demo.hovered 10 11 0x555555%Z 0%Z).
  - reflexivity.
  - reflexivity.
  - reflexivity.
  - vm_compute. discriminate.
Defined.

(** X4.  [setActiveObject] gives the new object the active colour and
    resets the object that was active to black, whether or not that
    object is the hovered one; the hover itself is left as it was. *)
Theorem setActiveObject_switches w a m ca cm :
  activeObject w = Some a ->
  emissiveOf w a = Some ca ->
  emissiveOf w m = Some cm ->
  materialRef w a <> materialRef w m ->
  exists w',
    setActiveObject (Some m) w = Ret tt w' /\
    activeObject w' = Some m /\
    hoverObject w' = hoverObject w /\
    emissiveOf w' m = Some 0xaaaa55%Z /\
    emissiveOf w' a = Some 0%Z.
Proof.
  intros Ha Ea Em Hne.
  apply emissiveOf_materialRef in Ea as (oa & ra & mata & Hoa & Hra & Hma & Hea & Ra).
  apply emissiveOf_materialRef in Em as (om & rm & matm & Hom & Hrm & Hmm & Hem & Rm).
  assert (Hr : ra <> rm) by congruence.
  unfold setActiveObject. unfold bind at 1, gets. rewrite Ha.
  erewrite bind_Ret by (eapply setMeshEmission_run; eauto).
  unfold bind at 1, modify. unfold bind at 1, gets.
  change (activeObject (set_activeObject (Some m) _)) with (Some m).
  erewrite setMeshEmission_run; simpl; eauto.
  2:{ rewrite list_lookup_insert_ne by auto. eauto. }
  eexists. split; [reflexivity|]. simpl. repeat split.
  - rewrite (emissiveOf_intro _ m om rm (Material.setEmissiveHex 0xaaaa55 matm));
      [eapply emissive_setEmissiveHex; eauto | exact Hom | exact Hrm |].
    apply list_lookup_insert_eq. rewrite length_insert. eapply lookup_lt_Some; eauto.
  - rewrite (emissiveOf_intro _ a oa ra (Material.setEmissiveHex 0%Z mata));
      [eapply emissive_setEmissiveHex; eauto | exact Hoa | exact Hra |].
    simpl. rewrite list_lookup_insert_ne by auto. apply list_lookup_insert_eq.
    eapply lookup_lt_Some; eauto.
Qed.

(** The theorem above at the scene whose road instance is both hovered
    and active, the click going to the zone instance on (1, 1): the road
    instance is still hovered and shows no highlight. *)
Lemma setActiveObject_switches_witness :
  hoverObject Demo.picked = Some 10 /\
  exists w',
    setActiveObject (Some 11) Demo.picked = Ret tt w' /\
    activeObject w' = Some 11 /\
    hoverObject w' = hoverObject Demo.picked /\
    emissiveOf w' 11 = Some 0xaaaa55%Z /\
    emissiveOf w' 10 = Some 0%Z.
Proof.
  split; [reflexivity|].
  apply (setActiveObject_switches Demo.picked 10 11 0xaaaa55%Z 0%Z).
  - reflexivity.
  - reflexivity.
  - reflexivity.
  - vm_compute. discriminate.
Defined.

(** ** What the highlight operations leave alone *)

Lemma sameButEmission_refl a : sameButEmission a a.
Proof. unfold sameButEmission. tauto. Qed.

Lemma sameButEmission_set c a : sameButEmission a (Material.setEmissiveHex c a).
Proof. destruct a as [col [e|] tr]; unfold sameButEmission; simpl; intuition discriminate. Qed.

Lemma onlyEmission_refl w : onlyEmission w w.
Proof.
  unfold onlyEmission. repeat split; auto.
  apply Forall2_same_length_lookup_2; [reflexivity|].
  intros i a b Ha Hb. rewrite Ha in Hb. injection Hb as <-. apply sameButEmission_refl.
Qed.

Lemma onlyEmission_trans w1 w2 w3 :
  onlyEmission w1 w2 -> onlyEmission w2 w3 -> onlyEmission w1 w3.
Proof.
  unfold onlyEmission.
  intros (? & ? & ? & ? & ? & ? & ? & F1) (? & ? & ? & ? & ? & ? & ? & F2).
  repeat split; try congruence.
  eapply Forall2_trans; [|exact F1|exact F2].
  unfold sameButEmission. intros a b c (? & ? & ?) (? & ? & ?).
  repeat split; try congruence; tauto.
Qed.

Section Within.
Variable R : World -> World -> Prop.
Hypothesis R_refl : forall w, R w w.
Hypothesis R_trans : forall w1 w2 w3, R w1 w2 -> R w2 w3 -> R w1 w3.

Lemma within_bind {A B} (m : M A) (k : A -> M B) :
  within R m -> (forall a, within R (k a)) -> within R (bind m k).
Proof.
  intros Hm Hk w. unfold bind. specialize (Hm w).
  destruct (m w) as [a w1|e w1]; simpl in *; [|exact Hm].
  eapply R_trans; [exact Hm | apply Hk].
Qed.

Lemma within_ret {A} (a : A) : within R (ret a).
Proof. intros w. apply R_refl. Qed.

Lemma within_throw {A} e : within R (@throw A e).
Proof. intros w. apply R_refl. Qed.

Lemma within_gets {A} (f : World -> A) : within R (gets f).
Proof. intros w. apply R_refl. Qed.

Lemma within_when c (m : M unit) : within R m -> within R (when c m).
Proof. intros H. destruct c; [exact H | apply within_ret]. Qed.

Lemma within_forEach {A} (f : A -> M unit) l :
  (forall a, within R (f a)) -> within R (forEach l f).
Proof.
  intros Hf. induction l as [|a l IH]; simpl; [apply within_ret|].
  apply within_bind; auto.
Qed.
End Within.

Lemma onlyEmission_setMeshEmission mesh c : within onlyEmission (setMeshEmission mesh c).
Proof.
  intros w. destruct mesh as [m|]; simpl; [|apply onlyEmission_refl].
  unfold bind, getObj. destruct (objs w !! m) as [o|]; simpl; [|apply onlyEmission_refl].
  destruct (Object3D.material o) as [r|]; simpl; [|apply onlyEmission_refl].
  unfold updateMat, bind, getMat.
  destruct (mats w !! r) as [mat|] eqn:Hm; simpl; [|apply onlyEmission_refl].
  unfold onlyEmission; simpl. repeat split; auto.
  rewrite <- (list_insert_id (mats w) r mat Hm) at 1.
  apply Forall2_insert; [|apply sameButEmission_set].
  apply (onlyEmission_refl w).
Qed.

Lemma onlyEmission_bind {A B} (m : M A) (k : A -> M B) :
  within onlyEmission m -> (forall a, within onlyEmission (k a)) ->
  within onlyEmission (bind m k).
Proof. apply within_bind, onlyEmission_trans. Qed.

Lemma onlyEmission_gets {A} (f : World -> A) : within onlyEmission (gets f).
Proof. apply within_gets, onlyEmission_refl. Qed.

(** X5.  Whatever their outcome, [setHighlightedMesh] and
    [setActiveObject] touch nothing but emission colours and the hover
    and active references: objects, root children, slots, terrain, city,
    catalog and calls are as before, no material is added or removed,
    and every material keeps its colour and its transparency; a material
    without emission gets none. *)
Theorem highlight_only_emission mesh w :
  onlyEmission w (final (setHighlightedMesh mesh w)) /\
  onlyEmission w (final (setActiveObject mesh w)).
Proof.
  pose proof (@onlyEmission_bind) as Hb.
  pose proof (@onlyEmission_gets) as Hg.
  assert (Hhover : forall v, within onlyEmission (modify (set_hoverObject v))).
  { intros v w0. simpl. destruct (onlyEmission_refl w0) as (? & ? & ? & ? & ? & ? & ? & ?).
    unfold onlyEmission; simpl. repeat split; auto. }
  assert (Hactive : forall v, within onlyEmission (modify (set_activeObject v))).
  { intros v w0. simpl. destruct (onlyEmission_refl w0) as (? & ? & ? & ? & ? & ? & ? & ?).
    unfold onlyEmission; simpl. repeat split; auto. }
  split.
  - revert w. change (within onlyEmission (setHighlightedMesh mesh)).
    unfold setHighlightedMesh.
    apply Hb; [apply Hg|]. intros hover. apply Hb; [apply Hg|]. intros active.
    apply Hb.
    { apply within_when; [apply onlyEmission_refl|]. apply onlyEmission_setMeshEmission. }
    intros _. apply Hb; [apply Hhover|]. intros _. apply Hb; [apply Hg|]. intros hover'.
    apply within_when; [apply onlyEmission_refl|]. apply onlyEmission_setMeshEmission.
  - revert w. change (within onlyEmission (setActiveObject mesh)).
    unfold setActiveObject.
    apply Hb; [apply Hg|]. intros active.
    apply Hb; [apply onlyEmission_setMeshEmission|]. intros _.
    apply Hb; [apply Hactive|]. intros _. apply Hb; [apply Hg|]. intros active'.
    apply onlyEmission_setMeshEmission.
Qed.

(** ** The pass as a whole *)

(** X6.  Whatever its outcome, [applyChanges] leaves an empty slot
    empty: no instance is ever created for a coordinate that has none,
    whatever building the tile holds. *)
Theorem applyChanges_keeps_empty_slots w x y :
  slotAt w x y = None -> slotAt (final (applyChanges w)) x y = None.
Proof.
  intros Hslot. rewrite applyChanges_coords.
  apply (forEach_final (fun w0 => slotAt w0 x y = None)); [|exact Hslot].
  intros [x' y'] w0 _ Hs0. simpl.
  destruct (decide ((x, y) = (x', y'))) as [E|Hne].
  - injection E as <- <-.
    destruct (applyTile_idle_final x y w0) as (_ & _ & Hbs & _).
    { rewrite Hs0. unfold nothingToDo. now destruct (buildingAt w0 x y). }
    unfold slotAt in *. now rewrite Hbs.
  - destruct (applyTile_keeps_other x y x' y' Hne w0) as (Hs & _). now rewrite Hs.
Qed.

(** The theorem above for the scene with a road on (0, 0) whose slot was
    never filled. *)
Lemma applyChanges_keeps_empty_slots_witness :
  is_Some (buildingAt Sample.newRoad 0 0) /\
  slotAt (final (applyChanges Sample.newRoad)) 0 0 = None.
Proof.
  split; [eexists; reflexivity|].
  apply (applyChanges_keeps_empty_slots Sample.newRoad 0 0). reflexivity.
Defined.

Lemma TileStep_selection x y w w' :
  TileStep x y w w' ->
  hoverObject w' = hoverObject w /\ activeObject w' = activeObject w.
Proof. intros H. inversion H; subst; simpl; auto. Qed.

Lemma Steps_selection l w w' :
  Steps l w w' ->
  hoverObject w' = hoverObject w /\ activeObject w' = activeObject w.
Proof.
  induction 1 as [|x y l w w1 w2 Hstep _ IH]; [auto|].
  destruct (TileStep_selection _ _ _ _ Hstep) as [E1 E2].
  destruct IH as [E3 E4]. split; congruence.
Qed.

(** X7.  In a scene whose reads go through, a pass over a city in which
    tile [(x, y)] holds no building while its slot holds instance [m]
    returns, removes [m] from the root and then calls
    [updateTile(x, y, null)]; at the end [m] is no child of the root and
    the slot is empty.  The hover and active references are not updated:
    if [m] was hovered or active it still is. *)
Theorem applyChanges_removes_instance w x y m :
  storeOk w ->
  NoDup (root w) ->
  (forall x' y', x' < City.size (city w) -> y' < City.size (city w) -> ready w x' y') ->
  x < City.size (city w) -> y < City.size (city w) ->
  buildingAt w x y = None ->
  slotAt w x y = Some m ->
  m < length (objs w) ->
  exists w' before after,
    applyChanges w = Ret tt w' /\
    calls w' = calls w ++ before ++ [RootRemove m; UpdateTile x y None] ++ after /\
    (m ∉ root w') /\
    slotAt w' x y = None /\
    buildingAt w' x y = None /\
    hoverObject w' = hoverObject w /\
    activeObject w' = activeObject w.
Proof.
  intros Hok Hroot Hready Hx Hy Hb Hslot Hm_lt.
  destruct (applyChanges_total w Hok Hready) as [w' Hrun].
  pose proof Hrun as Hsteps. rewrite applyChanges_coords in Hsteps.
  apply forEach_Steps in Hsteps; [|exact Hok].
  destruct (Steps_selection _ _ _ Hsteps) as [Hhover Hactive].
  assert (Hin : (x, y) ∈ coords (City.size (city w))) by now apply elem_of_coords.
  apply list_elem_of_split in Hin as (l1 & l2 & Hsplit).
  pose proof (NoDup_coords (City.size (city w))) as Hnd.
  rewrite Hsplit in Hsteps, Hnd.
  apply NoDup_app in Hnd as (_ & Hdisj & Hnd2). apply NoDup_cons in Hnd2 as [Hnot2 Hnd_l2].
  assert (Hnot1 : (x, y) ∉ l1) by (intros Hin; apply (Hdisj _ Hin); left).
  apply Steps_split in Hsteps as (wa & wb & H1 & Hstep & H2).
  pose proof (Steps_root_NoDup _ _ _ H1 Hroot) as Hroot_a.
  destruct (Steps_other _ _ _ x y H1 Hnot1) as [Hslot_a Htile_a].
  pose proof (Steps_length _ _ _ H1) as Hlen_a.
  destruct (Steps_calls _ _ _ H1) as [before Hcalls_a].
  destruct (Steps_calls _ _ _ H2) as [after Hcalls_b].
  destruct (Steps_other _ _ _ x y H2 Hnot2) as [Hslot_b Htile_b].
  rewrite Hslot in Hslot_a.
  assert (Hb_a : buildingAt wa x y = None) by (unfold buildingAt; now rewrite Htile_a).
  inversion Hstep as [col t tv Hcol Ht Htv Hidle
                     | col t tv m0 Hcol Ht Htv Hb0 Hs
                     | col t tv m0 tile0 b Hcol Ht Htv Htile0 Hb0 Hstale0 Hs Hname
                     | col t tv m0 tile0 b name tid0 tpl0 p' new
                         Hcol Ht Htv Htile0 Hb0 Hstale0 Hs Hname Hmesh0 Htpl0 Hrefs Hlook];
    subst.
  - exfalso. unfold nothingToDo in Hidle. now rewrite Hb_a, Hslot_a in Hidle.
  - rewrite Hslot_a in Hs. injection Hs as <-.
    set (wt := terrainWritten x y t tv wa) in *.
    exists w', before, after.
    split; [exact Hrun|]. split.
    { rewrite Hcalls_b. unfold removed. simpl. rewrite Hcalls_a.
      rewrite <- !app_assoc. reflexivity. }
    split.
    { eapply Steps_root_out; [exact H2| |].
      - unfold removed. simpl. apply removeFirst_gone. exact Hroot_a.
      - unfold removed, wt, terrainWritten. simpl. rewrite length_insert. lia. }
    split.
    { rewrite Hslot_b. unfold slotAt, removed. simpl.
      apply (slotAt_insert_eq (buildings wa) col x y _ (Some m) Hcol).
      eapply slotAt_Some; eauto. }
    split.
    { unfold buildingAt. rewrite Htile_b. exact Hb_a. }
    auto.
  - exfalso. unfold buildingAt in Hb_a. rewrite Htile0 in Hb_a. simpl in Hb_a. congruence.
  - exfalso. unfold buildingAt in Hb_a. rewrite Htile0 in Hb_a. simpl in Hb_a. congruence.
Qed.

(** Closes [ready] at a concrete coordinate that needs no rebuild. *)
Ltac ready_clean :=
  split; [eexists; reflexivity|];
  split; [eexists; split; [reflexivity | eexists; reflexivity]|];
  intros b Hb Hstale Hslot; vm_compute in Hb; vm_compute in Hslot;
  first [ discriminate Hb
        | destruct Hslot as [? Hslot]; discriminate Hslot
        | injection Hb as <-; discriminate Hstale ].

(** The theorem above for the synced sample scene after the zone on
    (1, 1) was taken out of the city. *)
Lemma applyChanges_removes_instance_witness :
  exists w' before after,
    applyChanges Sample.zoneRemoved = Ret tt w' /\
    calls w' = calls Sample.zoneRemoved ++ before
                 ++ [RootRemove 11; UpdateTile 1 1 None] ++ after /\
    (11 ∉ root w') /\
    slotAt w' 1 1 = None /\
    buildingAt w' 1 1 = None /\
    hoverObject w' = hoverObject Sample.zoneRemoved /\
    activeObject w' = activeObject Sample.zoneRemoved.
Proof.
  apply (applyChanges_removes_instance Sample.zoneRemoved 1 1 11).
  - unfold storeOk. simpl. repeat (constructor; try lia).
  - simpl. repeat (constructor; [rewrite ?elem_of_cons, elem_of_nil; lia|]). constructor.
  - simpl. intros x y Hx Hy.
    destruct x as [|[|x]], y as [|[|y]]; try lia; ready_clean.
  - simpl. lia.
  - simpl. lia.
  - reflexivity.
  - reflexivity.
  - simpl. lia.
Defined.

(** X8.  After a returning pass the scene agrees with the city at every
    coordinate: the terrain mesh is visible exactly when the tile's
    building does not hide the terrain (always, for a tile without
    building), and a slot that holds an instance belongs to a tile with
    a building whose stale flag is cleared. *)
Theorem applyChanges_synchronises w w' x y :
  storeOk w ->
  NoDup (concat (terrain w)) ->
  applyChanges w = Ret tt w' ->
  x < City.size (city w) -> y < City.size (city w) ->
  (exists t tv,
     terrainAt w' x y = Some t /\ objs w' !! t = Some tv /\
     Object3D.visible tv
     = negb (match buildingAt w' x y with
             | Some b => Building.hideTerrain b
             | None => false
             end)) /\
  (forall m, slotAt w' x y = Some m ->
     exists b, buildingAt w' x y = Some b /\ Building.isMeshOutOfDate b = false).
Proof.
  intros Hok Hterr Hrun Hx Hy. rewrite applyChanges_coords in Hrun.
  apply forEach_Steps in Hrun; [|exact Hok].
  destruct (Steps_settled _ _ _ Hrun (NoDup_coords _) Hterr) as [Hin _].
  destruct (Hin x y) as (_ & (t & tv & Ht & Htv & Hvis) & Hidle).
  { now apply elem_of_coords. }
  split.
  - exists t, tv. repeat split; auto.
  - intros m Hm. rewrite Hm in Hidle. unfold nothingToDo in Hidle.
    destruct (buildingAt w' x y) as [b|]; [eauto | contradiction].
Qed.

(** The theorem above for the sample scene, at the tile of the zone that
    hides the terrain. *)
Lemma applyChanges_synchronises_witness :
  exists w',
    applyChanges Sample.scene = Ret tt w' /\
    (exists t tv,
       terrainAt w' 1 1 = Some t /\ objs w' !! t = Some tv /\
       Object3D.visible tv
       = negb (match buildingAt w' 1 1 with
               | Some b => Building.hideTerrain b
               | None => false
               end)) /\
    (forall m, slotAt w' 1 1 = Some m ->
       exists b, buildingAt w' 1 1 = Some b /\ Building.isMeshOutOfDate b = false).
Proof.
  eexists. split; [vm_compute; reflexivity|].
  apply (applyChanges_synchronises Sample.scene).
  - unfold storeOk. simpl. repeat (constructor; try lia).
  - simpl. repeat (constructor; [rewrite ?elem_of_cons, elem_of_nil; lia|]). constructor.
  - vm_compute. reflexivity.
  - simpl. lia.
  - simpl. lia.
Defined.

Lemma TileStep_slotsAllocated x y w w' :
  TileStep x y w w' -> slotsAllocated w -> slotsAllocated w'.
Proof.
  intros Hstep Hslots x0 y0 s Hs.
  pose proof (TileStep_length _ _ _ _ Hstep) as Hlen.
  destruct (decide ((x0, y0) = (x, y))) as [E|Hne].
  - injection E as -> ->.
    inversion Hstep as [col t tv Hcol Ht Htv Hidle
                       | col t tv m Hcol Ht Htv Hb Hs0
                       | col t tv m tile b Hcol Ht Htv Htile Hb Hstale Hs0 Hname
                       | col t tv m tile b name tid tpl p' new
                           Hcol Ht Htv Htile Hb Hstale Hs0 Hname Hmesh Htpl Hrefs Hlook];
      subst.
    + specialize (Hslots x y s Hs). lia.
    + unfold slotAt, removed in Hs. simpl in Hs.
      rewrite (slotAt_insert_eq (buildings w) col x y None (Some m) Hcol
                 (slotAt_Some w x y m col Hcol Hs0)) in Hs. discriminate.
    + unfold slotAt, dropped in Hs. simpl in Hs.
      rewrite (slotAt_insert_eq (buildings w) col x y None (Some m) Hcol
                 (slotAt_Some w x y m col Hcol Hs0)) in Hs. discriminate.
    + unfold slotAt, rebuilt in Hs. simpl in Hs.
      rewrite (slotAt_insert_eq (buildings w) col x y _ (Some m) Hcol
                 (slotAt_Some w x y m col Hcol Hs0)) in Hs.
      injection Hs as <-. unfold rebuilt. simpl. rewrite length_app. simpl. lia.
  - destruct (TileStep_other _ _ _ _ x0 y0 Hstep Hne) as [E _].
    rewrite E in Hs. specialize (Hslots x0 y0 s Hs). lia.
Qed.

Lemma Steps_slotsAllocated l w w' : Steps l w w' -> slotsAllocated w -> slotsAllocated w'.
Proof.
  induction 1 as [|x y l w w1 w2 Hstep _ IH]; [auto|].
  intros H. apply IH. eapply TileStep_slotsAllocated; eauto.
Qed.

(** X9.  A returning pass keeps the scene well-formed: objects still
    refer to allocated materials, the root still lists no child twice,
    slots still hold allocated objects.  It leaves catalog, terrain
    array, city size and the hover and active references as they were,
    keeps every material that existed (new ones are appended) and removes
    no object from the store. *)
Theorem applyChanges_keeps_invariants w w' :
  storeOk w ->
  NoDup (root w) ->
  slotsAllocated w ->
  applyChanges w = Ret tt w' ->
  storeOk w' /\ NoDup (root w') /\ slotsAllocated w' /\
  meshes w' = meshes w /\ terrain w' = terrain w /\
  City.size (city w') = City.size (city w) /\
  hoverObject w' = hoverObject w /\ activeObject w' = activeObject w /\
  (exists new, mats w' = mats w ++ new) /\
  length (objs w) <= length (objs w').
Proof.
  intros Hok Hroot Hslots Hrun. rewrite applyChanges_coords in Hrun.
  apply forEach_Steps in Hrun; [|exact Hok].
  destruct (Steps_fixed _ _ _ Hrun) as (Hm & Ht & Hsz & _).
  destruct (Steps_selection _ _ _ Hrun) as [Hh Ha].
  split; [eapply Steps_storeOk; eauto|].
  split; [eapply Steps_root_NoDup; eauto|].
  split; [eapply Steps_slotsAllocated; eauto|].
  repeat split; auto.
  - eapply Steps_mats; eauto.
  - eapply Steps_length; eauto.
Qed.

(** The theorem above on the sample scene. *)
Lemma applyChanges_keeps_invariants_witness :
  exists w',
    applyChanges Sample.scene = Ret tt w' /\
    storeOk w' /\ NoDup (root w') /\ slotsAllocated w' /\
    meshes w' = meshes Sample.scene /\ terrain w' = terrain Sample.scene /\
    City.size (city w') = City.size (city Sample.scene) /\
    hoverObject w' = hoverObject Sample.scene /\
    activeObject w' = activeObject Sample.scene /\
    (exists new, mats w' = mats Sample.scene ++ new) /\
    length (objs Sample.scene) <= length (objs w').
Proof.
  eexists. split; [vm_compute; reflexivity|].
  apply (applyChanges_keeps_invariants Sample.scene).
  - unfold storeOk. simpl. repeat (constructor; try lia).
  - simpl. repeat (constructor; [rewrite ?elem_of_cons, elem_of_nil; lia|]). constructor.
  - intros x y s Hs.
    destruct x as [|[|x]], y as [|[|y]]; vm_compute in Hs; try discriminate Hs;
      injection Hs as <-; simpl; lia.
  - vm_compute. reflexivity.
Defined.

(** X10.  A pass over a scene whose slot array has fewer columns than the
    city is wide does not return: the read of the first missing column
    throws, if nothing threw before.  With no column at all, as before
    the scene is first built, the pass throws at the first tile and
    leaves the state as it was. *)
Theorem applyChanges_needs_slot_columns w :
  length (buildings w) < City.size (city w) ->
  (exists e w', applyChanges w = Throw e w') /\
  (buildings w = [] ->
   applyChanges w = Throw (TypeError "Cannot read properties of undefined") w).
Proof.
  intros Hlt. split.
  - rewrite applyChanges_coords.
    apply (forEach_throws (fun w0 => length (buildings w0) = length (buildings w))
             _ _ (length (buildings w), 0)).
    + apply elem_of_coords. lia.
    + intros [x' y'] w0 Hne Hj. simpl.
      assert (Hne' : (length (buildings w), 0) <> (x', y')) by congruence.
      destruct (applyTile_keeps_other _ _ x' y' Hne' w0) as (_ & _ & _ & _ & Hl).
      congruence.
    + intros w0 Hj. simpl. unfold applyTile, bind, gets, readSlot.
      rewrite lookup_ge_None_2 by lia. eauto.
    + reflexivity.
  - intros Hnil. unfold applyChanges, bind, gets.
    destruct (City.size (city w)) as [|n] eqn:Hn; [lia|].
    simpl. unfold bind, applyTile, bind, gets, readSlot. now rewrite Hnil.
Qed.

(** The theorem above for a 2x2 city handed to a scene that was never
    built. *)
Lemma applyChanges_needs_slot_columns_witness :
  (exists e w', applyChanges (set_city Sample.town Sample.blank) = Throw e w') /\
  (buildings (set_city Sample.town Sample.blank) = [] ->
   applyChanges (set_city Sample.town Sample.blank)
   = Throw (TypeError "Cannot read properties of undefined")
       (set_city Sample.town Sample.blank)).
Proof.
  apply (applyChanges_needs_slot_columns (set_city Sample.town Sample.blank)).
  simpl. lia.
Defined.

(** ** The loader *)

Lemma traverseEach_assignLambert ks :
  Forall (fun k => forall ms,
            exists k' new,
              traverse assignLambert k ms = Some (k', ms ++ new) /\
              partRefs k' = seq (length ms) (length new) /\
              look (ms ++ new) k' = uniformLook Material.lambert k) ks ->
  forall ms,
    exists ks' new,
      traverseEach assignLambert ks ms = Some (ks', ms ++ new) /\
      flat_map partRefs ks' = seq (length ms) (length new) /\
      map (look (ms ++ new)) ks' = map (uniformLook Material.lambert) ks.
Proof.
  induction 1 as [|k ks Hk _ IHks]; intros ms; simpl in *.
  - exists [], []. rewrite app_nil_r. auto.
  - destruct (Hk ms) as (k' & n1 & -> & Hk'refs & Hk'look).
    destruct (IHks (ms ++ n1)) as (ks' & n2 & -> & Hks'refs & Hks'look).
    exists (k' :: ks'), (n1 ++ n2). rewrite app_assoc. split; [reflexivity|].
    split.
    + simpl. rewrite Hk'refs, Hks'refs, !length_app. symmetry. apply seq_app.
    + simpl. f_equal; [|exact Hks'look].
      rewrite <- Hk'look. apply look_app. rewrite Hk'refs, length_app.
      apply Forall_lt_seq.
Qed.

(** [traverse] with the callback of [loadModel]: every part, with or
    without a material before, gets a newly allocated Lambert material. *)
Lemma traverse_assignLambert p :
  forall ms,
    exists p' new,
      traverse assignLambert p ms = Some (p', ms ++ new) /\
      partRefs p' = seq (length ms) (length new) /\
      look (ms ++ new) p' = uniformLook Material.lambert p.
Proof.
  induction p as [m ks IH] using Part_ind. intros ms.
  rewrite traverse_Node. unfold assignLambert at 1.
  destruct (traverseEach_assignLambert ks IH (ms ++ [Material.lambert]))
    as (ks' & new & -> & Hr' & Hl').
  exists (Node (Some (length ms)) ks'), (Material.lambert :: new).
  rewrite <- app_assoc. simpl. split; [reflexivity|]. split.
  - rewrite Hr', length_app. simpl. f_equal. f_equal. lia.
  - f_equal.
    + rewrite (list_lookup_middle ms new _ (length ms) eq_refl). reflexivity.
    + change (ms ++ Material.lambert :: new) with (ms ++ [Material.lambert] ++ new).
      rewrite app_assoc. exact Hl'.
Qed.

Lemma mapLook_uniformLook f mat p :
  mapLook f (uniformLook mat p) = uniformLook (f mat) p.
Proof.
  induction p as [m ks IH] using Part_ind. simpl. f_equal.
  rewrite map_map. induction IH as [|k ks Hk _ IHks]; simpl; [reflexivity|].
  now rewrite Hk, IHks.
Qed.

(** The success callback for a mesh that was found: the state in which
    the template is stored, handed to [onLoad] when the load completes
    the catalog. *)
Lemma onGlbLoaded_run name meta glb w :
  exists p' new,
    partRefs p' = seq (length (mats w)) (length new) /\
    look (mats w ++ new) p' = uniformLook Material.lambert (Object3D.part glb) /\
    forall onLoad,
    onGlbLoaded onLoad name meta (Mesh glb) w
    = when (S (loadedModelCount w) =? modelCount w) onLoad
        (mkWorld
           (objs w ++ [Object3D.setRotation (rotationDegrees meta)
                         (Object3D.setPosition (0, 0, 0)%Z (Object3D.setPart p' glb))])
           (mats w ++ new)
           (<[name := length (objs w)]> (meshes w))
           (modelCount w) (S (loadedModelCount w)) (root w) (buildings w) (terrain w)
           (hoverObject w) (activeObject w) (city w) (calls w)).
Proof.
  destruct (traverse_assignLambert (Object3D.part glb) (mats w)) as (p' & new & Ht & Hr & Hl).
  exists p', new. split; [exact Hr|]. split; [exact Hl|]. intros onLoad.
  unfold onGlbLoaded. unfold bind at 1. unfold alloc.
  erewrite bind_Ret.
  2:{ apply traverseObj_run with (v := glb); simpl; [apply lookup_snoc | exact Ht]. }
  simpl. rewrite insert_snoc.
  erewrite bind_Ret by (apply updateObj_run; simpl; apply lookup_snoc).
  simpl. rewrite insert_snoc.
  erewrite bind_Ret by (apply updateObj_run; simpl; apply lookup_snoc).
  simpl. rewrite insert_snoc.
  unfold bind, modify, gets. simpl. reflexivity.
Qed.

(** X11.  The success callback of [loadModel] throws, with the state as
    it was, when the delivered file lacks
    [glb.scene.children[0].children[0]].  Otherwise it stores the mesh
    as a new template under its name (replacing an earlier entry of that
    name): the template sits at the origin with the rotation of its
    catalog entry, every one of its nodes carries a white Lambert
    material of its own, allocated by the callback; objects and
    materials that existed, the scene and the call record are as before.
    Only then, and only if the load completes the catalog, it runs the
    callback given to the constructor, in that state; if not, it
    returns. *)
Theorem onGlbLoaded_stores_template onLoad name meta w :
  onGlbLoaded onLoad name meta NoChild w
  = Throw (TypeError "Cannot read properties of undefined (reading 'children')") w /\
  onGlbLoaded onLoad name meta NoMesh w
  = Throw (TypeError "Cannot read properties of undefined (reading 'traverse')") w /\
  forall glb, exists w1 tpl,
    onGlbLoaded onLoad name meta (Mesh glb) w
    = (if S (loadedModelCount w) =? modelCount w then onLoad w1 else Ret tt w1) /\
    meshes w1 = <[name := length (objs w)]> (meshes w) /\
    objs w1 = objs w ++ [tpl] /\
    Object3D.position tpl = (0, 0, 0)%Z /\
    Object3D.rotation tpl = rotationDegrees meta /\
    Object3D.visible tpl = Object3D.visible glb /\
    lookOf w1 (length (objs w)) = Some (uniformLook Material.lambert (Object3D.part glb)) /\
    NoDup (partRefs (Object3D.part tpl)) /\
    Forall (fun r => length (mats w) <= r < length (mats w1)) (partRefs (Object3D.part tpl)) /\
    (exists new, mats w1 = mats w ++ new) /\
    loadedModelCount w1 = S (loadedModelCount w) /\
    modelCount w1 = modelCount w /\
    root w1 = root w /\ buildings w1 = buildings w /\ terrain w1 = terrain w /\
    city w1 = city w /\ calls w1 = calls w.
Proof.
  split; [reflexivity|]. split; [reflexivity|]. intros glb.
  destruct (onGlbLoaded_run name meta glb w) as (p' & new & Hr & Hl & Hrun).
  specialize (Hrun onLoad).
  eexists _, _. split.
  { rewrite Hrun. unfold when, ret.
    destruct (S (loadedModelCount w) =? modelCount w); reflexivity. }
  simpl.
  split; [reflexivity|]. split; [reflexivity|]. split; [reflexivity|].
  split; [reflexivity|]. split; [reflexivity|]. split.
  { unfold lookOf. simpl. rewrite lookup_snoc. simpl. now rewrite Hl. }
  split; [simpl; rewrite Hr; apply NoDup_seq|].
  split.
  { simpl. rewrite Hr. apply Forall_forall. intros r Hin. apply elem_of_seq in Hin.
    rewrite length_app. lia. }
  split; [eauto|]. auto 10.
Qed.

Lemma storeOk_snoc w v new :
  storeOk w ->
  Forall (fun r => r < length (mats w ++ new)) (partRefs (Object3D.part v)) ->
  Forall (fun v0 => Forall (fun r => r < length (mats w ++ new)) (partRefs (Object3D.part v0)))
         (objs w ++ [v]).
Proof.
  intros Hok Hv. apply Forall_app. split.
  - eapply Forall_impl; [exact Hok|]. intros v0 H0. simpl in *.
    eapply Forall_lt_weaken; [|exact H0]. rewrite length_app. lia.
  - constructor; [exact Hv | constructor].
Qed.

(** The success callback keeps the stores well-formed up to the point
    where it may run [onLoad]. *)
Lemma onGlbLoaded_invariant onLoad name meta glb w :
  storeOk w -> catalogOk w ->
  exists w1,
    onGlbLoaded onLoad name meta (Mesh glb) w
    = when (S (loadedModelCount w) =? modelCount w) onLoad w1 /\
    storeOk w1 /\ catalogOk w1 /\
    is_Some (meshes w1 !! name) /\
    (forall n, is_Some (meshes w !! n) -> is_Some (meshes w1 !! n)) /\
    loadedModelCount w1 = S (loadedModelCount w) /\ modelCount w1 = modelCount w /\
    root w1 = root w /\ buildings w1 = buildings w /\
    terrain w1 = terrain w /\ city w1 = city w /\ calls w1 = calls w.
Proof.
  intros Hok Hcat.
  destruct (onGlbLoaded_run name meta glb w) as (p' & new & Hr & Hl & Hrun).
  specialize (Hrun onLoad).
  eexists. split; [exact Hrun|]. simpl. split.
  { unfold storeOk. simpl. apply storeOk_snoc; [exact Hok|].
    simpl. rewrite Hr, length_app. apply Forall_lt_seq. }
  split.
  { intros n tid. simpl. rewrite length_app. simpl.
    destruct (decide (n = name)) as [->|Hne].
    - rewrite lookup_insert_eq. intros [= <-]. lia.
    - rewrite lookup_insert_ne by congruence. intros H. apply Hcat in H. lia. }
  split; [rewrite lookup_insert_eq; eauto|].
  split; [|auto 10].
  intros n Hn. destruct (decide (n = name)) as [->|Hne].
  - rewrite lookup_insert_eq. eauto.
  - now rewrite lookup_insert_ne by congruence.
Qed.

(** The callbacks of events that leave the catalog incomplete. *)
Lemma deliverTo_invariant onLoad es :
  forall w, storeOk w -> catalogOk w ->
  loadedModelCount w + successes es < modelCount w ->
  exists w',
    forEach es (deliverTo onLoad) w = Ret tt w' /\
    storeOk w' /\ catalogOk w' /\
    (forall n, is_Some (meshes w !! n) -> is_Some (meshes w' !! n)) /\
    (forall name, name ∈ loadedNames es -> is_Some (meshes w' !! name)) /\
    loadedModelCount w' = loadedModelCount w + successes es /\
    modelCount w' = modelCount w /\
    readyCount (calls w') = readyCount (calls w) /\
    root w' = root w /\ buildings w' = buildings w /\
    terrain w' = terrain w /\ city w' = city w.
Proof.
  induction es as [|e es IH]; intros w Hok Hcat Hlt.
  - exists w. simpl. rewrite Nat.add_0_r. repeat split; auto.
    intros name Hin. inversion Hin.
  - destruct e as [name meta glb | name | name err]; simpl in *.
    + destruct (onGlbLoaded_invariant onLoad name meta glb w Hok Hcat)
        as (w1 & Hrun & Hok1 & Hcat1 & Hname & Hmono & Hl1 & Hm1 & Hr1 & Hb1 & Ht1 & Hc1 & Hk1).
      assert (Hnot : (S (loadedModelCount w) =? modelCount w) = false)
        by (apply Nat.eqb_neq; lia).
      rewrite Hnot in Hrun. unfold when in Hrun.
      erewrite bind_Ret by exact Hrun.
      destruct (IH w1 Hok1 Hcat1)
        as (w' & Hd & Hok' & Hcat' & Hmono' & Hnames & Hl' & Hm' & Hrc & Hr & Hb & Ht & Hc).
      { lia. }
      exists w'. split; [exact Hd|]. split; [exact Hok'|]. split; [exact Hcat'|].
      split; [auto|]. split.
      { intros n Hin. apply elem_of_cons in Hin as [->|Hin]; auto. }
      repeat split; try congruence. lia.
    + destruct (IH w Hok Hcat Hlt) as (w' & Hd & H). exists w'. unfold bind, ret. auto.
    + unfold onModelError, call, bind, modify.
      match goal with |- context [forEach es (deliverTo onLoad) ?w1] =>
        destruct (IH w1)
          as (w' & Hd & Hok' & Hcat' & Hmono' & Hnames & Hl' & Hm' & Hrc & Hr & Hb & Ht & Hc)
      end; [exact Hok | exact Hcat | exact Hlt |].
      exists w'. simpl in *. repeat split; auto.
      rewrite Hrc, readyCount_app. simpl. lia.
Qed.

(** [onModelLoaded] is the success callback for a mesh that was found,
    with the record [Ready] for the callback of the constructor. *)
Lemma onModelLoaded_onGlbLoaded name meta glb :
  onModelLoaded name meta glb = onGlbLoaded (call Ready) name meta (Mesh glb).
Proof. reflexivity. Qed.

Lemma deliver_deliverTo e : deliver e = deliverTo (call Ready) e.
Proof. destruct e; reflexivity. Qed.

(** A success that does not complete the catalog does not run [onLoad]:
    the callback does the same whatever [onLoad] is. *)
Lemma onGlbLoaded_skips_onLoad onLoad onLoad' name meta found w :
  S (loadedModelCount w) <> modelCount w ->
  onGlbLoaded onLoad name meta found w = onGlbLoaded onLoad' name meta found w.
Proof.
  intros Hne. destruct found as [| |glb]; [reflexivity | reflexivity |].
  destruct (onGlbLoaded_run name meta glb w) as (p' & new & _ & _ & Hrun).
  rewrite (Hrun onLoad), (Hrun onLoad').
  apply Nat.eqb_neq in Hne. rewrite Hne. reflexivity.
Qed.

Lemma deliverTo_skips_onLoad onLoad onLoad' es :
  forall w, storeOk w -> catalogOk w ->
  loadedModelCount w + successes es < modelCount w ->
  forEach es (deliverTo onLoad) w = forEach es (deliverTo onLoad') w.
Proof.
  induction es as [|e es IH]; intros w Hok Hcat Hlt; [reflexivity|].
  destruct e as [name meta glb | name | name err]; simpl in *.
  - destruct (onGlbLoaded_invariant onLoad name meta glb w Hok Hcat)
      as (w1 & Hrun & Hok1 & Hcat1 & _ & _ & Hl1 & Hm1 & _).
    assert (Hne : S (loadedModelCount w) <> modelCount w) by lia.
    assert (Hrun1 : onGlbLoaded onLoad name meta (Mesh glb) w = Ret tt w1).
    { rewrite Hrun. apply Nat.eqb_neq in Hne. rewrite Hne. reflexivity. }
    assert (Hrun' : onGlbLoaded onLoad' name meta (Mesh glb) w = Ret tt w1).
    { rewrite <- (onGlbLoaded_skips_onLoad onLoad onLoad' name meta (Mesh glb) w Hne).
      exact Hrun1. }
    rewrite (bind_Ret _ _ _ _ _ Hrun1), (bind_Ret _ _ _ _ _ Hrun').
    apply IH; [exact Hok1 | exact Hcat1 | lia].
  - unfold bind, ret. apply IH; assumption.
  - unfold onModelError, call, bind, modify. apply IH; assumption.
Qed.

(** X12.  Whatever callback the constructor was given: for events that
    leave the catalog incomplete (models delivered with their mesh,
    progress reports and failures, in any order) the callbacks all
    return without running it, ending in one state whichever callback
    was given, and keep the stores well-formed: objects
    refer to allocated materials and catalog entries to allocated
    objects, every name delivered with a model is in the catalog, and the
    scene (root children, slots, terrain, city) is not touched.  The
    success that completes the catalog then runs the callback in a state
    that is well-formed in the same way and holds every delivered
    model. *)
Theorem deliverTo_keeps_stores onLoad es w :
  storeOk w -> catalogOk w ->
  loadedModelCount w + successes es < modelCount w ->
  exists w',
    (forall onLoad', forEach es (deliverTo onLoad') w = Ret tt w') /\
    storeOk w' /\ catalogOk w' /\
    (forall name, name ∈ loadedNames es -> is_Some (meshes w' !! name)) /\
    loadedModelCount w' = loadedModelCount w + successes es /\
    readyCount (calls w') = readyCount (calls w) /\
    root w' = root w /\ buildings w' = buildings w /\
    terrain w' = terrain w /\ city w' = city w /\
    forall name meta glb,
      S (loadedModelCount w') = modelCount w' ->
      exists w1,
        deliverTo onLoad (Loaded name meta glb) w' = onLoad w1 /\
        storeOk w1 /\ catalogOk w1 /\
        (forall n, n ∈ loadedNames es ++ [name] -> is_Some (meshes w1 !! n)) /\
        root w1 = root w /\ buildings w1 = buildings w /\
        terrain w1 = terrain w /\ city w1 = city w.
Proof.
  intros Hok Hcat Hlt.
  destruct (deliverTo_invariant onLoad es w Hok Hcat Hlt)
    as (w' & Hd & Hok' & Hcat' & _ & Hnames & Hl' & Hm' & Hrc & Hr & Hb & Ht & Hc).
  exists w'. split.
  { intros onLoad'. rewrite <- Hd. symmetry.
    apply deliverTo_skips_onLoad; assumption. }
  split; [exact Hok'|]. split; [exact Hcat'|].
  split; [exact Hnames|]. split; [exact Hl'|]. split; [exact Hrc|].
  split; [exact Hr|]. split; [exact Hb|]. split; [exact Ht|]. split; [exact Hc|].
  intros name meta glb Hlast. simpl.
  destruct (onGlbLoaded_invariant onLoad name meta glb w' Hok' Hcat')
    as (w1 & Hrun & Hok1 & Hcat1 & Hname & Hmono & _ & _ & Hr1 & Hb1 & Ht1 & Hc1 & _).
  apply Nat.eqb_eq in Hlast. rewrite Hlast in Hrun. unfold when in Hrun.
  exists w1. split; [exact Hrun|]. split; [exact Hok1|]. split; [exact Hcat1|].
  split.
  { intros n Hin. apply elem_of_app in Hin as [Hin|Hin]; [auto|].
    apply list_elem_of_singleton in Hin. now subst. }
  repeat split; congruence.
Qed.

(** The theorem above for a catalog of five models, three of them
    loaded, and a delivery with a failure. *)
Lemma deliverTo_keeps_stores_witness :
  exists w',
    (forall onLoad', forEach Demo.late (deliverTo onLoad') Demo.loading = Ret tt w') /\
    storeOk w' /\ catalogOk w' /\
    (forall name, name ∈ loadedNames Demo.late -> is_Some (meshes w' !! name)) /\
    loadedModelCount w' = loadedModelCount Demo.loading + successes Demo.late /\
    readyCount (calls w') = readyCount (calls Demo.loading) /\
    root w' = root Demo.loading /\ buildings w' = buildings Demo.loading /\
    terrain w' = terrain Demo.loading /\ city w' = city Demo.loading /\
    forall name meta glb,
      S (loadedModelCount w') = modelCount w' ->
      exists w1,
        deliverTo (call Ready) (Loaded name meta glb) w' = call Ready w1 /\
        storeOk w1 /\ catalogOk w1 /\
        (forall n, n ∈ loadedNames Demo.late ++ [name] -> is_Some (meshes w1 !! n)) /\
        root w1 = root Demo.loading /\ buildings w1 = buildings Demo.loading /\
        terrain w1 = terrain Demo.loading /\ city w1 = city Demo.loading.
Proof.
  apply (deliverTo_keeps_stores (call Ready) Demo.late Demo.loading).
  - unfold storeOk. simpl. repeat (constructor; try lia).
  - intros name tid H.
    assert (Hin : (name, tid) ∈ map_to_list (meshes Demo.loading))
      by now apply elem_of_map_to_list.
    vm_compute in Hin.
    repeat (apply elem_of_cons in Hin as [Hin|Hin]; [injection Hin as -> ->; simpl; lia|]).
    inversion Hin.
  - simpl. lia.
Defined.

(** X13.  A model that was delivered can be instantiated.  For a
    delivered mesh all of whose nodes are meshes, and a load that does
    not complete the catalog, the success callback returns, and
    [cloneMesh] of the same name then returns a new object, placed and
    rotated like the template, each of whose nodes carries a white
    Lambert material with the requested transparency; the instance
    shares no material with the template, which still looks as it was
    stored. *)
Theorem load_then_clone onLoad name meta glb t w :
  allMeshes (Object3D.part glb) = true ->
  S (loadedModelCount w) <> modelCount w ->
  exists w1 w2 m v,
    onGlbLoaded onLoad name meta (Mesh glb) w = Ret tt w1 /\
    cloneMesh name t w1 = Ret m w2 /\
    m = S (length (objs w)) /\
    objs w2 !! m = Some v /\
    Object3D.position v = (0, 0, 0)%Z /\
    Object3D.rotation v = rotationDegrees meta /\
    lookOf w2 m
    = Some (uniformLook (Material.mk 0xffffff%Z (Some 0%Z) t) (Object3D.part glb)) /\
    lookOf w2 (length (objs w)) = Some (uniformLook Material.lambert (Object3D.part glb)) /\
    (forall r, r ∈ refsOf w2 m -> r ∉ refsOf w2 (length (objs w))).
Proof.
  intros _ Hnot.
  destruct (onGlbLoaded_run name meta glb w) as (p' & new & Hr & Hl & Hrun).
  specialize (Hrun onLoad).
  apply Nat.eqb_neq in Hnot. rewrite Hnot in Hrun. unfold when, ret in Hrun.
  match type of Hrun with _ = Ret tt ?W => set (w1 := W) in * end.
  set (tpl := Object3D.setRotation (rotationDegrees meta)
                (Object3D.setPosition (0, 0, 0)%Z (Object3D.setPart p' glb))) in *.
  assert (Hmesh : meshes w1 !! name = Some (length (objs w))).
  { unfold w1. simpl. apply lookup_insert_eq. }
  assert (Htpl : objs w1 !! length (objs w) = Some tpl).
  { unfold w1. simpl. apply lookup_snoc. }
  assert (Hrefs : Forall (fun r => r < length (mats w1)) (partRefs (Object3D.part tpl))).
  { unfold w1, tpl. simpl. rewrite Hr, length_app. apply Forall_lt_seq. }
  assert (Hlen1 : length (objs w1) = S (length (objs w))).
  { unfold w1. simpl. rewrite length_app. simpl. lia. }
  assert (Hl1 : look (mats w1) (Object3D.part tpl)
                = uniformLook Material.lambert (Object3D.part glb)).
  { unfold w1, tpl. simpl. exact Hl. }
  clearbody w1.
  destruct (cloneMesh_run name t w1 _ tpl Hmesh Htpl Hrefs)
    as (p2 & new2 & _ & Hr2 & Hl2 & Hclone).
  eexists w1, _, _, _. split; [exact Hrun|]. split; [exact Hclone|].
  split; [exact Hlen1|].
  split; [simpl; apply lookup_snoc|].
  split; [reflexivity|]. split; [reflexivity|].
  split.
  { unfold lookOf. simpl. rewrite lookup_snoc. simpl. f_equal.
    rewrite Hl2, Hl1. exact (mapLook_uniformLook (Material.setTransparent t) Material.lambert _). }
  split.
  { unfold lookOf. simpl.
    rewrite lookup_app_l by lia.
    rewrite Htpl. simpl. f_equal. rewrite look_app by exact Hrefs. exact Hl1. }
  intros r. unfold refsOf. simpl. rewrite lookup_snoc.
  rewrite lookup_app_l by lia.
  rewrite Htpl. simpl. rewrite Hr2. intros Hin Hin'.
  apply elem_of_seq in Hin. rewrite Forall_forall in Hrefs.
  specialize (Hrefs r Hin'). lia.
Qed.

(** The theorem above for a car of two meshes, delivered as the fourth
    of five models. *)
Lemma load_then_clone_witness :
  exists w1 w2 m v,
    onGlbLoaded (call Ready) "car-taxi" (Sample.meta "car-taxi.glb") (Mesh Demo.car)
      Demo.loading = Ret tt w1 /\
    cloneMesh "car-taxi" true w1 = Ret m w2 /\
    m = S (length (objs Demo.loading)) /\
    objs w2 !! m = Some v /\
    Object3D.position v = (0, 0, 0)%Z /\
    Object3D.rotation v = rotationDegrees (Sample.meta "car-taxi.glb") /\
    lookOf w2 m
    = Some (uniformLook (Material.mk 0xffffff%Z (Some 0%Z) true)
              (Object3D.part Demo.car)) /\
    lookOf w2 (length (objs Demo.loading))
    = Some (uniformLook Material.lambert (Object3D.part Demo.car)) /\
    (forall r, r ∈ refsOf w2 m -> r ∉ refsOf w2 (length (objs Demo.loading))).
Proof.
  apply (load_then_clone (call Ready) "car-taxi" (Sample.meta "car-taxi.glb") Demo.car true
           Demo.loading).
  - reflexivity.
  - simpl. lia.
Defined.

(** ** The factories *)

Lemma createGroundMesh_run tile w tid tpl :
  meshes w !! "grass" = Some tid ->
  objs w !! tid = Some tpl ->
  Forall (fun r => r < length (mats w)) (partRefs (Object3D.part tpl)) ->
  exists p' new,
    partRefs p' = seq (length (mats w)) (length new) /\
    look (mats w ++ new) p'
    = mapLook (Material.setTransparent false) (look (mats w) (Object3D.part tpl)) /\
    createGroundMesh tile w
    = Ret (length (objs w))
        (set_mats (mats w ++ new)
           (set_objs
              (objs w ++
                 [Object3D.mk p' (Tile.x tile, 0%Z, Tile.y tile)
                    (Object3D.rotation tpl) (Object3D.visible tpl)
                    (Some (Tile.x tile, Tile.y tile))]) w)).
Proof.
  intros Hname Htpl Hrefs.
  destruct (cloneMesh_run _ false w tid tpl Hname Htpl Hrefs)
    as (p' & new & _ & Hr & Hl & Hrun).
  exists p', new. split; [exact Hr|]. split; [exact Hl|].
  unfold createGroundMesh.
  erewrite bind_Ret by exact Hrun.
  erewrite bind_Ret by (apply updateObj_run; simpl; apply lookup_snoc).
  simpl. rewrite insert_snoc.
  erewrite bind_Ret by (apply updateObj_run; simpl; apply lookup_snoc).
  simpl. rewrite insert_snoc. reflexivity.
Qed.

(** X14.  With the grass model loaded, [createGroundMesh(tile)] returns a
    new object placed at [(tile.x, 0, tile.y)] that refers to the tile
    and looks like the grass template with opaque materials of its own;
    it adds nothing to the root, issues no call, and leaves the objects
    and materials that existed as they were.  Without the grass model it
    throws and leaves the state as it was. *)
Theorem createGroundMesh_places_instance tile w :
  storeOk w ->
  catalogOk w ->
  match meshes w !! "grass" with
  | None =>
      createGroundMesh tile w
      = Throw (TypeError "Cannot read properties of undefined (reading 'clone')") w
  | Some tid =>
      exists w' v new tpl,
        objs w !! tid = Some tpl /\
        createGroundMesh tile w = Ret (length (objs w)) w' /\
        objs w' = objs w ++ [v] /\
        mats w' = mats w ++ new /\
        Object3D.position v = (Tile.x tile, 0%Z, Tile.y tile) /\
        Object3D.userData v = Some (Tile.x tile, Tile.y tile) /\
        Object3D.rotation v = Object3D.rotation tpl /\
        lookOf w' (length (objs w))
        = Some (mapLook (Material.setTransparent false)
                  (look (mats w) (Object3D.part tpl))) /\
        Forall (fun r => length (mats w) <= r) (partRefs (Object3D.part v)) /\
        root w' = root w /\ calls w' = calls w /\ gridKept w w'
  end.
Proof.
  intros Hok Hcat. destruct (meshes w !! "grass") as [tid|] eqn:Hname.
  - destruct (lookup_lt_is_Some_2 (objs w) tid (Hcat _ _ Hname)) as [tpl Htpl].
    destruct (createGroundMesh_run tile w tid tpl Hname Htpl (storeOk_lookup _ _ _ Hok Htpl))
      as (p' & new & Hr & Hl & Hrun).
    eexists _, _, new, tpl. split; [exact Htpl|]. split; [exact Hrun|]. simpl.
    split; [reflexivity|]. split; [reflexivity|]. split; [reflexivity|].
    split; [reflexivity|]. split; [reflexivity|]. split.
    { unfold lookOf. simpl. rewrite lookup_snoc. simpl. now rewrite Hl. }
    split.
    { simpl. rewrite Hr. apply Forall_forall. intros r Hin.
      apply elem_of_seq in Hin. lia. }
    repeat split; reflexivity.
  - unfold createGroundMesh. apply bind_Throw. now apply cloneMesh_absent.
Qed.

(** The theorem above with the sample catalog loaded, for a tile at
    (2, 3). *)
Lemma createGroundMesh_places_instance_witness :
  exists tid,
    meshes Sample.loaded !! "grass" = Some tid /\
    exists w' v new tpl,
      objs Sample.loaded !! tid = Some tpl /\
      createGroundMesh (Tile.mk 2%Z 3%Z None) Sample.loaded
      = Ret (length (objs Sample.loaded)) w' /\
      objs w' = objs Sample.loaded ++ [v] /\
      mats w' = mats Sample.loaded ++ new /\
      Object3D.position v = (2, 0, 3)%Z /\
      Object3D.userData v = Some (2, 3)%Z /\
      Object3D.rotation v = Object3D.rotation tpl /\
      lookOf w' (length (objs Sample.loaded))
      = Some (mapLook (Material.setTransparent false)
                (look (mats Sample.loaded) (Object3D.part tpl))) /\
      Forall (fun r => length (mats Sample.loaded) <= r) (partRefs (Object3D.part v)) /\
      root w' = root Sample.loaded /\ calls w' = calls Sample.loaded /\
      gridKept Sample.loaded w'.
Proof.
  assert (Hok : storeOk Sample.loaded).
  { unfold storeOk. simpl. repeat (constructor; try lia). }
  assert (Hcat : catalogOk Sample.loaded).
  { intros name tid H.
    assert (Hin : (name, tid) ∈ map_to_list (meshes Sample.loaded))
      by now apply elem_of_map_to_list.
    vm_compute in Hin.
    repeat (apply elem_of_cons in Hin as [Hin|Hin]; [injection Hin as -> ->; simpl; lia|]).
    inversion Hin. }
  exists 0. split; [reflexivity|].
  exact (createGroundMesh_places_instance (Tile.mk 2%Z 3%Z None) Sample.loaded Hok Hcat).
Defined.

(** X15.  For a tile whose building is of a recognised kind and whose
    model is loaded, [createBuildingMesh] returns a new object placed at
    [(building.x, 0, building.y)] with the building's rotation, referring
    to the tile and looking like the template (opaque, and tinted at the
    root for an abandoned zone).  The factory only appends to the stores:
    the template and every other object and material that existed are as
    before, nothing is added to the root and no call is issued. *)
Theorem createBuildingMesh_builds_instance tile b name w :
  storeOk w ->
  Tile.building tile = Some b ->
  modelNameOf b = Some name ->
  modelReady w b ->
  exists w' v new tid tpl,
    meshes w !! name = Some tid /\
    objs w !! tid = Some tpl /\
    createBuildingMesh (Some tile) w = Ret (Some (length (objs w))) w' /\
    objs w' = objs w ++ [v] /\
    mats w' = mats w ++ new /\
    Object3D.position v = (Building.x b, 0%Z, Building.y b) /\
    Object3D.rotation v = Building.rotation b /\
    Object3D.userData v = Some (Tile.x tile, Tile.y tile) /\
    lookOf w' (length (objs w)) = Some (instanceLook b (look (mats w) (Object3D.part tpl))) /\
    lookOf w' tid = lookOf w tid /\
    Forall (fun r => length (mats w) <= r) (partRefs (Object3D.part v)) /\
    root w' = root w /\ calls w' = calls w /\ gridKept w w'.
Proof.
  intros Hok Hb Hname Hready.
  destruct (modelReady_lookup _ _ _ Hready Hname) as (tid & tpl & Hmesh & Htpl & Htint).
  pose proof (storeOk_lookup _ _ _ Hok Htpl) as Hrefs.
  destruct (createBuildingMesh_run tile b name w tid tpl Hb Hname Hmesh Htpl Hrefs Htint)
    as (p' & new & Hr & Hl & Hrun).
  eexists _, _, new, tid, tpl.
  split; [exact Hmesh|]. split; [exact Htpl|]. split; [exact Hrun|]. simpl.
  split; [reflexivity|]. split; [reflexivity|]. split; [reflexivity|].
  split; [reflexivity|]. split; [reflexivity|]. split.
  { unfold lookOf. simpl. rewrite lookup_snoc. simpl. now rewrite Hl. }
  split.
  { unfold lookOf. simpl.
    rewrite lookup_app_l by (eapply lookup_lt_Some; eauto).
    rewrite Htpl. simpl. f_equal. now apply look_app. }
  split.
  { simpl. rewrite Hr. apply Forall_forall. intros r Hin.
    apply elem_of_seq in Hin. lia. }
  repeat split; reflexivity.
Qed.

(** The theorem above for the abandoned zone on tile (1, 1), with the
    sample catalog loaded. *)
Lemma createBuildingMesh_builds_instance_witness :
  exists w' v new tid tpl,
    meshes Sample.loaded !! "residential-A1" = Some tid /\
    objs Sample.loaded !! tid = Some tpl /\
    createBuildingMesh (Some Sample.abandonedTile) Sample.loaded
    = Ret (Some (length (objs Sample.loaded))) w' /\
    objs w' = objs Sample.loaded ++ [v] /\
    mats w' = mats Sample.loaded ++ new /\
    Object3D.position v
    = (Building.x Sample.abandonedZone, 0%Z, Building.y Sample.abandonedZone) /\
    Object3D.rotation v = Building.rotation Sample.abandonedZone /\
    Object3D.userData v = Some (Tile.x Sample.abandonedTile, Tile.y Sample.abandonedTile) /\
    lookOf w' (length (objs Sample.loaded))
    = Some (instanceLook Sample.abandonedZone
              (look (mats Sample.loaded) (Object3D.part tpl))) /\
    lookOf w' tid = lookOf Sample.loaded tid /\
    Forall (fun r => length (mats Sample.loaded) <= r) (partRefs (Object3D.part v)) /\
    root w' = root Sample.loaded /\ calls w' = calls Sample.loaded /\
    gridKept Sample.loaded w'.
Proof.
  apply (createBuildingMesh_builds_instance Sample.abandonedTile Sample.abandonedZone
           "residential-A1" Sample.loaded).
  - unfold storeOk. simpl. repeat (constructor; try lia).
  - reflexivity.
  - reflexivity.
  - exists 2, Sample.houseTemplate.
    split; [reflexivity|]. split; [reflexivity|]. intros _. eexists. reflexivity.
Defined.

Lemma elem_of_vehicleTypes models name :
  name ∈ vehicleTypes models <-> (name, Some "vehicle") ∈ models.
Proof.
  unfold vehicleTypes. rewrite list_elem_of_In, in_map_iff. split.
  - intros ([n ty] & <- & Hin). apply filter_In in Hin as [Hin Hty].
    apply bool_decide_eq_true in Hty. simpl in *. subst ty. now apply list_elem_of_In.
  - intros Hin. exists (name, Some "vehicle"). split; [reflexivity|].
    apply filter_In. split; [now apply list_elem_of_In|].
    now apply bool_decide_eq_true.
Qed.

(** X16.  Whatever index within the list of vehicle models is drawn,
    [createRandomVehicleMesh] returns a new object that looks like the
    template of a catalog entry of type "vehicle", with materials of its
    own that are all transparent.  With no vehicle model in the catalog
    (and no model named "undefined") it throws, whatever is drawn, and
    leaves the state as it was. *)
Theorem createRandomVehicleMesh_clones_vehicle models i w :
  storeOk w ->
  catalogOk w ->
  (forall name, (name, Some "vehicle") ∈ models -> is_Some (meshes w !! name)) ->
  (i < length (vehicleTypes models) ->
   exists name tid tpl w',
     (name, Some "vehicle") ∈ models /\
     meshes w !! name = Some tid /\
     objs w !! tid = Some tpl /\
     createRandomVehicleMesh models i w = Ret (length (objs w)) w' /\
     lookOf w' (length (objs w))
     = Some (mapLook (Material.setTransparent true) (look (mats w) (Object3D.part tpl))) /\
     (forall r, r ∈ refsOf w' (length (objs w)) -> length (mats w) <= r)) /\
  (vehicleTypes models = [] -> meshes w !! "undefined" = None ->
   createRandomVehicleMesh models i w
   = Throw (TypeError "Cannot read properties of undefined (reading 'clone')") w).
Proof.
  intros Hok Hcat Hloaded. split.
  - intros Hi. destruct (lookup_lt_is_Some_2 _ _ Hi) as [name Hname].
    assert (Hin : (name, Some "vehicle") ∈ models).
    { apply elem_of_vehicleTypes. eapply list_elem_of_lookup_2; eauto. }
    destruct (Hloaded name Hin) as [tid Hmesh].
    destruct (lookup_lt_is_Some_2 (objs w) tid (Hcat _ _ Hmesh)) as [tpl Htpl].
    destruct (cloneMesh_run name true w tid tpl Hmesh Htpl (storeOk_lookup _ _ _ Hok Htpl))
      as (p' & new & _ & Hr & Hl & Hrun).
    exists name, tid, tpl. eexists.
    split; [exact Hin|]. split; [exact Hmesh|]. split; [exact Htpl|].
    unfold createRandomVehicleMesh. rewrite Hname. simpl.
    split; [exact Hrun|]. split.
    + unfold lookOf. simpl. rewrite lookup_snoc. simpl. now rewrite Hl.
    + intros r. unfold refsOf. simpl. rewrite lookup_snoc. simpl. rewrite Hr.
      intros Hin'. apply elem_of_seq in Hin'. lia.
  - intros Hnone Habs. unfold createRandomVehicleMesh. rewrite Hnone. simpl.
    now apply cloneMesh_absent.
Qed.

(** The theorem above for the sample catalog with one vehicle model. *)
Lemma createRandomVehicleMesh_clones_vehicle_witness :
  exists name tid tpl w',
    (name, Some "vehicle") ∈ Demo.tagged /\
    meshes Demo.garage !! name = Some tid /\
    objs Demo.garage !! tid = Some tpl /\
    createRandomVehicleMesh Demo.tagged 0 Demo.garage
    = Ret (length (objs Demo.garage)) w' /\
    lookOf w' (length (objs Demo.garage))
    = Some (mapLook (Material.setTransparent true)
              (look (mats Demo.garage) (Object3D.part tpl))) /\
    (forall r, r ∈ refsOf w' (length (objs Demo.garage)) -> length (mats Demo.garage) <= r).
Proof.
  assert (Hok : storeOk Demo.garage).
  { unfold storeOk. simpl. repeat (constructor; try lia). }
  assert (Hcat : catalogOk Demo.garage).
  { intros name tid H.
    assert (Hin : (name, tid) ∈ map_to_list (meshes Demo.garage))
      by now apply elem_of_map_to_list.
    vm_compute in Hin.
    repeat (apply elem_of_cons in Hin as [Hin|Hin]; [injection Hin as -> ->; simpl; lia|]).
    inversion Hin. }
  assert (Hloaded : forall name, (name, Some "vehicle") ∈ Demo.tagged ->
                                 is_Some (meshes Demo.garage !! name)).
  { intros name Hin. unfold Demo.tagged in Hin.
    repeat (apply elem_of_cons in Hin as [Hin|Hin];
            [first [discriminate Hin | injection Hin as ->; eexists; reflexivity]|]).
    inversion Hin. }
  apply (proj1 (createRandomVehicleMesh_clones_vehicle Demo.tagged 0 Demo.garage
                  Hok Hcat Hloaded)).
  vm_compute. lia.
Defined.

(** ** Building the scene *)

Lemma extends_refl w : extends w w.
Proof.
  unfold extends. split; [exists []; now rewrite app_nil_r|].
  split; [exists []; now rewrite app_nil_r|]. auto 10.
Qed.

Lemma extends_trans w1 w2 w3 : extends w1 w2 -> extends w2 w3 -> extends w1 w3.
Proof.
  unfold extends.
  intros ([o1 Ho1] & [m1 Hm1] & ? & ? & ? & ? & Hr1) ([o2 Ho2] & [m2 Hm2] & ? & ? & ? & ? & Hr2).
  split; [exists (o1 ++ o2); rewrite Ho2, Ho1, app_assoc; reflexivity|].
  split; [exists (m1 ++ m2); rewrite Hm2, Hm1, app_assoc; reflexivity|].
  repeat split; try congruence. auto.
Qed.

Lemma extends_lookup w w' o v : extends w w' -> objs w !! o = Some v -> objs w' !! o = Some v.
Proof. intros ([more ->] & _) H. now apply lookup_app_l_Some. Qed.

Lemma rootAdd_run o w :
  rootAdd (Some o) w
  = Ret tt (set_root (removeFirst o (root w) ++ [o]) (set_calls (calls w ++ [RootAdd o]) w)).
Proof. reflexivity. Qed.

Lemma elem_of_rootAdd o a l : a ∈ l -> a ∈ removeFirst o l ++ [o].
Proof.
  intros H. apply elem_of_app. destruct (decide (a = o)) as [->|Hne].
  - right. left.
  - left. now apply elem_of_removeFirst_ne.
Qed.

(** A new object appended to the stores and added to the root. *)
Lemma extends_added w v new :
  extends w
    (set_root (removeFirst (length (objs w)) (root w) ++ [length (objs w)])
       (set_calls (calls w ++ [RootAdd (length (objs w))])
          (set_mats (mats w ++ new) (set_objs (objs w ++ [v]) w)))).
Proof.
  unfold extends. simpl. split; [eauto|]. split; [eauto|].
  repeat split; auto. intros o. apply elem_of_rootAdd.
Qed.

Lemma groundColumn_run x tid tpl :
  forall ys column w,
    storeOk w ->
    meshes w !! "grass" = Some tid -> objs w !! tid = Some tpl ->
    (forall y, y ∈ ys -> is_Some (City.getTile (city w) x y)) ->
    exists w',
      groundColumn x ys column w = Ret (column ++ seq (length (objs w)) (length ys)) w' /\
      extends w w' /\ storeOk w' /\
      buildings w' = buildings w /\ terrain w' = terrain w /\
      length (objs w') = length (objs w) + length ys /\
      (forall i y, ys !! i = Some y ->
         exists tile v,
           City.getTile (city w) x y = Some tile /\
           objs w' !! (length (objs w) + i) = Some v /\
           Object3D.position v = (Tile.x tile, 0%Z, Tile.y tile) /\
           Object3D.userData v = Some (Tile.x tile, Tile.y tile) /\
           Object3D.visible v = Object3D.visible tpl /\
           (length (objs w) + i) ∈ root w').
Proof.
  induction ys as [|y ys IH]; intros column w Hok Hgrass Htpl Htiles.
  - exists w. simpl. rewrite app_nil_r. split; [reflexivity|].
    split; [apply extends_refl|]. repeat split; auto.
    intros i y Hi. rewrite lookup_nil in Hi. discriminate.
  - destruct (Htiles y) as [tile Htile]; [left|].
    simpl groundColumn. unfold bind at 1, gets. rewrite Htile.
    destruct (createGroundMesh_run tile w tid tpl Hgrass Htpl (storeOk_lookup _ _ _ Hok Htpl))
      as (p' & new & Hr & Hl & Hrun).
    erewrite bind_Ret by exact Hrun.
    erewrite bind_Ret by apply rootAdd_run.
    set (v := Object3D.mk p' (Tile.x tile, 0%Z, Tile.y tile) (Object3D.rotation tpl)
                (Object3D.visible tpl) (Some (Tile.x tile, Tile.y tile))) in *.
    match goal with |- context [groundColumn x ys _ ?W] => set (w2 := W) end.
    assert (Hext : extends w w2) by exact (extends_added w v new).
    assert (Hlen2 : length (objs w2) = S (length (objs w))).
    { unfold w2. simpl. rewrite length_app. simpl. lia. }
    assert (Hv2 : objs w2 !! length (objs w) = Some v).
    { unfold w2. simpl. apply lookup_snoc. }
    assert (Hroot2 : length (objs w) ∈ root w2).
    { unfold w2. simpl. apply elem_of_app. right. left. }
    assert (Hok2 : storeOk w2).
    { unfold storeOk, w2. simpl. apply storeOk_snoc; [exact Hok|].
      simpl. rewrite Hr, length_app. apply Forall_lt_seq. }
    assert (Hcity2 : city w2 = city w) by reflexivity.
    assert (Hgrass2 : meshes w2 !! "grass" = Some tid) by exact Hgrass.
    assert (Hb2 : buildings w2 = buildings w) by reflexivity.
    assert (Ht2 : terrain w2 = terrain w) by reflexivity.
    clearbody w2.
    destruct (IH (column ++ [length (objs w)]) w2 Hok2 Hgrass2
                (extends_lookup _ _ _ _ Hext Htpl))
      as (w' & Hrun' & Hext' & Hok' & Hb' & Ht' & Hlen' & Hfacts).
    { intros y' Hin. rewrite Hcity2. apply Htiles. now right. }
    exists w'. split.
    { rewrite Hrun', Hlen2. simpl. rewrite <- app_assoc. reflexivity. }
    split; [eapply extends_trans; eauto|]. split; [exact Hok'|].
    split; [congruence|]. split; [congruence|].
    split; [rewrite Hlen', Hlen2; simpl; lia|].
    intros [|i] y' Hi; simpl in Hi.
    + injection Hi as <-. exists tile, v. rewrite Nat.add_0_r.
      split; [exact Htile|].
      split; [eapply extends_lookup; eauto|].
      split; [reflexivity|]. split; [reflexivity|]. split; [reflexivity|].
      destruct Hext' as (_ & _ & _ & _ & _ & _ & Hr'). auto.
    + destruct (Hfacts i y' Hi) as (tile' & v' & Htile' & Hv' & Hfields).
      exists tile', v'. rewrite Hcity2 in Htile'. rewrite Hlen2 in Hv', Hfields.
      replace (length (objs w) + S i) with (S (length (objs w)) + i) by lia.
      auto.
Qed.

(** The outer loop of [#initialize] over the columns [xs]. *)
Lemma initialize_columns size tid tpl :
  forall xs w,
    storeOk w ->
    meshes w !! "grass" = Some tid -> objs w !! tid = Some tpl ->
    (forall x y, x ∈ xs -> y < size -> is_Some (City.getTile (city w) x y)) ->
    exists w',
      forEach xs (fun x =>
        column <- groundColumn x (seq 0 size) [] ;;
        modify (fun w => set_buildings (buildings w ++ [replicate size None]) w) ;;;
        modify (fun w => set_terrain (terrain w ++ [column]) w)) w = Ret tt w' /\
      extends w w' /\ storeOk w' /\
      buildings w' = buildings w ++ replicate (length xs) (replicate size None) /\
      terrain w'
      = terrain w ++ map (fun i => seq (length (objs w) + i * size) size) (seq 0 (length xs)) /\
      length (objs w') = length (objs w) + length xs * size /\
      (forall i x y, xs !! i = Some x -> y < size ->
         exists tile v,
           City.getTile (city w) x y = Some tile /\
           objs w' !! (length (objs w) + i * size + y) = Some v /\
           Object3D.position v = (Tile.x tile, 0%Z, Tile.y tile) /\
           Object3D.userData v = Some (Tile.x tile, Tile.y tile) /\
           Object3D.visible v = Object3D.visible tpl /\
           (length (objs w) + i * size + y) ∈ root w').
Proof.
  induction xs as [|x xs IH]; intros w Hok Hgrass Htpl Htiles.
  - exists w. simpl. rewrite !app_nil_r. split; [reflexivity|].
    split; [apply extends_refl|]. repeat split; auto.
    intros i x y Hi. rewrite lookup_nil in Hi. discriminate.
  - destruct (groundColumn_run x tid tpl (seq 0 size) [] w Hok Hgrass Htpl)
      as (w1 & Hrun1 & Hext1 & Hok1 & Hb1 & Ht1 & Hlen1 & Hfacts1).
    { intros y Hin. apply elem_of_seq in Hin. apply Htiles; [left | lia]. }
    rewrite length_seq in Hrun1, Hlen1. simpl app in Hrun1.
    simpl forEach. unfold bind at 1. unfold bind at 1. rewrite Hrun1.
    unfold bind at 1, modify at 1. unfold bind at 1, modify at 1.
    match goal with |- context [forEach xs _ ?W] => set (w2 := W) end.
    assert (Hext2 : extends w w2).
    { eapply extends_trans; [exact Hext1|]. unfold w2, extends. simpl.
      split; [exists []; now rewrite app_nil_r|].
      split; [exists []; now rewrite app_nil_r|]. auto 10. }
    assert (Hok2 : storeOk w2) by exact Hok1.
    assert (Hobjs2 : objs w2 = objs w1) by reflexivity.
    assert (Hroot2 : root w2 = root w1) by reflexivity.
    assert (Hb2 : buildings w2 = buildings w ++ [replicate size None]).
    { unfold w2. simpl. now rewrite Hb1. }
    assert (Ht2 : terrain w2 = terrain w ++ [seq (length (objs w)) size]).
    { unfold w2. simpl. now rewrite Ht1. }
    assert (Hcity2 : city w2 = city w).
    { destruct Hext2 as (_ & _ & _ & Hc & _). exact Hc. }
    assert (Hgrass2 : meshes w2 !! "grass" = Some tid).
    { destruct Hext2 as (_ & _ & Hm & _). now rewrite Hm. }
    clearbody w2.
    destruct (IH w2 Hok2 Hgrass2 (extends_lookup _ _ _ _ Hext2 Htpl))
      as (w' & Hrun' & Hext' & Hok' & Hb' & Ht' & Hlen' & Hfacts').
    { intros x' y Hin Hy. rewrite Hcity2. apply Htiles; [now right | exact Hy]. }
    rewrite Hobjs2, Hlen1 in Ht', Hlen', Hfacts'.
    exists w'. split; [exact Hrun'|].
    split; [eapply extends_trans; eauto|]. split; [exact Hok'|].
    split.
    { rewrite Hb', Hb2, <- app_assoc. reflexivity. }
    split.
    { rewrite Ht', Ht2, <- app_assoc. f_equal. simpl. f_equal.
      - f_equal. lia.
      - rewrite <- seq_shift, map_map. apply map_ext. intros i. f_equal. lia. }
    split; [simpl; lia|].
    intros [|i] x' y Hi Hy; simpl in Hi.
    + injection Hi as <-.
      destruct (Hfacts1 y y) as (tile & v & Htile & Hv & Hpos & Hud & Hvis & Hin).
      { apply lookup_seq. lia. }
      exists tile, v. replace (length (objs w) + 0 * size + y) with (length (objs w) + y) by lia.
      split; [exact Htile|].
      split; [eapply extends_lookup; [exact Hext'|]; now rewrite Hobjs2|].
      split; [exact Hpos|]. split; [exact Hud|]. split; [exact Hvis|].
      destruct Hext' as (_ & _ & _ & _ & _ & _ & Hr'). apply Hr'. now rewrite Hroot2.
    + destruct (Hfacts' i x' y Hi Hy) as (tile & v & Htile & Hv & Hfields).
      exists tile, v. rewrite Hcity2 in Htile.
      replace (length (objs w) + S i * size + y)
        with (length (objs w) + size + i * size + y) by lia.
      auto.
Qed.

Lemma concat_columns a size k :
  concat (map (fun i => seq (a + i * size) size) (seq 0 k)) = seq a (k * size).
Proof.
  induction k as [|k IH]; [reflexivity|].
  rewrite seq_S, map_app, concat_app, IH. simpl. rewrite app_nil_r.
  replace (size + k * size) with (k * size + size) by lia.
  symmetry. apply seq_app.
Qed.

Lemma setupLights_run w :
  exists w',
    setupLights w = Ret tt w' /\ extends w w' /\ (storeOk w -> storeOk w') /\
    buildings w' = buildings w /\ terrain w' = terrain w.
Proof.
  eexists. split; [reflexivity|]. split.
  - eapply extends_trans.
    + exact (extends_added w (Object3D.mk (Node None []) (10, 20, 20)%Z 0%Z true None) []).
    + match goal with |- extends ?W _ =>
        pose proof (extends_added W (Object3D.mk (Node None []) (0, 0, 0)%Z 0%Z true None) [])
          as H end.
      simpl in H. rewrite !app_nil_r in H. rewrite !app_nil_r. exact H.
  - split; [|split; reflexivity].
    intros Hok. unfold storeOk in *. simpl.
    rewrite !Forall_app. repeat split; auto; repeat constructor.
Qed.

(** What [#initialize] leaves behind for a city all of whose coordinates
    hold a tile, with the grass model loaded. *)
Lemma initialize_run graph w tid tpl :
  storeOk w ->
  Forall (fun r => r < length (mats w)) (partRefs (Object3D.part graph)) ->
  meshes w !! "grass" = Some tid -> objs w !! tid = Some tpl ->
  complete (city w) ->
  exists w',
    initialize graph w = Ret tt w' /\
    extends w w' /\ storeOk w' /\
    buildings w' = replicate (City.size (city w)) (replicate (City.size (city w)) None) /\
    terrain w'
    = map (fun i => seq (S (length (objs w)) + i * City.size (city w)) (City.size (city w)))
        (seq 0 (City.size (city w))) /\
    objs w' !! length (objs w) = Some graph /\
    (length (objs w) ∈ root w') /\
    (forall x y, x < City.size (city w) -> y < City.size (city w) ->
       exists tile v,
         tileAt w x y = Some tile /\
         objs w' !! (S (length (objs w)) + x * City.size (city w) + y) = Some v /\
         Object3D.position v = (Tile.x tile, 0%Z, Tile.y tile) /\
         Object3D.userData v = Some (Tile.x tile, Tile.y tile) /\
         Object3D.visible v = Object3D.visible tpl /\
         (S (length (objs w)) + x * City.size (city w) + y) ∈ root w').
Proof.
  intros Hok Hgraph Hgrass Htpl Hfull.
  unfold initialize, newVehicleGraph. unfold bind at 1, alloc.
  erewrite bind_Ret by apply rootAdd_run.
  unfold bind at 1, modify at 1. unfold bind at 1, modify at 1. unfold bind at 1, gets.
  set (w0 := set_terrain []
               (set_buildings []
                  (set_root
                     (removeFirst (length (objs w)) (root (set_objs (objs w ++ [graph]) w))
                        ++ [length (objs w)])
                     (set_calls
                        (calls (set_objs (objs w ++ [graph]) w)
                           ++ [RootAdd (length (objs w))])
                        (set_objs (objs w ++ [graph]) w))))).
  assert (Hext0 : extends w w0).
  { unfold w0, extends. simpl. split; [eauto|].
    split; [exists []; now rewrite app_nil_r|].
    repeat split; auto. intros o. apply elem_of_rootAdd. }
  assert (Hok0 : storeOk w0).
  { unfold storeOk, w0. simpl. apply Forall_app. split; [exact Hok|].
    constructor; [exact Hgraph | constructor]. }
  assert (Hlen0 : length (objs w0) = S (length (objs w))).
  { unfold w0. simpl. rewrite length_app. simpl. lia. }
  assert (Hg0 : objs w0 !! length (objs w) = Some graph).
  { unfold w0. simpl. apply lookup_snoc. }
  assert (Hroot0 : length (objs w) ∈ root w0).
  { unfold w0. simpl. apply elem_of_app. right. left. }
  assert (Hb0 : buildings w0 = []) by reflexivity.
  assert (Ht0 : terrain w0 = []) by reflexivity.
  assert (Hcity0 : city w0 = city w) by reflexivity.
  assert (Hgrass0 : meshes w0 !! "grass" = Some tid) by exact Hgrass.
  change (City.size (city w0)) with (City.size (city w)).
  clearbody w0.
  set (n := City.size (city w)) in *.
  destruct (initialize_columns n tid tpl (seq 0 n) w0 Hok0 Hgrass0
              (extends_lookup _ _ _ _ Hext0 Htpl))
    as (w1 & Hrun1 & Hext1 & Hok1 & Hb1 & Ht1 & Hlen1 & Hfacts1).
  { intros x y Hin Hy. apply elem_of_seq in Hin. rewrite Hcity0. apply Hfull; lia. }
  rewrite length_seq in Hb1, Ht1, Hlen1. rewrite Hb0 in Hb1. rewrite Ht0 in Ht1.
  rewrite Hlen0 in Ht1, Hfacts1. simpl app in Hb1, Ht1.
  erewrite bind_Ret by exact Hrun1.
  destruct (setupLights_run w1) as (w' & Hrun' & Hext' & Hok' & Hb' & Ht').
  exists w'. split; [exact Hrun'|].
  split; [eapply extends_trans; [exact Hext0|]; eapply extends_trans; eauto|].
  split; [auto|]. split; [congruence|]. split; [rewrite Ht'; exact Ht1|].
  split; [eapply extends_lookup; [exact (extends_trans _ _ _ Hext1 Hext') | exact Hg0]|].
  split.
  { destruct Hext1 as (_ & _ & _ & _ & _ & _ & Hr1).
    destruct Hext' as (_ & _ & _ & _ & _ & _ & Hr'). auto. }
  intros x y Hx Hy.
  destruct (Hfacts1 x x y) as (tile & v & Htile & Hv & Hpos & Hud & Hvis & Hin);
    [apply lookup_seq; lia | exact Hy |].
  exists tile, v. unfold tileAt. rewrite <- Hcity0.
  split; [exact Htile|]. split; [eapply extends_lookup; eauto|].
  split; [exact Hpos|]. split; [exact Hud|]. split; [exact Hvis|].
  destruct Hext' as (_ & _ & _ & _ & _ & _ & Hr'). auto.
Qed.

Lemma lookup_columns a n x :
  x < n ->
  map (fun i => seq (a + i * n) n) (seq 0 n) !! x = Some (seq (a + x * n) n).
Proof.
  intros Hx. rewrite list_lookup_fmap.
  rewrite (proj2 (lookup_seq 0 n x x)) by lia. reflexivity.
Qed.

(** X17.  For a city all of whose coordinates hold a tile, with the grass
    model loaded, [#initialize] returns a scene with an empty slot at
    every coordinate and one terrain mesh per tile: a new object, placed
    at [(tile.x, 0, tile.y)], referring to the tile and added to the
    root, no mesh standing for two tiles.  The vehicle graph is a child
    of the root, the objects and materials that existed are as before,
    and all objects refer to allocated materials. *)
Theorem initialize_builds_scene graph w tid tpl :
  storeOk w ->
  Forall (fun r => r < length (mats w)) (partRefs (Object3D.part graph)) ->
  meshes w !! "grass" = Some tid -> objs w !! tid = Some tpl ->
  complete (city w) ->
  exists w',
    initialize graph w = Ret tt w' /\
    extends w w' /\ storeOk w' /\
    (length (objs w) ∈ root w') /\
    NoDup (concat (terrain w')) /\
    (forall x y, x < City.size (city w) -> y < City.size (city w) ->
       slotAt w' x y = None /\
       is_Some (buildings w' !! x) /\
       exists tile t v,
         tileAt w x y = Some tile /\
         terrainAt w' x y = Some t /\
         length (objs w) < t /\
         objs w' !! t = Some v /\
         Object3D.position v = (Tile.x tile, 0%Z, Tile.y tile) /\
         Object3D.userData v = Some (Tile.x tile, Tile.y tile) /\
         (t ∈ root w')).
Proof.
  intros Hok Hgraph Hgrass Htpl Hfull.
  destruct (initialize_run graph w tid tpl Hok Hgraph Hgrass Htpl Hfull)
    as (w' & Hrun & Hext & Hok' & Hb & Ht & Hg & Hgroot & Hfacts).
  exists w'. split; [exact Hrun|]. split; [exact Hext|]. split; [exact Hok'|].
  split; [exact Hgroot|]. split.
  { rewrite Ht, concat_columns. apply NoDup_seq. }
  intros x y Hx Hy.
  assert (Hcol : buildings w' !! x = Some (replicate (City.size (city w)) None)).
  { rewrite Hb. apply lookup_replicate. auto. }
  split.
  { unfold slotAt. rewrite Hcol.
    rewrite (proj2 (lookup_replicate _ _ _ _)) by auto. reflexivity. }
  split; [eauto|].
  destruct (Hfacts x y Hx Hy) as (tile & v & Htile & Hv & Hpos & Hud & _ & Hin).
  exists tile, (S (length (objs w)) + x * City.size (city w) + y), v.
  split; [exact Htile|]. split.
  { unfold terrainAt. rewrite Ht, lookup_columns by exact Hx.
    apply lookup_seq. split; [reflexivity | exact Hy]. }
  split; [lia|]. auto.
Qed.

(** The theorem above for the sample city, with the sample catalog
    loaded. *)
Lemma initialize_builds_scene_witness :
  exists w',
    initialize Demo.graph Demo.unbuilt = Ret tt w' /\
    extends Demo.unbuilt w' /\ storeOk w' /\
    (length (objs Demo.unbuilt) ∈ root w') /\
    NoDup (concat (terrain w')) /\
    (forall x y, x < City.size (city Demo.unbuilt) -> y < City.size (city Demo.unbuilt) ->
       slotAt w' x y = None /\
       is_Some (buildings w' !! x) /\
       exists tile t v,
         tileAt Demo.unbuilt x y = Some tile /\
         terrainAt w' x y = Some t /\
         length (objs Demo.unbuilt) < t /\
         objs w' !! t = Some v /\
         Object3D.position v = (Tile.x tile, 0%Z, Tile.y tile) /\
         Object3D.userData v = Some (Tile.x tile, Tile.y tile) /\
         (t ∈ root w')).
Proof.
  apply (initialize_builds_scene Demo.graph Demo.unbuilt 0
           (Object3D.mk (Node (Some 0) []) (0, 0, 0)%Z 0%Z true None)).
  - unfold storeOk. simpl. repeat (constructor; try lia).
  - constructor.
  - reflexivity.
  - reflexivity.
  - intros x y Hx Hy. simpl in Hx, Hy.
    destruct x as [|[|x]], y as [|[|y]]; try lia; eexists; reflexivity.
Defined.

(** A pass over a scene without any instance. *)
Lemma applyChanges_all_empty w :
  (forall x y, slotAt w x y = None) ->
  let w' := final (applyChanges w) in
  root w' = root w /\ calls w' = calls w /\ buildings w' = buildings w /\
  city w' = city w /\ mats w' = mats w /\ length (objs w') = length (objs w).
Proof.
  intros Hempty. cbv zeta. rewrite applyChanges_coords.
  apply (forEach_final
           (fun w0 => root w0 = root w /\ calls w0 = calls w /\ buildings w0 = buildings w /\
                      city w0 = city w /\ mats w0 = mats w /\
                      length (objs w0) = length (objs w))); [|auto 10].
  intros [x y] w0 _ (Hr & Hc & Hb & Hci & Hm & Hl). simpl.
  destruct (applyTile_idle_final x y w0) as (Hr' & Hc' & Hb' & Hci' & Hm' & _ & Hl' & _).
  { assert (Hs : slotAt w0 x y = None) by (unfold slotAt; rewrite Hb; apply Hempty).
    rewrite Hs. unfold nothingToDo. now destruct (buildingAt w0 x y). }
  repeat split; congruence.
Qed.



Lemma groundColumn_no_grass x :
  forall ys column w,
    meshes w !! "grass" = None ->
    (Forall (fun y => City.getTile (city w) x y = None) ys ->
     groundColumn x ys column w = Ret column w) /\
    (Exists (fun y => is_Some (City.getTile (city w) x y)) ys ->
     groundColumn x ys column w
     = Throw (TypeError "Cannot read properties of undefined (reading 'clone')") w).
Proof.
  induction ys as [|y ys IH]; intros column w Hgrass.
  - split; [reflexivity|]. intros H. inversion H.
  - assert (E : groundColumn x (y :: ys) column w
                 = match City.getTile (city w) x y with
                   | None => groundColumn x ys column w
                   | Some tile =>
                       (mesh <- createGroundMesh tile ;;
                        rootAdd (Some mesh) ;;;
                        groundColumn x ys (column ++ [mesh])) w
                   end).
    { simpl. unfold bind at 1, gets. now destruct (City.getTile (city w) x y). }
    rewrite E. clear E.
    destruct (City.getTile (city w) x y) as [tile|] eqn:Htile.
    + split.
      * intros H. apply Forall_cons in H as [H _]. congruence.
      * intros _. apply bind_Throw. unfold createGroundMesh. apply bind_Throw.
        now apply cloneMesh_absent.
    + destruct (IH column w Hgrass) as [IH1 IH2]. split.
      * intros H. apply Forall_cons in H as [_ H]. auto.
      * intros H. apply Exists_cons in H as [[t Ht]|H]; [congruence | auto].
Qed.

Lemma initialize_columns_no_grass size :
  forall xs w,
    meshes w !! "grass" = None ->
    Exists (fun x => Exists (fun y => is_Some (City.getTile (city w) x y)) (seq 0 size)) xs ->
    exists w',
      forEach xs (fun x =>
        column <- groundColumn x (seq 0 size) [] ;;
        modify (fun w => set_buildings (buildings w ++ [replicate size None]) w) ;;;
        modify (fun w => set_terrain (terrain w ++ [column]) w)) w
      = Throw (TypeError "Cannot read properties of undefined (reading 'clone')") w' /\
      objs w' = objs w /\ root w' = root w /\ calls w' = calls w.
Proof.
  induction xs as [|x xs IH]; intros w Hgrass Hex; [inversion Hex|].
  destruct (groundColumn_no_grass x (seq 0 size) [] w Hgrass) as [Hnone Hsome].
  simpl forEach.
  destruct (decide (Exists (fun y => is_Some (City.getTile (city w) x y)) (seq 0 size)))
    as [Hcol|Hcol].
  - exists w. split; [|auto]. apply bind_Throw, bind_Throw. auto.
  - apply not_Exists_Forall in Hcol; [|intros y; apply _].
    assert (Hcol' : Forall (fun y => City.getTile (city w) x y = None) (seq 0 size)).
    { eapply Forall_impl; [exact Hcol|]. intros y Hy. simpl in Hy.
      now apply eq_None_not_Some. }
    apply Exists_cons in Hex as [Hex|Hex].
    { exfalso. apply Exists_exists in Hex as (y & Hin & Hy).
      rewrite Forall_forall in Hcol'. rewrite (Hcol' y Hin) in Hy.
      destruct Hy as [? Hy]. discriminate. }
    unfold bind at 1. unfold bind at 1. rewrite (Hnone Hcol').
    unfold bind at 1, modify at 1. unfold bind at 1, modify at 1.
    match goal with |- context [forEach xs _ ?W] => destruct (IH W) as (w' & Hrun & Ho & Hr & Hc) end.
    + exact Hgrass.
    + exact Hex.
    + exists w'. split; [exact Hrun|]. auto.
Qed.

(** X19.  Without the grass model, [#initialize] throws at the first
    tile it finds in the city: the vehicle graph is already a child of
    the root by then, and no terrain mesh has been made. *)
Theorem initialize_needs_grass graph w x y :
  meshes w !! "grass" = None ->
  x < City.size (city w) -> y < City.size (city w) ->
  is_Some (tileAt w x y) ->
  exists w',
    initialize graph w
    = Throw (TypeError "Cannot read properties of undefined (reading 'clone')") w' /\
    objs w' = objs w ++ [graph] /\
    root w' = removeFirst (length (objs w)) (root w) ++ [length (objs w)] /\
    calls w' = calls w ++ [RootAdd (length (objs w))].
Proof.
  intros Hgrass Hx Hy Htile.
  unfold initialize, newVehicleGraph. unfold bind at 1, alloc.
  erewrite bind_Ret by apply rootAdd_run.
  unfold bind at 1, modify at 1. unfold bind at 1, modify at 1. unfold bind at 1, gets.
  set (w0 := set_terrain []
               (set_buildings []
                  (set_root
                     (removeFirst (length (objs w)) (root (set_objs (objs w ++ [graph]) w))
                        ++ [length (objs w)])
                     (set_calls
                        (calls (set_objs (objs w ++ [graph]) w)
                           ++ [RootAdd (length (objs w))])
                        (set_objs (objs w ++ [graph]) w))))).
  change (City.size (city w0)) with (City.size (city w)).
  destruct (initialize_columns_no_grass (City.size (city w)) (seq 0 (City.size (city w))) w0)
    as (w' & Hrun & Ho & Hr & Hc).
  - exact Hgrass.
  - apply Exists_exists. exists x. split; [apply elem_of_seq; lia|].
    apply Exists_exists. exists y. split; [apply elem_of_seq; lia | exact Htile].
  - exists w'. split; [apply bind_Throw; exact Hrun|]. auto.
Qed.

(** The theorem above for the sample city handed to a scene whose
    catalog is empty. *)
Lemma initialize_needs_grass_witness :
  exists w',
    initialize Demo.graph (set_city Sample.town Sample.blank)
    = Throw (TypeError "Cannot read properties of undefined (reading 'clone')") w' /\
    objs w' = objs (set_city Sample.town Sample.blank) ++ [Demo.graph] /\
    root w' = removeFirst (length (objs (set_city Sample.town Sample.blank)))
                (root (set_city Sample.town Sample.blank))
                ++ [length (objs (set_city Sample.town Sample.blank))] /\
    calls w' = calls (set_city Sample.town Sample.blank)
                 ++ [RootAdd (length (objs (set_city Sample.town Sample.blank)))].
Proof.
  apply (initialize_needs_grass Demo.graph (set_city Sample.town Sample.blank) 0 0).
  - reflexivity.
  - simpl. lia.
  - simpl. lia.
  - eexists. reflexivity.
Defined.

(** ** More on the pass and the catalog *)

(** X20.  A returning pass changes the look of no object that existed,
    template or instance: its sub-parts and the materials behind them
    are as before.  In particular the tint of an abandoned zone stays on
    the instance made for it. *)
Theorem applyChanges_keeps_looks w w' o l :
  storeOk w ->
  applyChanges w = Ret tt w' ->
  lookOf w o = Some l ->
  lookOf w' o = Some l.
Proof.
  intros Hok Hrun Hl. rewrite applyChanges_coords in Hrun.
  apply forEach_Steps in Hrun; [|exact Hok].
  unfold lookOf in *. destruct (objs w !! o) as [v|] eqn:Hv; [|discriminate].
  simpl in Hl. injection Hl as <-.
  destruct (Steps_parts _ _ _ o v Hrun Hv) as (v' & Hv' & Hpart).
  destruct (Steps_mats _ _ _ Hrun) as [extra Hmats].
  rewrite Hv'. simpl. rewrite Hpart, Hmats. f_equal.
  apply look_app. eapply storeOk_lookup; eauto.
Qed.

(** The theorem above for the house template of the sample scene, whose
    abandoned zone is rebuilt by the pass. *)
Lemma applyChanges_keeps_looks_witness :
  exists w' l,
    applyChanges Sample.scene = Ret tt w' /\
    lookOf Sample.scene 2 = Some l /\
    lookOf w' 2 = Some l.
Proof.
  eexists _, _. split; [vm_compute; reflexivity|]. split; [reflexivity|].
  apply (applyChanges_keeps_looks Sample.scene).
  - unfold storeOk. simpl. repeat (constructor; try lia).
  - vm_compute. reflexivity.
  - reflexivity.
Defined.

Lemma numberToString_inj a b : numberToString a = numberToString b -> a = b.
Proof.
  unfold numberToString. intros H.
  assert (Hnn : forall z, Z.to_int z <> Decimal.Pos Decimal.Nil
                          /\ Z.to_int z <> Decimal.Neg Decimal.Nil).
  { intros [|p|p]; simpl; split; try discriminate;
      intros E; injection E as E; now apply DecimalPos.Unsigned.to_uint_nonnil in E. }
  apply (f_equal NilZero.int_of_string) in H.
  rewrite !NilZero.isi in H by apply Hnn.
  injection H as H. now apply DecimalZ.to_int_inj.
Qed.

(** X21.  The model a zone is instantiated from depends on its level:
    two zones of the same type and style ask [cloneMesh] for the same
    model only if their levels are equal. *)
Theorem zoneModelName_level z1 z2 :
  Building.type z1 = Building.type z2 ->
  Building.style z1 = Building.style z2 ->
  zoneModelName z1 = zoneModelName z2 ->
  Building.level z1 = Building.level z2.
Proof.
  unfold zoneModelName. intros -> -> H.
  apply numberToString_inj.
  do 3 apply String.app_inj in H. exact H.
Qed.

(** The theorem above for two zones that differ at most in level and in
    their flags. *)
Lemma zoneModelName_level_witness :
  Building.level Sample.abandonedZone
  = Building.level (Building.setDeveloped true Sample.abandonedZone).
Proof.
  apply (zoneModelName_level Sample.abandonedZone
           (Building.setDeveloped true Sample.abandonedZone));
    reflexivity.
Defined.

(** X22.  The constructor of the asset manager empties the catalog,
    sets the number of models to load to the size of the table and
    requests every file of the table once, in the order of the table; it
    stores no template itself and never fires the ready callback. *)
Theorem newAssetManager_requests_all models w :
  exists w',
    newAssetManager models w = Ret tt w' /\
    meshes w' = ∅ /\
    modelCount w' = length models /\ loadedModelCount w' = 0 /\
    calls w' = calls w ++ map (fun entry => LoadRequest (filename (snd entry))) models /\
    objs w' = objs w /\ mats w' = mats w /\ root w' = root w.
Proof.
  unfold newAssetManager, bind, modify. simpl.
  set (w1 := set_loadedModelCount 0 _).
  assert (H : forall l w2, exists w',
             forEach l (fun entry => loadModel (fst entry) (snd entry)) w2 = Ret tt w' /\
             meshes w' = meshes w2 /\ modelCount w' = modelCount w2 /\
             loadedModelCount w' = loadedModelCount w2 /\
             calls w' = calls w2 ++ map (fun entry => LoadRequest (filename (snd entry))) l /\
             objs w' = objs w2 /\ mats w' = mats w2 /\ root w' = root w2).
  { induction l as [|[n d] l IH]; intros w2; simpl.
    - exists w2. rewrite app_nil_r. auto 10.
    - unfold loadModel, call, bind, modify. simpl.
      match goal with |- context [forEach l _ ?w3] =>
        destruct (IH w3) as (w' & Hd & Hm & Hmc & Hlc & Hcalls & Ho & Hma & Hr) end.
      simpl in *. exists w'. split; [exact Hd|].
      repeat split; auto. rewrite Hcalls, <- app_assoc. reflexivity. }
  destruct (H models w1) as (w' & Hd & Hm & Hmc & Hlc & Hcalls & Ho & Hma & Hr).
  exists w'. split; [exact Hd|]. repeat split; auto.
Qed.

(** ** The cache and the root *)

(** The slot of the coordinate a step works on: kept with the root as it
    was, emptied, or filled with the new instance, which is a child of
    the root. *)
Lemma TileStep_slot_here x y w w' :
  TileStep x y w w' ->
  (slotAt w' x y = slotAt w x y /\ root w' = root w) \/
  slotAt w' x y = None \/
  (slotAt w' x y = Some (length (objs w)) /\ length (objs w) ∈ root w').
Proof.
  intros Hstep.
  inversion Hstep as [col t tv Hcol Ht Htv Hidle
                     | col t tv m Hcol Ht Htv Hb Hs0
                     | col t tv m tile b Hcol Ht Htv Htile Hb Hstale Hs0 Hname
                     | col t tv m tile b name tid tpl p' new
                         Hcol Ht Htv Htile Hb Hstale Hs0 Hname Hmesh Htpl Hrefs Hlook];
    subst.
  - left. split; reflexivity.
  - right. left. unfold slotAt, removed. simpl.
    apply (slotAt_insert_eq (buildings w) col x y None (Some m) Hcol
             (slotAt_Some w x y m col Hcol Hs0)).
  - right. left. unfold slotAt, dropped. simpl.
    apply (slotAt_insert_eq (buildings w) col x y None (Some m) Hcol
             (slotAt_Some w x y m col Hcol Hs0)).
  - right. right. unfold slotAt, rebuilt. simpl. rewrite length_insert. split.
    + apply (slotAt_insert_eq (buildings w) col x y _ (Some m) Hcol
               (slotAt_Some w x y m col Hcol Hs0)).
    + apply elem_of_app. right. left.
Qed.

Lemma TileStep_cache x y w w' :
  TileStep x y w w' ->
  slotsAllocated w -> slotsDistinct w -> slotsShown w ->
  slotsDistinct w' /\ slotsShown w'.
Proof.
  intros Hstep Halloc Hdist Hshown.
  pose proof (TileStep_slot_here _ _ _ _ Hstep) as Hhere.
  assert (Hother : forall x0 y0, (x0, y0) <> (x, y) -> slotAt w' x0 y0 = slotAt w x0 y0).
  { intros x0 y0 Hne. now destruct (TileStep_other _ _ _ _ x0 y0 Hstep Hne). }
  assert (Hfresh : forall x0 y0, (x0, y0) <> (x, y) ->
                     slotAt w' x0 y0 <> Some (length (objs w))).
  { intros x0 y0 Hne Hs. rewrite Hother in Hs by exact Hne. apply Halloc in Hs. lia. }
  split.
  - intros x1 y1 x2 y2 m H1 H2.
    destruct (decide ((x1, y1) = (x, y))) as [E1|N1];
      destruct (decide ((x2, y2) = (x, y))) as [E2|N2].
    + congruence.
    + exfalso. injection E1 as -> ->.
      destruct Hhere as [[Hs _]|[Hs|[Hs _]]]; rewrite Hs in H1.
      * rewrite Hother in H2 by exact N2. apply N2. symmetry. eapply Hdist; eauto.
      * discriminate.
      * injection H1 as <-. exact (Hfresh _ _ N2 H2).
    + exfalso. injection E2 as -> ->.
      destruct Hhere as [[Hs _]|[Hs|[Hs _]]]; rewrite Hs in H2.
      * rewrite Hother in H1 by exact N1. apply N1. symmetry. eapply Hdist; eauto.
      * discriminate.
      * injection H2 as <-. exact (Hfresh _ _ N1 H1).
    + rewrite Hother in H1, H2 by assumption. eapply Hdist; eauto.
  - intros x0 y0 m Hs.
    destruct (decide ((x0, y0) = (x, y))) as [E|Hne].
    + injection E as -> ->.
      destruct Hhere as [[Hs' Hr]|[Hs'|[Hs' Hin]]]; rewrite Hs' in Hs.
      * rewrite Hr. eapply Hshown; eauto.
      * discriminate.
      * injection Hs as <-. exact Hin.
    + rewrite Hother in Hs by exact Hne.
      eapply TileStep_root_stays; [exact Hstep | eapply Hshown; eauto |].
      intros Hs'. apply Hne. eapply Hdist; eauto.
Qed.

Lemma Steps_cache l w w' :
  Steps l w w' ->
  slotsAllocated w -> slotsDistinct w -> slotsShown w ->
  slotsDistinct w' /\ slotsShown w'.
Proof.
  induction 1 as [|x y l w w1 w2 Hstep _ IH]; [auto|].
  intros Halloc Hdist Hshown.
  destruct (TileStep_cache _ _ _ _ Hstep Halloc Hdist Hshown) as [Hd1 Hs1].
  apply IH; auto. eapply TileStep_slotsAllocated; eauto.
Qed.

(** X23.  A returning pass keeps the cache and the root in step: if no
    instance is held in two slots and every cached instance is a child
    of the root, the same holds afterwards; and the pass removes from the
    root nothing but cached instances (terrain meshes, lights and the
    vehicle graph stay children of the root). *)
Theorem applyChanges_keeps_cache_shown w w' :
  storeOk w ->
  slotsAllocated w -> slotsDistinct w -> slotsShown w ->
  applyChanges w = Ret tt w' ->
  slotsDistinct w' /\ slotsShown w' /\
  (forall a, a ∈ root w -> (forall x y, slotAt w x y <> Some a) -> a ∈ root w').
Proof.
  intros Hok Halloc Hdist Hshown Hrun. rewrite applyChanges_coords in Hrun.
  apply forEach_Steps in Hrun; [|exact Hok].
  destruct (Steps_cache _ _ _ Hrun Halloc Hdist Hshown) as [Hd Hs].
  split; [exact Hd|]. split; [exact Hs|].
  intros a Ha Hnot. eapply Steps_root_stays; eauto using NoDup_coords.
Qed.

(** The theorem above on the sample scene. *)
Lemma applyChanges_keeps_cache_shown_witness :
  exists w',
    applyChanges Sample.scene = Ret tt w' /\
    slotsDistinct w' /\ slotsShown w' /\
    (forall a, a ∈ root Sample.scene -> (forall x y, slotAt Sample.scene x y <> Some a) ->
               a ∈ root w').
Proof.
  assert (Hslot : forall x y m, slotAt Sample.scene x y = Some m ->
            (x = 0 /\ y = 0 /\ m = 7) \/ (x = 0 /\ y = 1 /\ m = 8)
            \/ (x = 1 /\ y = 1 /\ m = 9)).
  { intros x y m Hs.
    destruct x as [|[|x]], y as [|[|y]]; vm_compute in Hs; try discriminate Hs;
      injection Hs as <-; auto 10. }
  eexists. split; [vm_compute; reflexivity|].
  apply (applyChanges_keeps_cache_shown Sample.scene).
  - unfold storeOk. simpl. repeat (constructor; try lia).
  - intros x y m Hs.
    destruct (Hslot x y m Hs) as [(-> & -> & ->)|[(-> & -> & ->)|(-> & -> & ->)]];
      simpl; lia.
  - intros x y x' y' m H1 H2.
    destruct (Hslot x y m H1) as [(-> & -> & ->)|[(-> & -> & ->)|(-> & -> & ->)]];
      destruct (Hslot x' y' _ H2) as [(-> & -> & E)|[(-> & -> & E)|(-> & -> & E)]];
      first [reflexivity | discriminate E].
  - intros x y m Hs.
    destruct (Hslot x y m Hs) as [(-> & -> & ->)|[(-> & -> & ->)|(-> & -> & ->)]];
      simpl; rewrite !elem_of_cons; auto 10.
  - vm_compute. reflexivity.
Defined.

(** ** From the loader to the first pass *)

Lemma bind_ret_tt (m : M unit) w : (m ;;; ret tt) w = m w.
Proof. unfold bind, ret. destruct (m w) as [[] w1|e w1]; reflexivity. Qed.

(** X24.  The start-up returns.  When the last model of the catalog
    arrives, the grass model being among those delivered, the callback
    of the scene manager logs, builds the scene for a city all of whose
    coordinates hold a tile, and hands over to the callback of the
    caller; nothing throws on the way.  In the state handed over the
    scene is well-formed, has one terrain column per column of the city,
    no terrain mesh twice and every slot empty, and a pass over it
    returns with the root children and the call record as they were. *)
Theorem startup_returns onLoad graph es name meta glb w :
  storeOk w -> catalogOk w ->
  S (loadedModelCount w + successes es) = modelCount w ->
  "grass" ∈ loadedNames es ++ [name] ->
  partRefs (Object3D.part graph) = [] ->
  complete (city w) ->
  exists w2 w3,
    forEach (es ++ [Loaded name meta glb]) (deliverTo (sceneOnLoad graph onLoad)) w
    = onLoad w2 /\
    storeOk w2 /\
    length (terrain w2) = City.size (city w) /\
    NoDup (concat (terrain w2)) /\
    (forall x y, slotAt w2 x y = None) /\
    city w2 = city w /\
    applyChanges w2 = Ret tt w3 /\
    root w3 = root w2 /\ calls w3 = calls w2 /\ city w3 = city w.
Proof.
  intros Hok Hcat Hlast Hgrass Hgraph Hfull.
  destruct (deliverTo_invariant (sceneOnLoad graph onLoad) es w Hok Hcat)
    as (w' & Hd & Hok' & Hcat' & _ & Hnames & Hl' & Hm' & _ & _ & _ & _ & Hcity');
    [lia|].
  destruct (onGlbLoaded_invariant (sceneOnLoad graph onLoad) name meta glb w' Hok' Hcat')
    as (w1 & Hrun1 & Hok1 & Hcat1 & Hname & Hmono & _ & _ & _ & _ & _ & Hcity1 & _).
  assert (Hdone : (S (loadedModelCount w') =? modelCount w') = true)
    by (apply Nat.eqb_eq; lia).
  rewrite Hdone in Hrun1. unfold when in Hrun1.
  assert (Hg : is_Some (meshes w1 !! "grass")).
  { apply elem_of_app in Hgrass as [Hin|Hin]; [auto|].
    apply list_elem_of_singleton in Hin. now rewrite Hin. }
  destruct Hg as [tid Htid].
  destruct (lookup_lt_is_Some_2 (objs w1) tid (Hcat1 _ _ Htid)) as [tpl Htpl].
  set (wl := set_calls (calls w1 ++ [ConsoleLog "assets loaded"]) w1).
  assert (Hokl : storeOk wl) by exact Hok1.
  assert (Hgl : Forall (fun r => r < length (mats wl)) (partRefs (Object3D.part graph)))
    by (rewrite Hgraph; constructor).
  assert (Hfl : complete (city wl)).
  { change (city wl) with (city w1). rewrite Hcity1, Hcity'. exact Hfull. }
  destruct (initialize_run graph wl tid tpl Hokl Hgl Htid Htpl Hfl) as
    (w2 & Hrun & Hext & Hok2 & Hb & Ht & _ & _ & Hfacts).
  change (city wl) with (city w1) in *. change (objs wl) with (objs w1) in *.
  assert (Hcity2 : city w2 = city w1) by (destruct Hext as (_ & _ & _ & Hc & _); exact Hc).
  assert (Hempty : forall x y, slotAt w2 x y = None).
  { intros x y. unfold slotAt. rewrite Hb.
    destruct (replicate _ _ !! x) as [col|] eqn:Hcol; [|reflexivity].
    apply lookup_replicate in Hcol as [-> _].
    destruct (replicate _ _ !! y) as [s|] eqn:Hs; [|reflexivity].
    apply lookup_replicate in Hs as [-> _]. reflexivity. }
  destruct (applyChanges_total w2 Hok2) as [w3 Hpass].
  { rewrite Hcity2. intros x y Hx Hy. split.
    { rewrite Hb. apply lookup_lt_is_Some. rewrite length_replicate. exact Hx. }
    split.
    { destruct (Hfacts x y Hx Hy) as (tile & v & _ & Hv & _).
      eexists. split; [|eexists; exact Hv].
      unfold terrainAt. rewrite Ht, lookup_columns by exact Hx.
      apply lookup_seq. split; [reflexivity | exact Hy]. }
    intros b _ _ [s Hs]. rewrite Hempty in Hs. discriminate. }
  pose proof (applyChanges_all_empty w2 Hempty) as Hkept.
  rewrite Hpass in Hkept. simpl in Hkept.
  destruct Hkept as (Hr3 & Hc3 & _ & Hci3 & _).
  exists w2, w3. split.
  { rewrite forEach_app. erewrite bind_Ret by exact Hd.
    change (forEach [Loaded name meta glb] (deliverTo (sceneOnLoad graph onLoad)) w')
      with ((onGlbLoaded (sceneOnLoad graph onLoad) name meta (Mesh glb) ;;; ret tt) w').
    rewrite bind_ret_tt, Hrun1.
    unfold sceneOnLoad. unfold bind at 1, call, modify. fold wl.
    erewrite bind_Ret by exact Hrun. reflexivity. }
  split; [exact Hok2|].
  split; [rewrite Ht, length_map, length_seq; congruence|].
  split; [rewrite Ht, concat_columns; apply NoDup_seq|].
  split; [exact Hempty|].
  split; [congruence|].
  split; [exact Hpass|].
  split; [exact Hr3|]. split; [exact Hc3 | congruence].
Qed.

(** The theorem above for the sample catalog and the sample city: two
    models have come, the third completes the catalog. *)
Lemma startup_returns_witness :
  exists w2 w3,
    forEach (Demo.early
               ++ [Loaded "residential-A1" (Sample.meta "building-house-block-big.glb")
                     Sample.twoParts])
      (deliverTo (sceneOnLoad Demo.graph (call Ready))) Demo.requested
    = call Ready w2 /\
    storeOk w2 /\
    length (terrain w2) = City.size (city Demo.requested) /\
    NoDup (concat (terrain w2)) /\
    (forall x y, slotAt w2 x y = None) /\
    city w2 = city Demo.requested /\
    applyChanges w2 = Ret tt w3 /\
    root w3 = root w2 /\ calls w3 = calls w2 /\ city w3 = city Demo.requested.
Proof.
  apply (startup_returns (call Ready) Demo.graph Demo.early "residential-A1"
           (Sample.meta "building-house-block-big.glb") Sample.twoParts Demo.requested).
  - constructor.
  - intros name tid H. change (meshes Demo.requested) with (∅ : gmap string nat) in H.
    rewrite lookup_empty in H. discriminate H.
  - reflexivity.
  - simpl. rewrite !elem_of_cons. auto.
  - reflexivity.
  - intros x y Hx Hy. simpl in Hx, Hy.
    destruct x as [|[|x]], y as [|[|y]]; try lia; eexists; reflexivity.
Defined.
